(** * Issue voting and aggregation engine

    A shallow embedding of the issue/vote models (models/Issue.ts, which
    also carries the Vote model), the vote route, the single-issue route,
    the issue-list route and the admin statistics route, followed by the
    properties of the voting and aggregation core.

    Conventions of the embedding:
    - a MongoDB collection is a list of documents in insertion order;
    - an ObjectId is an opaque number; a route parameter that is not a
      well-formed ObjectId is [None];
    - a Date is a number of milliseconds;
    - JavaScript numbers that come from JSON bodies or that go through
      division are binary64 floats; counters and parsed integers are
      integers: [None] stands for NaN where parseInt is involved, a
      parsed integer is the binary64 number nearest to the digits, and
      an infinity is held as 2^1024 with its sign;
    - a string is held as its UTF-8 encoding: lengths count UTF-16 code
      units, white space and line terminators are those of ECMAScript;
    - [populate] is left out: a response carries the stored document, and
      the reporter is looked up where the route reads one of its fields;
    - the routes are total functions from the request, the clock, the
      ObjectId a new document would get, and the store, to the response
      and the new store. *)

From Stdlib Require Import ZArith NArith List String Ascii Bool Lia Floats Permutation
  Sorted.
Import ListNotations.

Set Warnings "-register-all".

Open Scope bool_scope.
Open Scope string_scope.
Open Scope Z_scope.

Definition ObjectId := N.
Definition Date := Z.

(** ** JavaScript values and built-ins *)

Module JS.

(** A value as produced by [request.json()], extended with [Undefined]
    for an absent property. *)
Inductive value :=
| Undefined
| Null
| Bool (b : bool)
| Num (f : float)
| Str (s : string)
| Arr (l : list value)
| Obj (fields : list (string * value)).

(** ToBoolean. *)
Definition truthy (v : value) : bool :=
  match v with
  | Undefined | Null => false
  | Bool b => b
  | Num f => negb (PrimFloat.eqb f 0%float) && PrimFloat.eqb f f
  | Str s => negb (String.eqb s "")
  | Arr _ | Obj _ => true
  end.

Fixpoint assoc (k : string) (fields : list (string * value)) : value :=
  match fields with
  | [] => Undefined
  | (k', v) :: rest => if String.eqb k k' then v else assoc k rest
  end.

(** [v.k] for a value [v] that is neither null nor undefined; only
    plain objects carry the properties the routes read. *)
Definition prop (v : value) (k : string) : value :=
  match v with
  | Obj fields => assoc k fields
  | _ => Undefined
  end.

(** [const { a, b } = v] throws on null and undefined only. *)
Definition destructurable (v : value) : bool :=
  match v with
  | Undefined | Null => false
  | _ => true
  end.

(** *** Strings

    The white space that [trim] and [parseInt] strip: TAB, LF, VT, FF,
    CR, SP, and outside ASCII U+00A0, U+1680, U+2000 to U+200A, U+2028,
    U+2029, U+202F, U+205F, U+3000 and U+FEFF. *)
Definition isWhiteSpace (c : ascii) : bool :=
  let n := nat_of_ascii c in
  ((9 <=? n) && (n <=? 13))%nat || (n =? 32)%nat.

(** U+00A0 is C2 A0. *)
Definition isWhiteSpace2 (c1 c2 : ascii) : bool :=
  ((nat_of_ascii c1 =? 194) && (nat_of_ascii c2 =? 160))%nat.

(** U+1680 is E1 9A 80; U+2000 to U+200A are E2 80 80 to E2 80 8A;
    U+2028 and U+2029 are E2 80 A8 and E2 80 A9; U+202F is E2 80 AF;
    U+205F is E2 81 9F; U+3000 is E3 80 80; U+FEFF is EF BB BF. *)
Definition isWhiteSpace3 (c1 c2 c3 : ascii) : bool :=
  let a := nat_of_ascii c1 in
  let b := nat_of_ascii c2 in
  let c := nat_of_ascii c3 in
  ((a =? 225) && (b =? 154) && (c =? 128) ||
   (a =? 226) && (b =? 128) &&
     ((128 <=? c) && (c <=? 138) || (c =? 168) || (c =? 169) || (c =? 175)) ||
   (a =? 226) && (b =? 129) && (c =? 159) ||
   (a =? 227) && (b =? 128) && (c =? 128) ||
   (a =? 239) && (b =? 187) && (c =? 191))%nat.

(** String.prototype.trimStart *)
Fixpoint trimStart (s : string) : string :=
  match s with
  | EmptyString => EmptyString
  | String c1 rest1 =>
      if isWhiteSpace c1 then trimStart rest1
      else
        match rest1 with
        | EmptyString => s
        | String c2 rest2 =>
            if isWhiteSpace2 c1 c2 then trimStart rest2
            else
              match rest2 with
              | EmptyString => s
              | String c3 rest3 =>
                  if isWhiteSpace3 c1 c2 c3 then trimStart rest3 else s
              end
        end
  end.

(** Nothing but white space. *)
Definition blank (s : string) : bool :=
  match trimStart s with
  | EmptyString => true
  | String _ _ => false
  end.

(** String.prototype.trimEnd: the text up to the point from which only
    white space follows.  No continuation byte of an encoded character
    starts a white space character, so the cut never falls inside a
    character. *)
Fixpoint trimEnd (s : string) : string :=
  match s with
  | EmptyString => EmptyString
  | String c rest => if blank s then EmptyString else String c (trimEnd rest)
  end.

(** String.prototype.trim *)
Definition trim (s : string) : string := trimEnd (trimStart s).

(** The UTF-16 code units of one byte of an encoded character: one for
    an ASCII byte and for the first byte of a character of two or three
    bytes, two (a surrogate pair) for the first byte of a character of
    four bytes, none for a continuation byte. *)
Definition unitsOfByte (c : ascii) : nat :=
  let n := nat_of_ascii c in
  if (n <? 128)%nat then 1%nat
  else if (n <? 192)%nat then 0%nat
  else if (n <? 240)%nat then 1%nat
  else 2%nat.

(** [s.length] *)
Fixpoint length (s : string) : nat :=
  match s with
  | EmptyString => 0%nat
  | String c rest => (unitsOfByte c + length rest)%nat
  end.

(** A line terminator at the head of [s]: LF, CR, U+2028 or U+2029. *)
Definition startsWithLineTerminator (s : string) : bool :=
  match s with
  | String c1 rest1 =>
      ((nat_of_ascii c1 =? 10) || (nat_of_ascii c1 =? 13))%nat ||
      match rest1 with
      | String c2 (String c3 _) =>
          ((nat_of_ascii c1 =? 226) && (nat_of_ascii c2 =? 128) &&
           ((nat_of_ascii c3 =? 168) || (nat_of_ascii c3 =? 169)))%nat
      | _ => false
      end
  | EmptyString => false
  end.

Fixpoint hasLineTerminator (s : string) : bool :=
  match s with
  | EmptyString => false
  | String c rest => startsWithLineTerminator s || hasLineTerminator rest
  end.

Fixpoint rev_append (s acc : string) : string :=
  match s with
  | EmptyString => acc
  | String c rest => rev_append rest (String c acc)
  end.

Definition rev (s : string) : string := rev_append s EmptyString.

Definition toLowerChar (c : ascii) : ascii :=
  let n := nat_of_ascii c in
  if ((65 <=? n) && (n <=? 90))%nat then ascii_of_nat (n + 32) else c.

Fixpoint toLowerCase (s : string) : string :=
  match s with
  | EmptyString => EmptyString
  | String c rest => String (toLowerChar c) (toLowerCase rest)
  end.

Definition endsWith (s suffix : string) : bool :=
  String.prefix (rev suffix) (rev s).

Definition digitValue (radix : Z) (c : ascii) : option Z :=
  let n := Z.of_nat (nat_of_ascii c) in
  let d := if (48 <=? n) && (n <=? 57) then Some (n - 48)
           else if (97 <=? n) && (n <=? 122) then Some (n - 87)
           else if (65 <=? n) && (n <=? 90) then Some (n - 55)
           else None in
  match d with
  | Some k => if k <? radix then Some k else None
  | None => None
  end.

(** The longest prefix of digits of [s], accumulated in [radix];
    [None] when [s] does not start with a digit. *)
Fixpoint digits (radix : Z) (s : string) (acc : option Z) : option Z :=
  match s with
  | EmptyString => acc
  | String c rest =>
      match digitValue radix c with
      | Some d =>
          digits radix rest
            (Some (match acc with Some a => a * radix + d | None => d end))
      | None => acc
      end
  end.

(** The Number value of the integer [z]: [z] itself up to 2^53, else
    the nearest multiple of the spacing 2^e of the binary64 numbers
    around [z], a tie going to the even multiple; at 2^1024 and beyond
    the result is an infinity, held as 2^1024 with the sign of [z]. *)
Definition nearest (z : Z) : Z :=
  let a := Z.abs z in
  if a <? 2 ^ 53 then z
  else
    let e := Z.log2 a - 52 in
    let q := a / 2 ^ e in
    let r := a mod 2 ^ e in
    let half := 2 ^ (e - 1) in
    let q' := if (half <? r) || ((r =? half) && Z.odd q) then q + 1 else q in
    let m := q' * 2 ^ e in
    Z.sgn z * (if 2 ^ 1024 <=? m then 2 ^ 1024 else m).

(** [parseInt(s)] with no radix argument; [None] is NaN. *)
Definition parseInt (s : string) : option Z :=
  let s1 := trimStart s in
  let '(neg, s2) :=
    match s1 with
    | String "-" rest => (true, rest)
    | String "+" rest => (false, rest)
    | _ => (false, s1)
    end in
  let '(radix, s3) :=
    match s2 with
    | String "0" (String "x" rest) => (16, rest)
    | String "0" (String "X" rest) => (16, rest)
    | _ => (10, s2)
    end in
  match digits radix s3 None with
  | Some n => Some (nearest (if neg then - n else n))
  | None => None
  end.

(** Relational operators on a number that may be NaN: every comparison
    with NaN is false. *)
Definition lt (a : option Z) (b : Z) : bool :=
  match a with Some x => x <? b | None => false end.

Definition gt (a : option Z) (b : Z) : bool :=
  match a with Some x => b <? x | None => false end.

(** ToBoolean of a number that may be NaN. *)
Definition truthyInt (a : option Z) : bool :=
  match a with Some x => negb (x =? 0) | None => false end.

(** The integer [z] as a binary64 number (round to nearest even). *)
Definition ofZ (z : Z) : float := SF2Prim (binary_normalize prec emax z 0 false).

(** [Math.round]: the integer closest to [x], ties towards +infinity;
    NaN and the infinities are returned unchanged, and a negative [x]
    that rounds to zero gives -0. *)
Definition Math_round (x : float) : float :=
  match Prim2SF x with
  | S754_finite s m e =>
      let num := if s then - Z.pos m else Z.pos m in
      let r := if 0 <=? e then num * 2 ^ e
               else (2 * num + 2 ^ (- e)) / 2 ^ (1 - e) in
      if (r =? 0) && s then (-0)%float else ofZ r
  | _ => x
  end.

(** [Math.ceil(n / d)] for an integer [n] and a divisor that may be
    NaN.  Division by zero gives an infinity or NaN, which is [None]
    here as well. *)
Definition Math_ceil_div (n : Z) (d : option Z) : option Z :=
  match d with
  | Some k => if k =? 0 then None else Some (- ((- n) / k))
  | None => None
  end.

End JS.

(** ** Errors thrown inside the route handlers *)

Inductive Error :=
| AuthenticationRequired          (* new Error('Authentication required') *)
| AdminAccessRequired             (* new Error('Admin access required') *)
| TypeError                       (* property access on null, call of a non-function *)
| SyntaxError                     (* request.json() on a malformed body *)
| ValidationError (messages : list string)
| MongoServerError (code : Z).

Definition Result (A : Type) : Type := (Error + A)%type.
Definition Ok {A : Type} (a : A) : Result A := inr a.
Definition Throw {A : Type} (e : Error) : Result A := inl e.

Definition bind {A B : Type} (r : Result A) (k : A -> Result B) : Result B :=
  match r with
  | inl e => inl e
  | inr a => k a
  end.

Notation "'let*' x ':=' r 'in' k" := (bind r (fun x => k))
  (at level 10, x pattern, r at level 100, k at level 200).

(** ** Keys of an aggregation

    A group key is a string, or for a path that may hold null a string
    or null. *)
Class Key (K : Type) := mkKey {
  same : K -> K -> bool;
  same_spec : forall a b : K, reflect (a = b) (same a b)
}.

#[export] Instance stringKey : Key string := mkKey string String.eqb String.eqb_spec.

Definition sameOpt (a b : option string) : bool :=
  match a, b with
  | Some x, Some y => String.eqb x y
  | None, None => true
  | _, _ => false
  end.

#[export] Instance optionKey : Key (option string).
Proof.
  refine (mkKey (option string) sameOpt _).
  intros [x|] [y|]; simpl; try (constructor; congruence).
  destruct (String.eqb_spec x y); constructor; congruence.
Defined.

(** ** Documents *)

Module User.
Record t := mk {
  _id : ObjectId;
  email : string;
  name : string;
  role : string;
  isVerified : bool;
  createdAt : Date
}.
End User.

(** The identity handed over by lib/auth.ts. *)
Record AuthUser := mkAuthUser {
  auth_id : ObjectId;
  auth_email : string;
  auth_name : string;
  auth_role : string;
  auth_isVerified : bool
}.

Record Comment := mkComment {
  comment_text : string;
  comment_author : ObjectId;
  comment_authorName : string;
  comment_createdAt : Date
}.

(** ** models/Issue.ts: the Issue model *)

Module Issue.

Record t := mk {
  _id : ObjectId;
  title : string;
  description : string;
  category : string;
  status : string;
  (** null when the issue was created with priority null *)
  priority : option string;
  coordinates : list float;
  address : string;
  images : list string;
  reportedBy : ObjectId;
  assignedTo : option ObjectId;
  votes : Z;
  votedBy : list ObjectId;
  comments : list Comment;
  createdAt : Date;
  updatedAt : Date;
  resolvedAt : option Date
}.

Definition set_title (x : string) (d : t) : t :=
  mk (_id d) x (description d) (category d) (status d) (priority d)
     (coordinates d) (address d) (images d) (reportedBy d) (assignedTo d)
     (votes d) (votedBy d) (comments d) (createdAt d) (updatedAt d) (resolvedAt d).

Definition set_description (x : string) (d : t) : t :=
  mk (_id d) (title d) x (category d) (status d) (priority d)
     (coordinates d) (address d) (images d) (reportedBy d) (assignedTo d)
     (votes d) (votedBy d) (comments d) (createdAt d) (updatedAt d) (resolvedAt d).

Definition set_category (x : string) (d : t) : t :=
  mk (_id d) (title d) (description d) x (status d) (priority d)
     (coordinates d) (address d) (images d) (reportedBy d) (assignedTo d)
     (votes d) (votedBy d) (comments d) (createdAt d) (updatedAt d) (resolvedAt d).

Definition set_status (x : string) (d : t) : t :=
  mk (_id d) (title d) (description d) (category d) x (priority d)
     (coordinates d) (address d) (images d) (reportedBy d) (assignedTo d)
     (votes d) (votedBy d) (comments d) (createdAt d) (updatedAt d) (resolvedAt d).

Definition set_priority (x : option string) (d : t) : t :=
  mk (_id d) (title d) (description d) (category d) (status d) x
     (coordinates d) (address d) (images d) (reportedBy d) (assignedTo d)
     (votes d) (votedBy d) (comments d) (createdAt d) (updatedAt d) (resolvedAt d).

Definition set_assignedTo (x : option ObjectId) (d : t) : t :=
  mk (_id d) (title d) (description d) (category d) (status d) (priority d)
     (coordinates d) (address d) (images d) (reportedBy d) x
     (votes d) (votedBy d) (comments d) (createdAt d) (updatedAt d) (resolvedAt d).

Definition set_votes (x : Z) (d : t) : t :=
  mk (_id d) (title d) (description d) (category d) (status d) (priority d)
     (coordinates d) (address d) (images d) (reportedBy d) (assignedTo d)
     x (votedBy d) (comments d) (createdAt d) (updatedAt d) (resolvedAt d).

Definition set_votedBy (x : list ObjectId) (d : t) : t :=
  mk (_id d) (title d) (description d) (category d) (status d) (priority d)
     (coordinates d) (address d) (images d) (reportedBy d) (assignedTo d)
     (votes d) x (comments d) (createdAt d) (updatedAt d) (resolvedAt d).

Definition set_comments (x : list Comment) (d : t) : t :=
  mk (_id d) (title d) (description d) (category d) (status d) (priority d)
     (coordinates d) (address d) (images d) (reportedBy d) (assignedTo d)
     (votes d) (votedBy d) x (createdAt d) (updatedAt d) (resolvedAt d).

Definition set_updatedAt (x : Date) (d : t) : t :=
  mk (_id d) (title d) (description d) (category d) (status d) (priority d)
     (coordinates d) (address d) (images d) (reportedBy d) (assignedTo d)
     (votes d) (votedBy d) (comments d) (createdAt d) x (resolvedAt d).

Definition set_resolvedAt (x : option Date) (d : t) : t :=
  mk (_id d) (title d) (description d) (category d) (status d) (priority d)
     (coordinates d) (address d) (images d) (reportedBy d) (assignedTo d)
     (votes d) (votedBy d) (comments d) (createdAt d) (updatedAt d) x.

(** *** Schema validators *)

Definition categoryValues : list string :=
  ["infrastructure"; "sanitation"; "safety"; "environment"; "transportation"; "other"].
Definition statusValues : list string := ["pending"; "in-progress"; "resolved"].
Definition priorityValues : list string := ["low"; "medium"; "high"; "urgent"].

Definition inEnum (values : list string) (s : string) : bool :=
  existsb (String.eqb s) values.

(** [v.length] as the minlength and maxlength validators read it. *)
Definition len (s : string) : Z := Z.of_nat (JS.length s).

(** The validator of [location.coordinates]. *)
Definition coordinatesValidator (coords : list float) : bool :=
  match coords with
  | [lng; lat] =>
      PrimFloat.leb (-180)%float lng && PrimFloat.leb lng 180%float &&
      PrimFloat.leb (-90)%float lat && PrimFloat.leb lat 90%float
  | _ => false
  end.

(** The validator of each element of [images]:
    /^https?:\/\/.+\.(jpg|jpeg|png|webp|gif)$/i
    The flag i folds the ASCII letters only, and [.] matches every code
    unit but the line terminators: between the scheme and the extension
    there is at least one character and no line terminator. *)
Definition imageValidator (url : string) : bool :=
  let u := JS.toLowerCase url in
  existsb (fun scheme =>
    existsb (fun ext =>
      let suffix := "." ++ ext in
      let n := String.length u in
      let a := String.length scheme in
      let b := String.length suffix in
      String.prefix scheme u && JS.endsWith u suffix &&
      (a + b + 1 <=? n)%nat &&
      negb (JS.hasLineTerminator (String.substring a (n - a - b) u)))
    ["jpg"; "jpeg"; "png"; "webp"; "gif"])
  ["http://"; "https://"].

(** The messages of the validators of one path that fail on [d].  The
    enum validator lets null through; of the enumerated paths only
    [priority] can hold it. *)
Definition pathErrors (path : string) (d : t) : list string :=
  if String.eqb path "title" then
    if String.eqb (title d) "" then ["Title is required"]
    else if len (title d) <? 5 then ["Title must be at least 5 characters long"]
    else if 100 <? len (title d) then ["Title cannot exceed 100 characters"]
    else []
  else if String.eqb path "description" then
    if String.eqb (description d) "" then ["Description is required"]
    else if len (description d) <? 10 then ["Description must be at least 10 characters long"]
    else if 1000 <? len (description d) then ["Description cannot exceed 1000 characters"]
    else []
  else if String.eqb path "category" then
    if String.eqb (category d) "" then ["Category is required"]
    else if inEnum categoryValues (category d) then []
    else ["Category must be one of: infrastructure, sanitation, safety, environment, transportation, other"]
  else if String.eqb path "status" then
    if inEnum statusValues (status d) then [] else ["invalid enum value for path status"]
  else if String.eqb path "priority" then
    match priority d with
    | None => []
    | Some p =>
        if inEnum priorityValues p then [] else ["invalid enum value for path priority"]
    end
  else if String.eqb path "location.coordinates" then
    if coordinatesValidator (coordinates d) then []
    else ["Invalid coordinates. Longitude must be between -180 and 180, latitude between -90 and 90"]
  else if String.eqb path "address" then
    if String.eqb (address d) "" then ["Address is required"]
    else if 200 <? len (address d) then ["Address cannot exceed 200 characters"]
    else []
  else if String.eqb path "images" then
    if forallb imageValidator (images d) then [] else ["Invalid image URL format"]
  else if String.eqb path "votes" then
    if votes d <? 0 then ["Votes cannot be negative"] else []
  else [].

Definition validate (paths : list string) (d : t) : list string :=
  flat_map (fun p => pathErrors p d) paths.

Definition allPaths : list string :=
  ["title"; "description"; "category"; "status"; "priority";
   "location.coordinates"; "address"; "images"; "votes"].

(** *** Pre-save middleware: set resolvedAt when status changes *)

Definition preSave (statusModified : bool) (now : Date) (d : t) : t :=
  if statusModified then
    if String.eqb (status d) "resolved" &&
       negb (match resolvedAt d with Some _ => true | None => false end)
    then set_resolvedAt (Some now) d
    else if negb (String.eqb (status d) "resolved")
    then set_resolvedAt None d
    else d
  else d.

(** *** Instance methods *)

Definition includes (userId : ObjectId) (l : list ObjectId) : bool :=
  existsb (N.eqb userId) l.

Definition addVote (userId : ObjectId) (d : t) : bool * t :=
  if negb (includes userId (votedBy d)) then
    (true, set_votes (votes d + 1) (set_votedBy (votedBy d ++ [userId]) d))
  else (false, d).

(** [splice(index, 1)] at the first index of [userId]. *)
Fixpoint removeFirst (userId : ObjectId) (l : list ObjectId) : list ObjectId :=
  match l with
  | [] => []
  | x :: rest => if N.eqb x userId then rest else x :: removeFirst userId rest
  end.

Definition removeVote (userId : ObjectId) (d : t) : bool * t :=
  if includes userId (votedBy d) then
    (true, set_votes (votes d - 1) (set_votedBy (removeFirst userId (votedBy d)) d))
  else (false, d).

Definition addComment (text : string) (authorId : ObjectId) (authorName : string)
    (now : Date) (d : t) : t :=
  set_comments (comments d ++ [mkComment text authorId authorName now]) d.

(** *** Collection primitives *)

Definition findById (id : ObjectId) (coll : list t) : option t :=
  find (fun d => N.eqb (_id d) id) coll.

(** Apply [f] to the first document whose [_id] is [id]. *)
Fixpoint updateOne (id : ObjectId) (f : t -> t) (coll : list t) : list t :=
  match coll with
  | [] => []
  | d :: rest =>
      if N.eqb (_id d) id then f d :: rest else d :: updateOne id f rest
  end.

Fixpoint findByIdAndDelete (id : ObjectId) (coll : list t) : list t :=
  match coll with
  | [] => []
  | d :: rest =>
      if N.eqb (_id d) id then rest else d :: findByIdAndDelete id rest
  end.

(** The array update operators the vote route uses. *)
Inductive ArrayOp :=
| AddToSet (userId : ObjectId)
| Pull (userId : ObjectId).

Definition addToSet (userId : ObjectId) (l : list ObjectId) : list ObjectId :=
  if includes userId l then l else l ++ [userId].

Definition pull (userId : ObjectId) (l : list ObjectId) : list ObjectId :=
  filter (fun x => negb (N.eqb x userId)) l.

Definition applyArrayOp (op : ArrayOp) (l : list ObjectId) : list ObjectId :=
  match op with
  | AddToSet u => addToSet u l
  | Pull u => pull u l
  end.

(** [findByIdAndUpdate(id, { $inc: { votes: inc }, op: { votedBy: u } })];
    update validators are off by default, and the timestamps option
    refreshes [updatedAt]. *)
Definition findByIdAndUpdate (id : ObjectId) (inc : Z) (op : ArrayOp)
    (now : Date) (coll : list t) : list t :=
  updateOne id
    (fun d => set_updatedAt now
                (set_votedBy (applyArrayOp op (votedBy d))
                   (set_votes (votes d + inc) d)))
    coll.

(** *** Queries *)

Record Query := mkQuery {
  q_status : option string;
  q_category : option string;
  q_priority : option string;
  q_reportedBy : option ObjectId;
  q_assignedTo : option ObjectId;
  q_text : option string;
  q_near : option (list float * float)
}.

(** What the server is asked: the query and, for a find, the sort
    ({ field: order }) and the skip and the limit. *)
Record Request := mkRequest {
  r_query : Query;
  r_sort : option (string * Z);
  r_paging : option (Z * Z)
}.

(** What the query engine contributes: ranked text search over the
    text index; the spherical $near test with $maxDistance (metres);
    whether the driver or the server refuses a request (coordinates
    that are NaN or out of range, $text next to $near, a skip that does
    not fit, ...); and the order in which it hands over the documents
    that tie under the sort, as the transpositions of neighbours it
    applies to the matches of a request: the order of ties is the
    engine's, and may differ from one request to the next. *)
Record Engine := mkEngine {
  textSearch : string -> t -> bool;
  near : list float -> float -> t -> bool;
  refuses : Request -> bool;
  ties : Request -> list t -> list nat
}.

Definition emptyQuery : Query := mkQuery None None None None None None None.

Definition matchStr (c : option string) (s : string) : bool :=
  match c with Some x => String.eqb s x | None => true end.

(** All conditions of a query are conjunctive. *)
Definition matches (E : Engine) (q : Query) (d : t) : bool :=
  matchStr (q_status q) (status d) &&
  matchStr (q_category q) (category d) &&
  match priority d with
  | Some p => matchStr (q_priority q) p
  | None => match q_priority q with Some _ => false | None => true end
  end &&
  match q_reportedBy q with Some u => N.eqb (reportedBy d) u | None => true end &&
  match q_assignedTo q with
  | Some u => match assignedTo d with Some a => N.eqb a u | None => false end
  | None => true
  end &&
  match q_text q with Some w => textSearch E w d | None => true end &&
  match q_near q with Some (c, m) => near E c m d | None => true end.

Definition find_ (E : Engine) (q : Query) (coll : list t) : list t :=
  filter (matches E q) coll.

Definition countDocuments (E : Engine) (q : Query) (coll : list t) : Z :=
  Z.of_nat (List.length (filter (matches E q) coll)).

Definition compareOpt (a b : option Z) : comparison :=
  match a, b with
  | None, None => Eq
  | None, Some _ => Lt
  | Some _, None => Gt
  | Some x, Some y => Z.compare x y
  end.

(** null sorts before every string. *)
Definition compareOptStr (a b : option string) : comparison :=
  match a, b with
  | None, None => Eq
  | None, Some _ => Lt
  | Some _, None => Gt
  | Some x, Some y => String.compare x y
  end.

(** The sort order of two documents on one field.  Documents compare
    equal on every other field: their order is then left to the engine,
    as the order of ties is. *)
Definition compareField (field : string) (a b : t) : comparison :=
  if String.eqb field "votes" then Z.compare (votes a) (votes b)
  else if String.eqb field "createdAt" then Z.compare (createdAt a) (createdAt b)
  else if String.eqb field "updatedAt" then Z.compare (updatedAt a) (updatedAt b)
  else if String.eqb field "resolvedAt" then compareOpt (resolvedAt a) (resolvedAt b)
  else if String.eqb field "_id" then N.compare (_id a) (_id b)
  else if String.eqb field "reportedBy" then N.compare (reportedBy a) (reportedBy b)
  else if String.eqb field "title" then String.compare (title a) (title b)
  else if String.eqb field "description" then String.compare (description a) (description b)
  else if String.eqb field "category" then String.compare (category a) (category b)
  else if String.eqb field "status" then String.compare (status a) (status b)
  else if String.eqb field "priority" then compareOptStr (priority a) (priority b)
  else if String.eqb field "address" then String.compare (address a) (address b)
  else Eq.

(** [a] may stay before [b] under [sort({ field: order })]. *)
Definition inOrder (field : string) (order : Z) (a b : t) : bool :=
  match compareField field a b with
  | Eq => true
  | Lt => 0 <? order
  | Gt => order <? 0
  end.

Fixpoint insertSorted (field : string) (order : Z) (x : t) (l : list t) : list t :=
  match l with
  | [] => [x]
  | y :: rest =>
      if inOrder field order x y then x :: l
      else y :: insertSorted field order x rest
  end.

(** A stable sort: ties stay in the order in which [l] has them. *)
Definition sort (field : string) (order : Z) (l : list t) : list t :=
  fold_right (insertSorted field order) [] l.

(** The transposition of the neighbours at [n] and [n + 1]. *)
Fixpoint swapAt {A : Type} (n : nat) (l : list A) : list A :=
  match n, l with
  | O, x :: y :: rest => y :: x :: rest
  | S k, x :: rest => x :: swapAt k rest
  | _, _ => l
  end.

Definition arrange {A : Type} (swaps : list nat) (l : list A) : list A :=
  fold_left (fun acc n => swapAt n acc) swaps l.

(** The server runs a find: the matches in the order of the engine,
    sorted, then skipped and limited.  A negative skip is refused by
    the server; a negative limit is taken in absolute value. *)
Definition exec (E : Engine) (request : Request) (coll : list t) : Result (list t) :=
  if refuses E request then Throw (MongoServerError 2)
  else
    let found := find_ E (r_query request) coll in
    let handed := arrange (ties E request found) found in
    let sorted :=
      match r_sort request with
      | Some (field, order) => sort field order handed
      | None => handed
      end in
    match r_paging request with
    | Some (skip, limit) =>
        if skip <? 0 then Throw (MongoServerError 2)
        else Ok (firstn (Z.to_nat (Z.abs limit)) (skipn (Z.to_nat skip) sorted))
    | None => Ok sorted
    end.

(** The server runs a count. *)
Definition count (E : Engine) (q : Query) (coll : list t) : Result Z :=
  if refuses E (mkRequest q None None) then Throw (MongoServerError 2)
  else Ok (countDocuments E q coll).

Record Filters := mkFilters {
  f_status : option string;
  f_category : option string;
  f_priority : option string;
  f_reportedBy : option ObjectId;
  f_assignedTo : option ObjectId;
  f_search : option string;
  (** coordinates and radius in kilometres *)
  f_location : option (list float * float);
  f_sortBy : option string;
  f_sortOrder : option string;
  (** [None]: undefined or NaN *)
  f_page : option Z;
  f_limit : option Z
}.

(** A string-valued filter is applied when it is truthy. *)
Definition given (c : option string) : option string :=
  match c with
  | Some s => if String.eqb s "" then None else Some s
  | None => None
  end.

Definition truthyFloat (f : float) : bool :=
  negb (PrimFloat.eqb f 0%float) && PrimFloat.eqb f f.

(** The query object that [findWithFilters] assembles. *)
Definition filterQuery (filters : Filters) : Query :=
  mkQuery (given (f_status filters)) (given (f_category filters))
    (given (f_priority filters)) (f_reportedBy filters) (f_assignedTo filters)
    (given (f_search filters))
    match f_location filters with
    | Some (c, radius) =>
        if truthyFloat radius then Some (c, (radius * 1000)%float) else None
    | None => None
    end.

(** The query builder that [findWithFilters] returns: the query, the
    sort, and the skip and the limit when both [page] and [limit] are
    truthy.  The skip is the exact product: binary64 rounds it only
    from 2^53 on, beyond the length of any collection. *)
Definition findRequest (filters : Filters) : Request :=
  let query := filterQuery filters in
  let sorting :=
    match given (f_sortBy filters) with
    | Some field =>
        let sortOrder :=
          match f_sortOrder filters with
          | Some o => if String.eqb o "asc" then 1 else -1
          | None => -1
          end in
        (field, sortOrder)
    | None => ("createdAt", -1)
    end in
  let paging :=
    if JS.truthyInt (f_page filters) && JS.truthyInt (f_limit filters) then
      match f_page filters, f_limit filters with
      | Some page, Some limit =>
          let skip := (page - 1) * limit in
          Some (skip, limit)
      | _, _ => None
      end
    else None in
  mkRequest query (Some sorting) paging.

(** [await Issue.findWithFilters(filters)] *)
Definition findWithFilters (E : Engine) (filters : Filters) (coll : list t)
    : Result (list t) :=
  exec E (findRequest filters) coll.

(** *** Aggregation *)

(** [$group: { _id: key, count: { $sum: 1 } }], groups in order of first
    appearance. *)
Fixpoint bump {K : Type} `{Key K} (k : K) (groups : list (K * Z)) : list (K * Z) :=
  match groups with
  | [] => [(k, 1)]
  | (k', c) :: rest =>
      if same k k' then (k', c + 1) :: rest else (k', c) :: bump k rest
  end.

Definition groupCount {K : Type} `{Key K} (key : t -> K) (coll : list t)
    : list (K * Z) :=
  fold_left (fun groups d => bump (key d) groups) coll [].

Record DashboardStats := mkDashboardStats {
  totalIssues : Z;
  pendingIssues : Z;
  inProgressIssues : Z;
  resolvedIssues : Z
}.

(** The body of the [forEach] over the groups. *)
Definition accumulate (result : DashboardStats) (stat : string * Z) : DashboardStats :=
  let '(key, count) := stat in
  let total := totalIssues result + count in
  if String.eqb key "pending" then
    mkDashboardStats total count (inProgressIssues result) (resolvedIssues result)
  else if String.eqb key "in-progress" then
    mkDashboardStats total (pendingIssues result) count (resolvedIssues result)
  else if String.eqb key "resolved" then
    mkDashboardStats total (pendingIssues result) (inProgressIssues result) count
  else
    mkDashboardStats total (pendingIssues result) (inProgressIssues result)
      (resolvedIssues result).

Definition getDashboardStats (userId : option ObjectId) (coll : list t)
    : DashboardStats :=
  let matched :=
    match userId with
    | Some u => filter (fun d => N.eqb (reportedBy d) u) coll
    | None => coll
    end in
  fold_left accumulate (groupCount status matched) (mkDashboardStats 0 0 0 0).

End Issue.

(** ** The Vote model (second document of models/Issue.ts) *)

Module Vote.

Record t := mk {
  _id : ObjectId;
  userId : ObjectId;
  issueId : ObjectId;
  createdAt : Date
}.

Definition samePair (u i : ObjectId) (v : t) : bool :=
  N.eqb (userId v) u && N.eqb (issueId v) i.

Definition findOne (u i : ObjectId) (coll : list t) : option t :=
  find (samePair u i) coll.

Fixpoint deleteOne (u i : ObjectId) (coll : list t) : list t :=
  match coll with
  | [] => []
  | v :: rest => if samePair u i v then rest else v :: deleteOne u i rest
  end.

(** [create({ userId, issueId })] under the unique compound index
    { userId: 1, issueId: 1 }: a second document for the same pair is
    refused with the duplicate-key error E11000.  The collection is
    returned in both cases. *)
Definition create (newId : ObjectId) (now : Date) (u i : ObjectId) (coll : list t)
    : Result t * list t :=
  if existsb (samePair u i) coll then (Throw (MongoServerError 11000), coll)
  else let v := mk newId u i now in (Ok v, (coll ++ [v])%list).

Inductive Action := added | removed.

(** [toggleVote].  [race] is what concurrent requests did to the
    collection between the initial [findOne] and the write that follows
    it; a request running alone has [race = fun c => c]. *)
Definition toggleVote (race : list t -> list t) (newId : ObjectId) (now : Date)
    (u i : ObjectId) (coll : list t) : Result (Action * option t) * list t :=
  let attempt : Result (Action * option t) * list t :=
    match findOne u i coll with
    | Some existingVote =>
        (Ok (removed, Some existingVote), deleteOne u i (race coll))
    | None =>
        match create newId now u i (race coll) with
        | (inr newVote, coll') => (Ok (added, Some newVote), coll')
        | (inl error, coll') => (Throw error, coll')
        end
    end in
  match attempt with
  | (inr r, coll') => (Ok r, coll')
  | (inl error, coll') =>
      match error with
      | MongoServerError code =>
          if code =? 11000 then
            let existingVote := findOne u i coll' in
            (Ok (removed, existingVote), deleteOne u i coll')
          else (Throw error, coll')
      | _ => (Throw error, coll')
      end
  end.

Definition getIssueVoteCount (i : ObjectId) (coll : list t) : Z :=
  Z.of_nat (List.length (filter (fun v => N.eqb (issueId v) i) coll)).

Definition hasUserVoted (u i : ObjectId) (coll : list t) : bool :=
  existsb (samePair u i) coll.

Record VotingStats := mkVotingStats {
  totalVotes : Z;
  uniqueVoters : Z;
  uniqueIssues : Z
}.

Definition getVotingStats (u : option ObjectId) (coll : list t) : VotingStats :=
  let matched :=
    match u with
    | Some x => filter (fun v => N.eqb (userId v) x) coll
    | None => coll
    end in
  match matched with
  | [] => mkVotingStats 0 0 0
  | _ =>
      mkVotingStats (Z.of_nat (List.length matched))
        (Z.of_nat (List.length (nodup N.eq_dec (map userId matched))))
        (Z.of_nat (List.length (nodup N.eq_dec (map issueId matched))))
  end.

End Vote.

(** ** The database *)

Record Db := mkDb {
  users : list User.t;
  issues : list Issue.t;
  ledger : list Vote.t
}.

Definition emptyDb : Db := mkDb [] [] [].

Definition setIssues (l : list Issue.t) (db : Db) : Db :=
  mkDb (users db) l (ledger db).

Definition setLedger (l : list Vote.t) (db : Db) : Db :=
  mkDb (users db) (issues db) l.

Definition setUsers (l : list User.t) (db : Db) : Db :=
  mkDb l (issues db) (ledger db).

Definition findUser (id : ObjectId) (db : Db) : option User.t :=
  find (fun u => N.eqb (User._id u) id) (users db).

(** ** lib/auth.ts *)

(** [token] is the [userId] of the payload of a token that verifies, or
    [None] when the request carries no such token. *)
Definition getCurrentUser (token : option ObjectId) (db : Db) : option AuthUser :=
  match token with
  | None => None
  | Some userId =>
      match findUser userId db with
      | Some user =>
          if User.isVerified user then
            Some (mkAuthUser (User._id user) (User.email user) (User.name user)
                    (User.role user) (User.isVerified user))
          else None
      | None => None
      end
  end.

Definition requireAuth (token : option ObjectId) (db : Db) : Result AuthUser :=
  match getCurrentUser token db with
  | Some user => Ok user
  | None => Throw AuthenticationRequired
  end.

Definition requireAdmin (token : option ObjectId) (db : Db) : Result AuthUser :=
  let* user := requireAuth token db in
  if String.eqb (auth_role user) "admin" then Ok user
  else Throw AdminAccessRequired.

(** ** Route responses *)

Record PaginationMeta := mkMeta {
  currentPage : option Z;
  totalPages : option Z;
  totalItems : Z;
  itemsPerPage : option Z;
  hasNextPage : bool;
  hasPrevPage : bool
}.

Record AdminStats := mkAdminStats {
  issueStats : Issue.DashboardStats;
  totalUsers : Z;
  totalAdmins : Z;
  newUsersThisMonth : Z;
  totalVotes : Z;
  uniqueVoters : Z;
  recentIssues : Z;
  recentVotes : Z;
  resolutionRate : float;
  avgResolutionDays : float;
  issuesByCategory : list (string * Z);
  issuesByPriority : list (option string * Z)
}.

Inductive Data :=
| NoData
| IssueData (issue : Issue.t)
| VoteData (issueId : ObjectId) (votes : Z) (hasVoted : bool) (issue : Issue.t)
| VoteStatus (issueId : ObjectId) (hasVoted : bool) (votes : Z)
| PageData (data : list Issue.t) (meta : PaginationMeta)
| StatsData (stats : AdminStats).

(** The envelope { success, message, data } with its HTTP status. *)
Record Response := mkResponse {
  httpStatus : Z;
  success : bool;
  message : string;
  data : Data
}.

Definition failure (code : Z) (msg : string) : Response :=
  mkResponse code false msg NoData.

(** The notification handed to the mail transport. *)
Record StatusEmail := mkStatusEmail {
  recipientEmail : string;
  recipientName : string;
  issueTitle : string;
  oldStatus : string;
  newStatus : string;
  emailIssueId : ObjectId
}.

(** ** The vote route: /api/issues/[id]/vote *)

Module VoteRoute.

Definition onError (error : Error) : Response :=
  match error with
  | AuthenticationRequired => failure 401 "Authentication required"
  | _ => failure 500 "Failed to toggle vote"
  end.

(** POST: toggle the vote of the caller on issue [id].  [newId] is the
    ObjectId a new vote document would receive. *)
Definition POST (race : list Vote.t -> list Vote.t) (token : option ObjectId)
    (id : option ObjectId) (newId : ObjectId) (now : Date) (db : Db)
    : Response * Db :=
  let run : Result Response * Db :=
    match requireAuth token db with
    | inl error => (Throw error, db)
    | inr user =>
        match id with
        | None => (Ok (failure 400 "Invalid issue ID"), db)
        | Some id =>
            match Issue.findById id (issues db) with
            | None => (Ok (failure 404 "Issue not found"), db)
            | Some _ =>
                match Vote.toggleVote race newId now (auth_id user) id (ledger db) with
                | (inl error, votes') => (Throw error, setLedger votes' db)
                | (inr (action, _), votes') =>
                    let db1 := setLedger votes' db in
                    let db2 :=
                      match action with
                      | Vote.added =>
                          setIssues
                            (Issue.findByIdAndUpdate id 1
                               (Issue.AddToSet (auth_id user)) now (issues db1)) db1
                      | Vote.removed =>
                          setIssues
                            (Issue.findByIdAndUpdate id (-1)
                               (Issue.Pull (auth_id user)) now (issues db1)) db1
                      end in
                    match Issue.findById id (issues db2) with
                    | None => (Throw TypeError, db2)
                    | Some updatedIssue =>
                        let hasVoted :=
                          Issue.includes (auth_id user) (Issue.votedBy updatedIssue) in
                        (Ok (mkResponse 200 true
                               (if hasVoted then "Vote added successfully"
                                else "Vote removed successfully")
                               (VoteData id (Issue.votes updatedIssue) hasVoted
                                  updatedIssue)),
                         db2)
                    end
                end
            end
        end
    end in
  match run with
  | (inr response, db') => (response, db')
  | (inl error, db') => (onError error, db')
  end.

(** GET: has the caller voted? *)
Definition GET (token : option ObjectId) (id : option ObjectId) (db : Db)
    : Response :=
  match requireAuth token db with
  | inl AuthenticationRequired => failure 401 "Authentication required"
  | inl _ => failure 500 "Failed to get vote status"
  | inr user =>
      match id with
      | None => failure 400 "Invalid issue ID"
      | Some id =>
          match Issue.findById id (issues db) with
          | None => failure 404 "Issue not found"
          | Some issue =>
              mkResponse 200 true "Vote status retrieved successfully"
                (VoteStatus id (Vote.hasUserVoted (auth_id user) id (ledger db))
                   (Issue.votes issue))
          end
      end
  end.

End VoteRoute.

(** ** The single-issue route: /api/issues/[id] *)

Module IssueRoute.

Definition GET (id : option ObjectId) (db : Db) : Response :=
  match id with
  | None => failure 400 "Invalid issue ID"
  | Some id =>
      match Issue.findById id (issues db) with
      | None => failure 404 "Issue not found"
      | Some issue => mkResponse 200 true "Issue retrieved successfully" (IssueData issue)
      end
  end.

Definition hexValue (c : ascii) : option N :=
  match JS.digitValue 16 c with
  | Some d => Some (Z.to_N d)
  | None => None
  end.

Fixpoint hexDigits (s : string) (acc : N) : option N :=
  match s with
  | EmptyString => Some acc
  | String c rest =>
      match hexValue c with
      | Some d => hexDigits rest (acc * 16 + d)%N
      | None => None
      end
  end.

(** [v.toString()] where it can be the 24 hexadecimal digits of an
    ObjectId: a string is itself, and an array of one element prints as
    its element.  The decimal form of a number (at most 21 digits
    without an exponent), true, false, [object Object] and the join of
    several elements with commas are never 24 hexadecimal digits. *)
Fixpoint idString (v : JS.value) : option string :=
  match v with
  | JS.Str s => Some s
  | JS.Arr [e] => idString e
  | _ => None
  end.

(** [new ObjectId(s)] on a string: 24 hexadecimal digits. *)
Definition hex24 (s : option string) : option ObjectId :=
  match s with
  | Some s => if (String.length s =? 24)%nat then hexDigits s 0%N else None
  | None => None
  end.

(** The cast of a value that is neither null nor undefined to an
    ObjectId path: the ObjectId of [v._id.toString()] when [v._id] is
    truthy, of [v.toString()] otherwise; [None] is a cast error. *)
Definition castObjectId (v : JS.value) : option ObjectId :=
  match v with
  | JS.Obj fields =>
      let id := JS.assoc "_id" fields in
      if JS.truthy id then hex24 (idString id) else None
  | _ => hex24 (idString v)
  end.

(** The cast of a value assigned to a String path with an enum
    validator, or to an element of [images]: null and undefined stay;
    a string is itself; an object with a truthy string [_id] is that
    string; a number or a boolean is cast to its decimal or literal
    form, which is in no enumeration of the schema and is no image URL;
    an array or any other object is a cast error.  On the left is the
    message with which saving the document then fails. *)
Definition castEnum (path : string) (v : JS.value) : string + option string :=
  match v with
  | JS.Undefined | JS.Null => inr None
  | JS.Str s => inr (Some s)
  | JS.Obj fields =>
      match JS.assoc "_id" fields with
      | JS.Str s =>
          if String.eqb s "" then inl ("Cast to string failed for path " ++ path)
          else inr (Some s)
      | _ => inl ("Cast to string failed for path " ++ path)
      end
  | JS.Arr _ => inl ("Cast to string failed for path " ++ path)
  | JS.Num _ | JS.Bool _ => inl ("invalid enum value for path " ++ path)
  end.

(** [v.trim()] *)
Definition callTrim (v : JS.value) : Result string :=
  match v with
  | JS.Str s => Ok (JS.trim s)
  | _ => Throw TypeError
  end.

Definition eqOptId (a b : option ObjectId) : bool :=
  match a, b with
  | Some x, Some y => N.eqb x y
  | None, None => true
  | _, _ => false
  end.

(** [isModified(path)] for the paths the route may assign. *)
Definition isModified (path : string) (stored doc : Issue.t) : bool :=
  if String.eqb path "title" then negb (String.eqb (Issue.title stored) (Issue.title doc))
  else if String.eqb path "description" then
    negb (String.eqb (Issue.description stored) (Issue.description doc))
  else if String.eqb path "category" then
    negb (String.eqb (Issue.category stored) (Issue.category doc))
  else if String.eqb path "priority" then
    negb (sameOpt (Issue.priority stored) (Issue.priority doc))
  else if String.eqb path "status" then
    negb (String.eqb (Issue.status stored) (Issue.status doc))
  else if String.eqb path "assignedTo" then
    negb (eqOptId (Issue.assignedTo stored) (Issue.assignedTo doc))
  else false.

Definition assignablePaths : list string :=
  ["title"; "description"; "category"; "priority"; "status"; "assignedTo"].

Definition requiredPaths : list string :=
  ["title"; "description"; "category"; "location.coordinates"; "address"].

(** [issue.save()] on a document loaded as [stored] and edited into
    [doc]: validation of the required and the modified paths, the
    pre-save middleware, the [updatedAt] timestamp, and the write. *)
Definition save (castErrors : list string) (now : Date) (stored doc : Issue.t)
    (coll : list Issue.t) : Result (Issue.t * list Issue.t) :=
  let modified := filter (fun p => isModified p stored doc) assignablePaths in
  let errors :=
    (castErrors ++ Issue.validate (requiredPaths ++ modified) doc)%list in
  match errors with
  | _ :: _ => Throw (ValidationError errors)
  | [] =>
      let hooked := Issue.preSave (isModified "status" stored doc) now doc in
      let written :=
        match modified with
        | [] => hooked
        | _ => Issue.set_updatedAt now hooked
        end in
      Ok (written, Issue.updateOne (Issue._id stored) (fun _ => written) coll)
  end.

(** [if (go) issue.path = v.trim()] *)
Definition assignTrimmed (set : string -> Issue.t -> Issue.t) (go : bool)
    (v : JS.value) (d : Issue.t) : Result Issue.t :=
  if go then let* t := callTrim v in Ok (set (JS.trim t) d) else Ok d.

(** [if (go) issue.path = v] on an enumerated path; a failed cast is
    kept for the validation that [save] runs.  [go] asks for a truthy
    [v], so that the cast is never null here. *)
Definition assignEnum (path : string) (set : string -> Issue.t -> Issue.t)
    (go : bool) (v : JS.value) (acc : Issue.t * list string)
    : Issue.t * list string :=
  if go then
    match castEnum path v with
    | inr (Some s) => (set s (fst acc), snd acc)
    | inr None => acc
    | inl e => (fst acc, (snd acc ++ [e])%list)
    end
  else acc.

(** [if (assignedTo !== undefined && isAdmin)
      issue.assignedTo = assignedTo || undefined] *)
Definition assignAssignee (isAdmin : bool) (v : JS.value)
    (acc : Issue.t * list string) : Issue.t * list string :=
  match v with
  | JS.Undefined => acc
  | _ =>
      if isAdmin then
        if JS.truthy v then
          match castObjectId v with
          | Some a => (Issue.set_assignedTo (Some a) (fst acc), snd acc)
          | None =>
              (fst acc,
               (snd acc ++ ["Cast to ObjectId failed for path assignedTo"])%list)
          end
        else (Issue.set_assignedTo None (fst acc), snd acc)
      else acc
  end.

(** "Update allowed fields": the edited document and the cast errors. *)
Definition updateAllowedFields (isOwner isAdmin : bool) (body : JS.value)
    (issue : Issue.t) : Result (Issue.t * list string) :=
  let title := JS.prop body "title" in
  let description := JS.prop body "description" in
  let category := JS.prop body "category" in
  let priority := JS.prop body "priority" in
  let status := JS.prop body "status" in
  let assignedTo := JS.prop body "assignedTo" in
  let* d1 :=
    assignTrimmed Issue.set_title (JS.truthy title && (isOwner || isAdmin))
      title issue in
  let* d2 :=
    assignTrimmed Issue.set_description
      (JS.truthy description && (isOwner || isAdmin)) description d1 in
  Ok (assignAssignee isAdmin assignedTo
        (assignEnum "status" Issue.set_status (JS.truthy status && isAdmin) status
           (assignEnum "priority" (fun s => Issue.set_priority (Some s))
              (JS.truthy priority && (isOwner || isAdmin)) priority
              (assignEnum "category" Issue.set_category
                 (JS.truthy category && (isOwner || isAdmin)) category
                 (d2, []))))).

(** lib/nodemailer.ts, [sendIssueStatusUpdateEmail]: the template calls
    [newStatus.replace], which is no function unless [newStatus] is a
    string; then nothing reaches the transport. *)
Definition sendIssueStatusUpdateEmail (email name title oldStatus : string)
    (newStatus : JS.value) (issueId : ObjectId) : Result StatusEmail :=
  match newStatus with
  | JS.Str s => Ok (mkStatusEmail email name title oldStatus s issueId)
  | _ => Throw TypeError
  end.

(** [status !== oldStatus] for the status of the payload. *)
Definition differs (status : JS.value) (oldStatus : string) : bool :=
  match status with
  | JS.Str s => negb (String.eqb s oldStatus)
  | _ => true
  end.

(** "Send email notification if status changed"; "Don't fail the
    request if email fails". *)
Definition statusEmails (status : JS.value) (oldStatus : string)
    (reporter : User.t) (saved : Issue.t) : list StatusEmail :=
  if JS.truthy status && differs status oldStatus &&
     negb (String.eqb (User.email reporter) "")
  then
    match sendIssueStatusUpdateEmail (User.email reporter) (User.name reporter)
            (Issue.title saved) oldStatus status (Issue._id saved) with
    | inr sent => [sent]
    | inl emailError => []
    end
  else [].

Definition onPutError (error : Error) : Response :=
  match error with
  | AuthenticationRequired => failure 401 "Authentication required"
  | ValidationError _ => failure 400 "Validation error"
  | _ => failure 500 "Failed to update issue"
  end.

(** PUT: partial update.  [body] is the parsed request body, [None]
    when it is not JSON. *)
Definition PUT (token : option ObjectId) (id : option ObjectId)
    (body : option JS.value) (now : Date) (db : Db)
    : Response * Db * list StatusEmail :=
  let run : Result (Response * Db * list StatusEmail) :=
    let* user := requireAuth token db in
    match id with
    | None => Ok (failure 400 "Invalid issue ID", db, [])
    | Some id =>
        let* body := match body with Some b => Ok b | None => Throw SyntaxError end in
        let* checked := if JS.destructurable body then Ok tt else Throw TypeError in
        let status := JS.prop body "status" in
        let assignedTo := JS.prop body "assignedTo" in
        match Issue.findById id (issues db) with
        | None => Ok (failure 404 "Issue not found", db, [])
        | Some issue =>
            (* populate('reportedBy', 'name email') *)
            let* reporter :=
              match findUser (Issue.reportedBy issue) db with
              | Some u => Ok u
              | None => Throw TypeError
              end in
            let isOwner := N.eqb (User._id reporter) (auth_id user) in
            let isAdmin := String.eqb (auth_role user) "admin" in
            if negb isOwner && negb isAdmin then
              Ok (failure 403 "Permission denied", db, [])
            else if (JS.truthy status || JS.truthy assignedTo) && negb isAdmin then
              Ok (failure 403 "Only admins can change issue status or assignment", db, [])
            else
              let oldStatus := Issue.status issue in
              let* (doc, castErrors) := updateAllowedFields isOwner isAdmin body issue in
              let* (saved, coll) := save castErrors now issue doc (issues db) in
              Ok (mkResponse 200 true "Issue updated successfully" (IssueData saved),
                  setIssues coll db,
                  statusEmails status oldStatus reporter saved)
        end
    end in
  match run with
  | inr r => r
  | inl error => (onPutError error, db, [])
  end.

(** DELETE: by the owner or an administrator.  The votes of the issue
    stay in the ledger. *)
Definition DELETE (token : option ObjectId) (id : option ObjectId) (db : Db)
    : Response * Db :=
  match requireAuth token db with
  | inl AuthenticationRequired => (failure 401 "Authentication required", db)
  | inl _ => (failure 500 "Failed to delete issue", db)
  | inr user =>
      match id with
      | None => (failure 400 "Invalid issue ID", db)
      | Some id =>
          match Issue.findById id (issues db) with
          | None => (failure 404 "Issue not found", db)
          | Some issue =>
              let isOwner := N.eqb (Issue.reportedBy issue) (auth_id user) in
              let isAdmin := String.eqb (auth_role user) "admin" in
              if negb isOwner && negb isAdmin then
                (failure 403 "Permission denied", db)
              else
                (mkResponse 200 true "Issue deleted successfully" NoData,
                 setIssues (Issue.findByIdAndDelete id (issues db)) db)
          end
      end
  end.

End IssueRoute.

(** ** The issue collection route: /api/issues *)

Module IssuesRoute.

(** The query string: [searchParams.get] of each parameter the route
    reads, [None] when the parameter is absent. *)
Record SearchParams := mkSearchParams {
  p_status : option string;
  p_category : option string;
  p_priority : option string;
  p_sortBy : option string;
  p_sortOrder : option string;
  p_page : option string;
  p_limit : option string;
  p_search : option string;
  p_lat : option string;
  p_lng : option string;
  p_radius : option string
}.

(** [x || fallback] on a string that may be null. *)
Definition orElse (x : option string) (fallback : string) : string :=
  match Issue.given x with
  | Some s => s
  | None => fallback
  end.

(** The filters after "Parse query parameters" and "Parse location
    filter"; [parseFloat] is the built-in of that name. *)
Definition parseFilters (parseFloat : string -> float) (q : SearchParams)
    : Issue.Filters :=
  Issue.mkFilters
    (Issue.given (p_status q)) (Issue.given (p_category q))
    (Issue.given (p_priority q)) None None (Issue.given (p_search q))
    match Issue.given (p_lat q), Issue.given (p_lng q), Issue.given (p_radius q) with
    | Some lat, Some lng, Some radius =>
        Some ([parseFloat lng; parseFloat lat], parseFloat radius)
    | _, _, _ => None
    end
    (Some (orElse (p_sortBy q) "createdAt"))
    (Some (orElse (p_sortOrder q) "desc"))
    (JS.parseInt (orElse (p_page q) "1"))
    (JS.parseInt (orElse (p_limit q) "10")).

Definition setPagination (page limit : option Z) (filters : Issue.Filters)
    : Issue.Filters :=
  Issue.mkFilters
    (Issue.f_status filters) (Issue.f_category filters) (Issue.f_priority filters)
    (Issue.f_reportedBy filters) (Issue.f_assignedTo filters)
    (Issue.f_search filters) (Issue.f_location filters)
    (Issue.f_sortBy filters) (Issue.f_sortOrder filters) page limit.

(** "Validate pagination" *)
Definition validatePagination (filters : Issue.Filters) : Issue.Filters :=
  let page :=
    if JS.lt (Issue.f_page filters) 1 then Some 1 else Issue.f_page filters in
  let limit :=
    if JS.lt (Issue.f_limit filters) 1 || JS.gt (Issue.f_limit filters) 50
    then Some 10 else Issue.f_limit filters in
  setPagination page limit filters.

(** "Get total count for pagination": the query of the count. *)
Definition countQuery (filters : Issue.Filters) : Issue.Query :=
  Issue.mkQuery (Issue.given (Issue.f_status filters))
    (Issue.given (Issue.f_category filters))
    (Issue.given (Issue.f_priority filters)) None None
    (Issue.given (Issue.f_search filters)) None.

(** [a < b] on numbers that may be NaN. *)
Definition ltNaN (a b : option Z) : bool :=
  match a, b with
  | Some x, Some y => x <? y
  | _, _ => false
  end.

(** GET: the count, then the page; a request that the driver or the
    server refuses ends in the catch block. *)
Definition GET (E : Issue.Engine) (parseFloat : string -> float)
    (q : SearchParams) (db : Db) : Response :=
  let filters := validatePagination (parseFilters parseFloat q) in
  let run : Result Response :=
    let* totalItems := Issue.count E (countQuery filters) (issues db) in
    let totalPages := JS.Math_ceil_div totalItems (Issue.f_limit filters) in
    let* found := Issue.findWithFilters E filters (issues db) in
    Ok (mkResponse 200 true "Issues retrieved successfully"
          (PageData found
             (mkMeta (Issue.f_page filters) totalPages totalItems
                (Issue.f_limit filters)
                (ltNaN (Issue.f_page filters) totalPages)
                (JS.gt (Issue.f_page filters) 1))))
  in
  match run with
  | inr response => response
  | inl _ => failure 500 "Failed to retrieve issues"
  end.

Definition isNumber (v : JS.value) : bool :=
  match v with JS.Num _ => true | _ => false end.

Definition onPostError (error : Error) : Response :=
  match error with
  | AuthenticationRequired => failure 401 "Authentication required"
  | ValidationError _ => failure 400 "Validation error"
  | _ => failure 500 "Failed to create issue"
  end.

(** The elements of [images], each cast to a string; a null element
    fails the validator of the elements. *)
Fixpoint castImages (l : list JS.value) : list string * list string :=
  match l with
  | [] => ([], [])
  | v :: rest =>
      let '(ok, errs) := castImages rest in
      match IssueRoute.castEnum "images" v with
      | inr (Some s) => (s :: ok, errs)
      | inr None => (ok, "Invalid image URL format" :: errs)
      | inl e => (ok, e :: errs)
      end
  end.

(** [new Issue({ ... })]: the document under construction and the
    cast errors that validation will report.  The route hands over a
    truthy [category]; [priority] may be null, and stays null; for
    [images] the route itself passes
    [Array.isArray(images) ? images : []], so that Mongoose never sees
    a value that is not an array. *)
Definition newIssue (user : AuthUser) (title description category priority
    address images : JS.value) (lng lat : float) (newId : ObjectId) (now : Date)
    : Result (Issue.t * list string) :=
  let* title' := IssueRoute.callTrim title in
  let* description' := IssueRoute.callTrim description in
  let* address' := IssueRoute.callTrim address in
  let category' :=
    match IssueRoute.castEnum "category" category with
    | inr (Some s) => (s, [])
    | inr None => ("", ["Category is required"])
    | inl e => ("", [e])
    end in
  let priority' :=
    match IssueRoute.castEnum "priority" priority with
    | inr p => (p, [])
    | inl e => (None, [e])
    end in
  let images' :=
    match images with
    | JS.Arr l => castImages l
    | _ => ([], [])
    end in
  Ok (Issue.mk newId (JS.trim title') (JS.trim description') (fst category')
        "pending" (fst priority') [lng; lat] (JS.trim address') (fst images')
        (auth_id user) None 0 [] [] now now None,
      (snd category' ++ snd priority' ++ snd images')%list).

(** [issue.save()] on a new document: every path is validated, then the
    pre-save middleware runs with every set path modified. *)
Definition saveNew (castErrors : list string) (now : Date) (doc : Issue.t)
    : Result Issue.t :=
  match (castErrors ++ Issue.validate Issue.allPaths doc)%list with
  | _ :: _ as errors => Throw (ValidationError errors)
  | [] => Ok (Issue.preSave true now doc)
  end.

(** POST: create an issue.  [newId] is the ObjectId the new document
    receives. *)
Definition POST (token : option ObjectId) (body : option JS.value)
    (newId : ObjectId) (now : Date) (db : Db) : Response * Db :=
  let run : Result (Response * Db) :=
    let* user := requireAuth token db in
    let* body := match body with Some b => Ok b | None => Throw SyntaxError end in
    let* checked := if JS.destructurable body then Ok tt else Throw TypeError in
    let title := JS.prop body "title" in
    let description := JS.prop body "description" in
    let category := JS.prop body "category" in
    let priority :=
      match JS.prop body "priority" with
      | JS.Undefined => JS.Str "medium"
      | v => v
      end in
    let location := JS.prop body "location" in
    let address := JS.prop body "address" in
    let images :=
      match JS.prop body "images" with
      | JS.Undefined => JS.Arr []
      | v => v
      end in
    if negb (JS.truthy title) || negb (JS.truthy description) ||
       negb (JS.truthy category) || negb (JS.truthy location) ||
       negb (JS.truthy address)
    then Ok (failure 400
               "Title, description, category, location, and address are required", db)
    else
      match JS.prop location "coordinates" with
      | JS.Arr [JS.Num lng; JS.Num lat] =>
          if PrimFloat.ltb lng (-180)%float || PrimFloat.ltb 180%float lng ||
             PrimFloat.ltb lat (-90)%float || PrimFloat.ltb 90%float lat
          then Ok (failure 400
                     "Invalid coordinates. Longitude must be between -180 and 180, latitude between -90 and 90",
                   db)
          else
            let* (doc, castErrors) :=
              newIssue user title description category priority address images
                lng lat newId now in
            let* saved := saveNew castErrors now doc in
            Ok (mkResponse 201 true "Issue created successfully" (IssueData saved),
                setIssues (issues db ++ [saved]) db)
      | _ =>
          Ok (failure 400
                "Invalid location format. Expected coordinates array [longitude, latitude]",
              db)
      end in
  match run with
  | inr r => r
  | inl error => (onPostError error, db)
  end.

End IssuesRoute.

(** ** The administrator statistics route: /api/admin/stats *)

Module AdminStatsRoute.

(** [$sort: { count: -1 }] over the groups. *)
Fixpoint insertByCount {K : Type} (g : K * Z) (l : list (K * Z)) : list (K * Z) :=
  match l with
  | [] => [g]
  | h :: rest => if snd h <? snd g then g :: l else h :: insertByCount g rest
  end.

Definition sortByCount {K : Type} (l : list (K * Z)) : list (K * Z) :=
  fold_right insertByCount [] l.

Definition count {A : Type} (p : A -> bool) (l : list A) : Z :=
  Z.of_nat (List.length (filter p l)).

(** "Get resolution rate (resolved issues / total issues)" *)
Definition computeResolutionRate (s : Issue.DashboardStats) : float :=
  if 0 <? Issue.totalIssues s then
    JS.Math_round
      (JS.ofZ (Issue.resolvedIssues s) / JS.ofZ (Issue.totalIssues s) * 100)%float
  else 0%float.

(** The resolution times the $match and $project stages let through. *)
Definition resolutionTimes (coll : list Issue.t) : list Z :=
  flat_map (fun d =>
    if String.eqb (Issue.status d) "resolved" then
      match Issue.resolvedAt d with
      | Some r => [r - Issue.createdAt d]
      | None => []
      end
    else []) coll.

Definition computeAvgResolutionDays (coll : list Issue.t) : float :=
  match resolutionTimes coll with
  | [] => 0%float
  | times =>
      let total := fold_left Z.add times 0 in
      let avgTime := (JS.ofZ total / JS.ofZ (Z.of_nat (List.length times)))%float in
      let day := 1000 * 60 * 60 * 24 in
      JS.Math_round (avgTime / JS.ofZ day)%float
  end.

Definition sevenDays : Z := 7 * 24 * 60 * 60 * 1000.

(** GET.  [now] is the time of the request and [monthStart] the first
    instant of its month. *)
Definition GET (token : option ObjectId) (now monthStart : Date) (db : Db)
    : Response :=
  match requireAdmin token db with
  | inl AuthenticationRequired => failure 401 "Authentication required"
  | inl AdminAccessRequired => failure 401 "Admin access required"
  | inl _ => failure 500 "Failed to retrieve admin statistics"
  | inr _ =>
      let issueStats := Issue.getDashboardStats None (issues db) in
      let verified := filter User.isVerified (users db) in
      let votingStats := Vote.getVotingStats None (ledger db) in
      let sevenDaysAgo := now - sevenDays in
      mkResponse 200 true "Admin statistics retrieved successfully"
        (StatsData
           (mkAdminStats issueStats
              (Z.of_nat (List.length verified))
              (count (fun u => String.eqb (User.role u) "admin") verified)
              (count (fun u => monthStart <=? User.createdAt u) verified)
              (Vote.totalVotes votingStats)
              (Vote.uniqueVoters votingStats)
              (count (fun d => sevenDaysAgo <=? Issue.createdAt d) (issues db))
              (count (fun v => sevenDaysAgo <=? Vote.createdAt v) (ledger db))
              (computeResolutionRate issueStats)
              (computeAvgResolutionDays (issues db))
              (sortByCount (Issue.groupCount Issue.category (issues db)))
              (sortByCount (Issue.groupCount Issue.priority (issues db)))))
  end.

End AdminStatsRoute.

(** ** States of the store *)

(** A request that runs alone. *)
Definition alone (coll : list Vote.t) : list Vote.t := coll.

Definition pairOf (v : Vote.t) : ObjectId * ObjectId := (Vote.userId v, Vote.issueId v).

(** The unique index of the ledger holds. *)
Definition uniquePairs (coll : list Vote.t) : Prop := NoDup (map pairOf coll).

(** The counter and the voter array of [d] agree with each other and with
    the ledger. *)
Definition voteCacheOk (coll : list Vote.t) (d : Issue.t) : Prop :=
  Issue.votes d = Z.of_nat (List.length (Issue.votedBy d)) /\
  NoDup (Issue.votedBy d) /\
  forall u, In u (Issue.votedBy d) <-> Vote.hasUserVoted u (Issue._id d) coll = true.

Definition resolvedOk (d : Issue.t) : Prop :=
  Issue.resolvedAt d <> None <-> Issue.status d = "resolved".

Record consistent (db : Db) : Prop := mkConsistent {
  ids_unique : NoDup (map Issue._id (issues db));
  pairs_unique : uniquePairs (ledger db);
  cache_ok : Forall (voteCacheOk (ledger db)) (issues db);
  resolved_ok : Forall resolvedOk (issues db)
}.

(** ObjectIds are never handed out twice: a new issue id is the id of no
    stored issue and of no issue a stored vote refers to. *)
Definition fresh (newId : ObjectId) (db : Db) : Prop :=
  ~ In newId (map Issue._id (issues db)) /\
  ~ In newId (map Vote.issueId (ledger db)).

(** One request served from start to end with no other request in
    between, or a change of the user collection by the authentication
    collaborator.  The toggles that other requests interfere with are
    those of [raced] below. *)
Inductive step : Db -> Db -> Prop :=
| step_create token body newId now db :
    fresh newId db ->
    step db (snd (IssuesRoute.POST token body newId now db))
| step_toggle token id newId now db :
    step db (snd (VoteRoute.POST alone token id newId now db))
| step_update token id body now db :
    step db (snd (fst (IssueRoute.PUT token id body now db)))
| step_delete token id db :
    step db (snd (IssueRoute.DELETE token id db))
| step_users us db :
    step db (setUsers us db).

(** The stores reached by requests served one at a time. *)
Inductive reachable : Db -> Prop :=
| reach_empty : reachable emptyDb
| reach_step db db' : reachable db -> step db db' -> reachable db'.

(** The stores reached when requests may overlap: between the findOne
    of a toggle and the write that follows it, [race] is what the other
    requests did to the ledger. *)
Inductive raced : Db -> Prop :=
| raced_alone db : reachable db -> raced db
| raced_step db db' : raced db -> step db db' -> raced db'
| raced_toggle race token id newId now db :
    raced db -> raced (snd (VoteRoute.POST race token id newId now db)).

(** ** What the routes do to one issue *)

(** The update the vote route applies to the issue. *)
Definition voted (u : ObjectId) (now : Date) (d : Issue.t) : Issue.t :=
  Issue.set_updatedAt now
    (Issue.set_votedBy (Issue.addToSet u (Issue.votedBy d))
       (Issue.set_votes (Issue.votes d + 1) d)).

Definition unvoted (u : ObjectId) (now : Date) (d : Issue.t) : Issue.t :=
  Issue.set_updatedAt now
    (Issue.set_votedBy (Issue.pull u (Issue.votedBy d))
       (Issue.set_votes (Issue.votes d + -1) d)).

(** The store after a toggle that ran alone on an existing issue. *)
Definition afterToggle (u i newId : ObjectId) (now : Date) (db : Db) : Db :=
  match Vote.findOne u i (ledger db) with
  | Some _ =>
      mkDb (users db) (Issue.updateOne i (unvoted u now) (issues db))
        (Vote.deleteOne u i (ledger db))
  | None =>
      mkDb (users db) (Issue.updateOne i (voted u now) (issues db))
        (ledger db ++ [Vote.mk newId u i now])
  end.

Definition toggleResponse (u i : ObjectId) (d' : Issue.t) : Response :=
  mkResponse 200 true
    (if Issue.includes u (Issue.votedBy d') then "Vote added successfully"
     else "Vote removed successfully")
    (VoteData i (Issue.votes d') (Issue.includes u (Issue.votedBy d')) d').

(** [b] carries the system-managed fields of [a]. *)
Definition sameManaged (a b : Issue.t) : Prop :=
  Issue._id b = Issue._id a /\ Issue.votes b = Issue.votes a /\
  Issue.votedBy b = Issue.votedBy a /\ Issue.resolvedAt b = Issue.resolvedAt a.

(** What the pre-save middleware leaves in [resolvedAt] when [stored] is
    saved with status [newStatus] at time [now]. *)
Definition hookResolvedAt (now : Date) (stored : Issue.t) (newStatus : string)
    : option Date :=
  if String.eqb (Issue.status stored) newStatus then Issue.resolvedAt stored
  else if String.eqb newStatus "resolved" then
    match Issue.resolvedAt stored with
    | Some r => Some r
    | None => Some now
    end
  else None.

(** ** Pages and groups *)

(** The field and the direction of the sort that [filters] ask for. *)
Definition sortKey (filters : Issue.Filters) : string * Z :=
  match Issue.given (Issue.f_sortBy filters) with
  | Some field =>
      (field,
       match Issue.f_sortOrder filters with
       | Some o => if String.eqb o "asc" then 1 else -1
       | None => -1
       end)
  | None => ("createdAt", -1)
  end.

(** The documents of [coll] that satisfy the filters. *)
Definition allMatches (E : Issue.Engine) (filters : Issue.Filters)
    (coll : list Issue.t) : list Issue.t :=
  filter (Issue.matches E (Issue.filterQuery filters)) coll.

(** The sorted matches as the engine orders them for the request
    without skip and limit. *)
Definition sortedMatches (E : Issue.Engine) (filters : Issue.Filters)
    (coll : list Issue.t) : list Issue.t :=
  let found := allMatches E filters coll in
  let request :=
    Issue.mkRequest (Issue.filterQuery filters) (Some (sortKey filters)) None in
  Issue.sort (fst (sortKey filters)) (snd (sortKey filters))
    (Issue.arrange (Issue.ties E request found) found).

(** The sorted matches as the engine orders them for the find that
    [filters] ask for. *)
Definition handed (E : Issue.Engine) (filters : Issue.Filters)
    (coll : list Issue.t) : list Issue.t :=
  let found := allMatches E filters coll in
  Issue.sort (fst (sortKey filters)) (snd (sortKey filters))
    (Issue.arrange (Issue.ties E (Issue.findRequest filters) found) found).

(** The engine serves the count and the find of the list route. *)
Definition accepted (E : Issue.Engine) (filters : Issue.Filters) : bool :=
  negb (Issue.refuses E (Issue.mkRequest (IssuesRoute.countQuery filters) None None)) &&
  negb (Issue.refuses E (Issue.findRequest filters)).

(** The page and the limit the route works with. *)
Definition clampPage (page : option Z) : option Z :=
  match page with
  | Some p => Some (Z.max 1 p)
  | None => None
  end.

Definition clampLimit (limit : option Z) : option Z :=
  match limit with
  | Some l => Some (if (1 <=? l) && (l <=? 50) then l else 10)
  | None => None
  end.

(** The count recorded for key [k] in the groups of an aggregation. *)
Definition countOf {K : Type} `{Key K} (k : K) (groups : list (K * Z)) : Z :=
  match find (fun g => same k (fst g)) groups with
  | Some g => snd g
  | None => 0
  end.

Definition sumCounts {K : Type} (groups : list (K * Z)) : Z :=
  fold_right (fun g acc => snd g + acc) 0 groups.

(** round(resolved / total * 100) in exact arithmetic: the integer
    nearest to the percentage, a half going up as in Math.round. *)
Definition roundedPercent (resolved total : Z) : Z :=
  (200 * resolved + total) / (2 * total).

(** The percentage lies exactly halfway between two integers. *)
Definition halfway (resolved total : Z) : bool :=
  (200 * resolved) mod (2 * total) =? total.

(** Two binary64 numbers with the same sign, mantissa and exponent. *)
Definition sameFloat (x y : float) : bool :=
  match Prim2SF x, Prim2SF y with
  | S754_zero a, S754_zero b => Bool.eqb a b
  | S754_infinity a, S754_infinity b => Bool.eqb a b
  | S754_nan, S754_nan => true
  | S754_finite a m e, S754_finite b m' e' =>
      Bool.eqb a b && Pos.eqb m m' && Z.eqb e e'
  | _, _ => false
  end.

(** The rate the route computes from the two counts is the rounded
    percentage, or one less where the percentage lies halfway. *)
Definition pinned (resolved total : Z) : bool :=
  let rate :=
    AdminStatsRoute.computeResolutionRate
      (Issue.mkDashboardStats total 0 0 resolved) in
  if sameFloat rate (JS.ofZ (roundedPercent resolved total)) then true
  else if halfway resolved total
       then sameFloat rate (JS.ofZ (roundedPercent resolved total - 1))
       else false.

(** [pinned] for every store of at most [n] issues. *)
Definition pinnedUpTo (n : nat) : bool :=
  forallb (fun total =>
             forallb (fun resolved => pinned (Z.of_nat resolved) (Z.of_nat total))
               (seq 0 (S total)))
    (seq 1 n).

(** The number of documents whose [key] is [k]. *)
Definition countKey {K : Type} `{Key K} (key : Issue.t -> K) (k : K)
    (coll : list Issue.t) : Z :=
  AdminStatsRoute.count (fun d => same (key d) k) coll.

(** ** Sample data *)

Module Sample.

Definition alice : User.t := User.mk 1%N "alice@example.org" "Alice" "user" true 0.
Definition root : User.t := User.mk 2%N "root@example.org" "Root" "admin" true 0.

Definition aliceAuth : AuthUser :=
  mkAuthUser 1%N "alice@example.org" "Alice" "user" true.
Definition rootAuth : AuthUser :=
  mkAuthUser 2%N "root@example.org" "Root" "admin" true.

Definition coords (lng lat : float) : JS.value :=
  JS.Obj [("coordinates", JS.Arr [JS.Num lng; JS.Num lat])].

Definition report (lng lat : float) : JS.value :=
  JS.Obj [("title", JS.Str "Broken street lamp");
          ("description", JS.Str "The lamp at the corner is broken");
          ("category", JS.Str "infrastructure");
          ("location", coords lng lat);
          ("address", JS.Str "1 Main Street")].

(** Two users, no issue. *)
Definition db0 : Db := setUsers [alice; root] emptyDb.

(** Alice reports issue 100. *)
Definition db1 : Db :=
  snd (IssuesRoute.POST (Some 1%N) (Some (report 10 45)) 100%N 1000 db0).

(** Alice votes for it. *)
Definition db2 : Db :=
  snd (VoteRoute.POST alone (Some 1%N) (Some 100%N) 500%N 2000 db1).

(** A payload that resolves the issue and tries to set the managed
    fields as well. *)
Definition resolving : JS.value :=
  JS.Obj [("status", JS.Str "resolved");
          ("resolvedAt", JS.Num 5%float);
          ("votes", JS.Num 99%float);
          ("votedBy", JS.Arr [])].

(** The administrator resolves the issue. *)
Definition db3 : Db :=
  snd (fst (IssueRoute.PUT (Some 2%N) (Some 100%N) (Some resolving) 4000 db2)).

Definition issueWith (id : ObjectId) (status : string) : Issue.t :=
  Issue.mk id "Broken street lamp" "The lamp at the corner is broken"
    "infrastructure" status (Some "medium") [10%float; 45%float] "1 Main Street" []
    1%N None 0 [] [] 1000 1000
    (if String.eqb status "resolved" then Some 2000 else None).

(** Issue 100 as stored in [db1] and in [db2]. *)
Definition issue1 : Issue.t := issueWith 100%N "pending".
Definition issue2 : Issue.t :=
  Issue.set_updatedAt 2000 (Issue.set_votedBy [1%N] (Issue.set_votes 1 issue1)).

(** Ten issues, six of them resolved and four pending. *)
Definition tenIssues : list Issue.t :=
  [issueWith 1%N "resolved"; issueWith 2%N "pending"; issueWith 3%N "resolved";
   issueWith 4%N "resolved"; issueWith 5%N "pending"; issueWith 6%N "resolved";
   issueWith 7%N "pending"; issueWith 8%N "resolved"; issueWith 9%N "resolved";
   issueWith 10%N "pending"].

(** What the sample engines refuse: a $near whose coordinates are not
    a longitude and a latitude in range (NaN is in no range), whose
    distance is negative, or that stands next to a $text. *)
Definition refuses (request : Issue.Request) : bool :=
  match Issue.q_near (Issue.r_query request) with
  | Some (c, metres) =>
      negb (Issue.coordinatesValidator c) || PrimFloat.ltb metres 0%float ||
      match Issue.q_text (Issue.r_query request) with
      | Some _ => true
      | None => false
      end
  | None => false
  end.

(** An engine instance: every document matches a text search and none
    lies within the distance of a $near condition; ties come in the
    order of insertion. *)
Definition nothingNear : Issue.Engine :=
  Issue.mkEngine (fun _ _ => true) (fun _ _ _ => false) refuses (fun _ _ => []).

(** An engine instance that hands ties over in the order of insertion
    for a first page, and with the first two matches exchanged for the
    pages after it. *)
Definition fickle : Issue.Engine :=
  Issue.mkEngine (fun _ _ => true) (fun _ _ _ => false) refuses
    (fun request _ =>
       match Issue.r_paging request with
       | Some (skip, _) => if 0 <? skip then [0%nat] else []
       | None => []
       end).

(** An engine instance that serves nothing, as a server that cannot be
    reached. *)
Definition down : Issue.Engine :=
  Issue.mkEngine (fun _ _ => true) (fun _ _ _ => false) (fun _ => true)
    (fun _ _ => []).

Definition noParams : IssuesRoute.SearchParams :=
  IssuesRoute.mkSearchParams None None None None None None None None None None None.

(** ?sortBy=_id&sortOrder=asc *)
Definition byId : IssuesRoute.SearchParams :=
  IssuesRoute.mkSearchParams None None None (Some "_id") (Some "asc") None None None
    None None None.

(** ?lat=-40&lng=-100&radius=1 *)
Definition nearParams : IssuesRoute.SearchParams :=
  IssuesRoute.mkSearchParams None None None None None None None None
    (Some "-40") (Some "-100") (Some "1").

(** ?lat=abc&lng=abc&radius=1 *)
Definition badLocation : IssuesRoute.SearchParams :=
  IssuesRoute.mkSearchParams None None None None None None None None
    (Some "abc") (Some "abc") (Some "1").

(** ?limit=abc *)
Definition unparsableLimit : IssuesRoute.SearchParams :=
  IssuesRoute.mkSearchParams None None None None None None (Some "abc")
    None None None None.

(** Sixty pending issues, and a store that holds them. *)
Definition sixtyIssues : list Issue.t :=
  map (fun n => issueWith (N.of_nat n) "pending") (seq 1 60).

Definition crowded : Db := mkDb [alice; root] sixtyIssues [].

(** Forty issues of which the first 23 are resolved, and a store that
    holds them. *)
Definition fortyIssues : list Issue.t :=
  map (fun n => issueWith (N.of_nat n)
                  (if (n <=? 23)%nat then "resolved" else "pending"))
    (seq 1 40).

Definition forty : Db := mkDb [alice; root] fortyIssues [].

(** ?page=0&limit=99 *)
Definition wildParams : IssuesRoute.SearchParams :=
  IssuesRoute.mkSearchParams None None None None None (Some "0") (Some "99")
    None None None None.

(** What a concurrent request of Alice for issue 100 left in the
    ledger. *)
Definition racing (coll : list Vote.t) : list Vote.t :=
  (coll ++ [Vote.mk 900%N 1%N 100%N 1500])%list.

(** A stand-in for the built-in [parseFloat] on the three strings of
    [nearParams]; "abc" is one of the strings that give NaN. *)
Definition parseFloat (s : string) : float :=
  if String.eqb s "-40" then (-40)%float
  else if String.eqb s "-100" then (-100)%float
  else if String.eqb s "1" then 1%float
  else nan.

End Sample.

(** ** lib/auth.ts: the OTP rate limit *)

Module RateLimit.

Record Entry := mkEntry {
  count : Z;
  lastRequest : Date
}.

(** [otpRequestTracker]: a Map from email to entry, as the list of its
    entries in insertion order. *)
Definition Tracker := list (string * Entry).

Fixpoint mapGet (email : string) (t : Tracker) : option Entry :=
  match t with
  | [] => None
  | (k, e) :: rest => if String.eqb k email then Some e else mapGet email rest
  end.

(** [Map.set]: the value of an existing key is replaced in place, a new
    key goes to the end. *)
Fixpoint mapSet (email : string) (e : Entry) (t : Tracker) : Tracker :=
  match t with
  | [] => [(email, e)]
  | (k, e') :: rest =>
      if String.eqb k email then (k, e) :: rest else (k, e') :: mapSet email e rest
  end.

Definition windowMs : Z := 15 * 60 * 1000.
Definition maxRequests : Z := 5.

(** [checkOTPRateLimit(email)] at time [now]: the answer and the tracker
    it leaves. *)
Definition checkOTPRateLimit (email : string) (now : Date) (t : Tracker)
    : bool * Tracker :=
  match mapGet email t with
  | None => (true, mapSet email (mkEntry 1 now) t)
  | Some userRequests =>
      if windowMs <? now - lastRequest userRequests then
        (true, mapSet email (mkEntry 1 now) t)
      else if maxRequests <=? count userRequests then (false, t)
      else (true, mapSet email (mkEntry (count userRequests + 1) now) t)
  end.

(** The body of the [setInterval] sweep at time [now]. *)
Definition cleanup (now : Date) (t : Tracker) : Tracker :=
  filter (fun entry => negb (windowMs <? now - lastRequest (snd entry))) t.

(** What happens to the tracker: a check or a sweep. *)
Inductive Op :=
| Check (email : string) (now : Date)
| Sweep (now : Date).

Definition apply (op : Op) (t : Tracker) : Tracker :=
  match op with
  | Check email now => snd (checkOTPRateLimit email now t)
  | Sweep now => cleanup now t
  end.

Definition run (ops : list Op) (t : Tracker) : Tracker :=
  fold_left (fun acc op => apply op acc) ops t.

(** The answers to one check per time of [times], in order. *)
Fixpoint burst (email : string) (times : list Date) (t : Tracker)
    : list bool * Tracker :=
  match times with
  | [] => ([], t)
  | now :: rest =>
      let '(ok, t1) := checkOTPRateLimit email now t in
      let '(oks, t2) := burst email rest t1 in
      (ok :: oks, t2)
  end.

(** A tracker as the code keeps it: one entry per email, every count
    between 1 and [maxRequests]. *)
Definition sane (t : Tracker) : Prop :=
  NoDup (map fst t) /\
  Forall (fun entry => 1 <= count (snd entry) <= maxRequests) t.

End RateLimit.

(** ** middleware.ts *)

Module Middleware.

Definition protectedRoutes : list string := ["/dashboard"; "/create"; "/profile"].
Definition adminRoutes : list string := ["/dashboard/admin"].
Definition authRoutes : list string := ["/login"; "/signup"].

(** [routes.some(route => pathname.startsWith(route))] *)
Definition someStartsWith (routes : list string) (pathname : string) : bool :=
  existsb (fun route => String.prefix route pathname) routes.

(** The user headers added for API routes. *)
Record UserHeaders := mkUserHeaders {
  x_user_id : ObjectId;
  x_user_email : string;
  x_user_role : string
}.

Inductive Outcome :=
| Redirect (path : string) (redirectParam : option string)
| Next (headers : option UserHeaders).

Definition isSome {A : Type} (o : option A) : bool :=
  match o with Some _ => true | None => false end.

(** [user.role !== 'admin'] for a user that is present. *)
Definition notAdmin (user : option AuthUser) : bool :=
  match user with
  | Some u => negb (String.eqb (auth_role u) "admin")
  | None => false
  end.

Definition middleware (pathname : string) (token : option ObjectId) (db : Db)
    : Outcome :=
  let user := getCurrentUser token db in
  let isProtectedRoute := someStartsWith protectedRoutes pathname in
  let isAdminRoute := someStartsWith adminRoutes pathname in
  let isAuthRoute := someStartsWith authRoutes pathname in
  if isAuthRoute && isSome user then Redirect "/dashboard/user" None
  else if isProtectedRoute && negb (isSome user) then
    Redirect "/login" (Some pathname)
  else if isAdminRoute && (negb (isSome user) || notAdmin user) then
    if negb (isSome user) then Redirect "/login" (Some pathname)
    else Redirect "/dashboard/user" None
  else
    match user with
    | Some u =>
        if String.prefix "/api/" pathname
        then Next (Some (mkUserHeaders (auth_id u) (auth_email u) (auth_role u)))
        else Next None
    | None => Next None
    end.

End Middleware.

(** ** Well-formed issues *)

(** The paths of the schema that carry content, in the order of the
    schema; the counter is the remaining validated path. *)
Definition contentPaths : list string :=
  ["title"; "description"; "category"; "status"; "priority";
   "location.coordinates"; "address"; "images"].


(** ** Fields of an issue by who may change them *)

(** The fields no route assigns after creation. *)
Definition fixedFields (d : Issue.t) :=
  (Issue._id d, Issue.reportedBy d, Issue.coordinates d, Issue.address d,
   Issue.images d, Issue.comments d, Issue.createdAt d).

(** The fields only an administrator's update reaches. *)
Definition adminFields (d : Issue.t) :=
  (Issue.status d, Issue.assignedTo d, Issue.resolvedAt d).


(** ** A third user *)

Module Visitor.

Definition bob : User.t := User.mk 3%N "bob@example.org" "Bob" "user" true 0.

Definition bobAuth : AuthUser := mkAuthUser 3%N "bob@example.org" "Bob" "user" true.

(** The store of [Sample.db2] after Bob has signed up. *)
Definition db : Db := setUsers [Sample.alice; Sample.root; bob] Sample.db2.

Definition retitle : JS.value := JS.Obj [("title", JS.Str "Street lamp is dark")].

End Visitor.

(** The fields the validators of [contentPaths] read. *)
Definition content (d : Issue.t) :=
  (Issue.title d, Issue.description d, Issue.category d, Issue.status d,
   Issue.priority d, Issue.coordinates d, Issue.address d, Issue.images d).

(** No validator of a content path fails on [d]. *)
Definition wellFormed (d : Issue.t) : Prop := Issue.validate contentPaths d = [].

(** ** Pages of the list *)

(** [a] comes strictly before [b] under the sort of [filters]: the two
    do not tie. *)
Definition strictlyOrdered (filters : Issue.Filters) (a b : Issue.t) : Prop :=
  Issue.inOrder (fst (sortKey filters)) (snd (sortKey filters)) b a = false.

(** [a] may stay before [b] in the result for [filters]. *)
Definition ordered (filters : Issue.Filters) (a b : Issue.t) : Prop :=
  Issue.inOrder (fst (sortKey filters)) (snd (sortKey filters)) a b = true.

(** Page [P] of [findWithFilters] with [L] documents to the page;
    nothing when the engine refuses the request. *)
Definition pageAt (E : Issue.Engine) (filters : Issue.Filters) (coll : list Issue.t)
    (L : Z) (P : nat) : list Issue.t :=
  match Issue.findWithFilters E
          (IssuesRoute.setPagination (Some (Z.of_nat P)) (Some L) filters) coll with
  | inr page => page
  | inl _ => []
  end.

(** ?page=abc&limit=5 *)
Definition unparsablePage : IssuesRoute.SearchParams :=
  IssuesRoute.mkSearchParams None None None None None (Some "abc") (Some "5")
    None None None None.
(** * Properties *)

Open Scope list_scope.

(** Reduce the plumbing of [Result] after a case split. *)
Ltac unravel := cbv beta iota delta [bind Ok Throw].

(** ** Voter arrays *)

Lemma includes_In u l : Issue.includes u l = true <-> In u l.
Proof.
  unfold Issue.includes. rewrite existsb_exists. split.
  - intros [x [Hin Heq]]. apply N.eqb_eq in Heq. now subst.
  - intros Hin. exists u. split; [assumption | apply N.eqb_refl].
Qed.

Lemma includes_false u l : Issue.includes u l = false <-> ~ In u l.
Proof.
  rewrite <- includes_In. destruct (Issue.includes u l); split; congruence.
Qed.

Lemma In_pull x u l : In x (Issue.pull u l) <-> x <> u /\ In x l.
Proof.
  unfold Issue.pull. rewrite filter_In, negb_true_iff, N.eqb_neq. tauto.
Qed.

Lemma pull_absent u l : ~ In u l -> Issue.pull u l = l.
Proof.
  induction l as [|x l IH]; simpl; intros Hn; [reflexivity|].
  destruct (N.eqb_spec x u) as [->|Hne]; simpl.
  - exfalso. apply Hn. now left.
  - f_equal. apply IH. intros H. apply Hn. now right.
Qed.


Lemma NoDup_pull u l : NoDup l -> NoDup (Issue.pull u l).
Proof. intros H. now apply NoDup_filter. Qed.

Lemma length_pull u l :
  NoDup l -> In u l -> S (List.length (Issue.pull u l)) = List.length l.
Proof.
  induction l as [|x l IH]; simpl; intros Hnd Hin; [contradiction|].
  inversion Hnd as [|? ? Hx Hl]; subst.
  destruct (N.eqb_spec x u) as [->|Hne]; simpl.
  - now rewrite pull_absent.
  - f_equal. apply IH; [assumption|]. destruct Hin; [contradiction | assumption].
Qed.


Lemma addToSet_absent u l : ~ In u l -> Issue.addToSet u l = l ++ [u].
Proof.
  intros H. unfold Issue.addToSet. apply includes_false in H. now rewrite H.
Qed.

Lemma NoDup_snoc (u : ObjectId) l : NoDup l -> ~ In u l -> NoDup (l ++ [u]).
Proof.
  intros Hnd Hn. apply NoDup_app; [assumption | repeat constructor; simpl; tauto |].
  intros x Hx [<-|[]]. contradiction.
Qed.

(** ** The issue collection *)

Lemma findById_In id coll d :
  Issue.findById id coll = Some d -> In d coll /\ Issue._id d = id.
Proof.
  unfold Issue.findById. intros H. apply find_some in H.
  destruct H as [Hin Heq]. apply N.eqb_eq in Heq. tauto.
Qed.

Lemma findById_None id coll :
  Issue.findById id coll = None <-> ~ In id (map Issue._id coll).
Proof.
  unfold Issue.findById. induction coll as [|d l IH]; simpl; [tauto|].
  destruct (N.eqb_spec (Issue._id d) id) as [E|E].
  - split; [discriminate|]. intros H. exfalso. apply H. now left.
  - rewrite IH. tauto.
Qed.

Lemma updateOne_ids id f coll :
  (forall d, Issue._id d = id -> Issue._id (f d) = id) ->
  map Issue._id (Issue.updateOne id f coll) = map Issue._id coll.
Proof.
  intros Hf. induction coll as [|d l IH]; simpl; [reflexivity|].
  destruct (N.eqb_spec (Issue._id d) id) as [E|E]; simpl.
  - now rewrite (Hf d E), E.
  - now rewrite IH.
Qed.

Lemma findById_updateOne id f coll d :
  Issue._id (f d) = Issue._id d ->
  Issue.findById id coll = Some d ->
  Issue.findById id (Issue.updateOne id f coll) = Some (f d).
Proof.
  unfold Issue.findById. intros Hf.
  induction coll as [|x l IH]; simpl; [discriminate|].
  destruct (N.eqb_spec (Issue._id x) id) as [E|E]; simpl.
  - intros [= ->]. rewrite Hf, E, N.eqb_refl. reflexivity.
  - intros H. apply N.eqb_neq in E. rewrite E. now apply IH.
Qed.

Lemma findById_updateOne_other id j f coll :
  (forall d, Issue._id d = id -> Issue._id (f d) = id) ->
  j <> id ->
  Issue.findById j (Issue.updateOne id f coll) = Issue.findById j coll.
Proof.
  unfold Issue.findById. intros Hf Hne.
  induction coll as [|x l IH]; simpl; [reflexivity|].
  destruct (N.eqb_spec (Issue._id x) id) as [E|E]; simpl.
  - rewrite (Hf x E). apply not_eq_sym in Hne. apply N.eqb_neq in Hne.
    now rewrite Hne, E, Hne.
  - destruct (N.eqb (Issue._id x) j); [reflexivity | assumption].
Qed.

(** With unique ids, an update by id moves every document from [P] to
    [Q] as soon as the updated one lands in [Q] and the others are in
    [Q] already. *)
Lemma Forall_updateOne (P Q : Issue.t -> Prop) id f coll :
  NoDup (map Issue._id coll) ->
  Forall P coll ->
  (forall d, P d -> Issue._id d = id -> Q (f d)) ->
  (forall d, P d -> Issue._id d <> id -> Q d) ->
  Forall Q (Issue.updateOne id f coll).
Proof.
  intros Hnd HP Hhit Hmiss.
  induction coll as [|x l IH]; simpl; [constructor|].
  simpl in Hnd. inversion Hnd as [|? ? Hx Hl]; subst.
  inversion HP as [|? ? Px Pl]; subst.
  destruct (N.eqb_spec (Issue._id x) id) as [E|E].
  - constructor; [now apply Hhit|].
    rewrite Forall_forall in *. intros d Hd. apply Hmiss; [now apply Pl|].
    intros Heq. apply Hx. rewrite E, <- Heq. now apply in_map.
  - constructor; [now apply Hmiss | now apply IH].
Qed.

Lemma findByIdAndDelete_incl id coll d :
  In d (Issue.findByIdAndDelete id coll) -> In d coll.
Proof.
  induction coll as [|x l IH]; simpl; [tauto|].
  destruct (N.eqb (Issue._id x) id); simpl; intuition auto.
Qed.

Lemma findByIdAndDelete_ids id coll :
  NoDup (map Issue._id coll) ->
  NoDup (map Issue._id (Issue.findByIdAndDelete id coll)).
Proof.
  induction coll as [|x l IH]; simpl; intros H; [assumption|].
  inversion H as [|? ? Hx Hl]; subst.
  destruct (N.eqb (Issue._id x) id); simpl; [assumption|].
  constructor; [|now apply IH].
  intros Hin. apply Hx. apply in_map_iff in Hin. destruct Hin as [d [E Hd]].
  apply in_map_iff. exists d. split; [assumption|].
  now apply findByIdAndDelete_incl in Hd.
Qed.

(** ** The ledger *)

Lemma hasUserVoted_In u i coll :
  Vote.hasUserVoted u i coll = true <-> In (u, i) (map pairOf coll).
Proof.
  unfold Vote.hasUserVoted. rewrite existsb_exists, in_map_iff. unfold Vote.samePair, pairOf.
  split; intros [v H]; exists v.
  - destruct H as [Hin H]. apply andb_true_iff in H. destruct H as [H1 H2].
    apply N.eqb_eq in H1, H2. subst. tauto.
  - destruct H as [[= <- <-] Hin]. now rewrite !N.eqb_refl.
Qed.

Lemma findOne_hasUserVoted u i coll :
  Vote.findOne u i coll = None <-> Vote.hasUserVoted u i coll = false.
Proof.
  unfold Vote.findOne, Vote.hasUserVoted.
  induction coll as [|v l IH]; simpl; [tauto|].
  destruct (Vote.samePair u i v); simpl; [split; discriminate | assumption].
Qed.

Lemma samePair_pairOf u i v : Vote.samePair u i v = true <-> pairOf v = (u, i).
Proof.
  unfold Vote.samePair, pairOf. rewrite andb_true_iff, !N.eqb_eq.
  split; [intros [-> ->]; reflexivity | intros [= -> ->]; tauto].
Qed.

Lemma deleteOne_pairs u i coll p :
  uniquePairs coll ->
  (In p (map pairOf (Vote.deleteOne u i coll)) <-> p <> (u, i) /\ In p (map pairOf coll)).
Proof.
  unfold uniquePairs. induction coll as [|v l IH]; simpl; intros Hnd; [tauto|].
  inversion Hnd as [|? ? Hv Hl]; subst.
  destruct (Vote.samePair u i v) eqn:E.
  - apply samePair_pairOf in E. rewrite <- E. split.
    + intros H. split; [|now right]. intros ->. contradiction.
    + intros [Hne [Heq|Hin]]; [congruence | assumption].
  - simpl. rewrite (IH Hl).
    assert (pairOf v <> (u, i)) as Hne.
    { intros H. apply samePair_pairOf in H. congruence. }
    split; [intros [<-|H]; tauto | intros [H1 [H2|H2]]; tauto].
Qed.

Lemma deleteOne_unique u i coll : uniquePairs coll -> uniquePairs (Vote.deleteOne u i coll).
Proof.
  unfold uniquePairs. induction coll as [|v l IH]; simpl; intros Hnd; [assumption|].
  inversion Hnd as [|? ? Hv Hl]; subst.
  destruct (Vote.samePair u i v) eqn:E; [assumption|].
  simpl. constructor; [|now apply IH].
  intros H. apply (deleteOne_pairs u i l _ Hl) in H. tauto.
Qed.

Lemma create_fresh_pair newId now u i coll :
  Vote.hasUserVoted u i coll = false ->
  Vote.create newId now u i coll =
    (Ok (Vote.mk newId u i now), coll ++ [Vote.mk newId u i now]).
Proof. unfold Vote.create, Vote.hasUserVoted. now intros ->. Qed.

Lemma create_duplicate newId now u i coll :
  Vote.hasUserVoted u i coll = true ->
  Vote.create newId now u i coll = (Throw (MongoServerError 11000), coll).
Proof. unfold Vote.create, Vote.hasUserVoted. now intros ->. Qed.

Lemma map_pairOf_snoc coll v : map pairOf (coll ++ [v]) = map pairOf coll ++ [pairOf v].
Proof. now rewrite map_app. Qed.

(** ** The toggle, step by step *)

Lemma toggleVote_alone newId now u i coll :
  Vote.toggleVote alone newId now u i coll =
  match Vote.findOne u i coll with
  | Some v => (Ok (Vote.removed, Some v), Vote.deleteOne u i coll)
  | None =>
      (Ok (Vote.added, Some (Vote.mk newId u i now)), coll ++ [Vote.mk newId u i now])
  end.
Proof.
  unfold Vote.toggleVote, alone. destruct (Vote.findOne u i coll) eqn:E; [reflexivity|].
  apply findOne_hasUserVoted in E. now rewrite (create_fresh_pair _ _ _ _ _ E).
Qed.

Lemma POST_vote_alone token user i d newId now db :
  requireAuth token db = Ok user ->
  Issue.findById i (issues db) = Some d ->
  VoteRoute.POST alone token (Some i) newId now db =
  (toggleResponse (auth_id user) i
     (match Vote.findOne (auth_id user) i (ledger db) with
      | Some _ => unvoted (auth_id user) now d
      | None => voted (auth_id user) now d
      end),
   afterToggle (auth_id user) i newId now db).
Proof.
  intros Hauth Hfind. unfold VoteRoute.POST, afterToggle.
  rewrite Hauth. unfold Ok. rewrite Hfind, toggleVote_alone.
  destruct (Vote.findOne (auth_id user) i (ledger db)) eqn:E; simpl;
    unfold Issue.findByIdAndUpdate; simpl.
  - fold (unvoted (auth_id user) now).
    rewrite (findById_updateOne i (unvoted (auth_id user) now) _ d eq_refl Hfind).
    reflexivity.
  - fold (voted (auth_id user) now).
    rewrite (findById_updateOne i (voted (auth_id user) now) _ d eq_refl Hfind).
    reflexivity.
Qed.

(** The route after a toggle of the ledger that succeeded, whatever the
    concurrent requests did. *)
Lemma POST_vote_outcome race token user i d newId now db action v coll' :
  requireAuth token db = Ok user ->
  Issue.findById i (issues db) = Some d ->
  Vote.toggleVote race newId now (auth_id user) i (ledger db) = (Ok (action, v), coll') ->
  VoteRoute.POST race token (Some i) newId now db =
  (toggleResponse (auth_id user) i
     (match action with
      | Vote.added => voted (auth_id user) now d
      | Vote.removed => unvoted (auth_id user) now d
      end),
   mkDb (users db)
     (Issue.updateOne i
        (match action with
         | Vote.added => voted (auth_id user) now
         | Vote.removed => unvoted (auth_id user) now
         end) (issues db))
     coll').
Proof.
  intros Hauth Hfind Htoggle. unfold VoteRoute.POST.
  rewrite Hauth. unfold Ok at 1. rewrite Hfind, Htoggle. unfold Ok at 1.
  destruct action; simpl; unfold Issue.findByIdAndUpdate;
    (erewrite findById_updateOne; [reflexivity | reflexivity | exact Hfind]).
Qed.

(** Whatever the request, a toggle that ran alone either left the store
    as it was or is the toggle of an authenticated user on an existing
    issue. *)
Lemma POST_vote_cases token id newId now db :
  snd (VoteRoute.POST alone token id newId now db) = db \/
  exists user i d,
    requireAuth token db = Ok user /\ id = Some i /\
    Issue.findById i (issues db) = Some d /\
    snd (VoteRoute.POST alone token id newId now db) =
      afterToggle (auth_id user) i newId now db.
Proof.
  destruct (requireAuth token db) as [e|user] eqn:Hauth.
  - left. unfold VoteRoute.POST. now rewrite Hauth.
  - destruct id as [i|].
    + destruct (Issue.findById i (issues db)) as [d|] eqn:Hfind.
      * right. exists user, i, d. repeat split; try reflexivity; try assumption.
        now rewrite (POST_vote_alone token user i d newId now db Hauth Hfind).
      * left. unfold VoteRoute.POST. now rewrite Hauth, Hfind.
    + left. unfold VoteRoute.POST. now rewrite Hauth.
Qed.

Lemma hasUserVoted_snoc u i coll v :
  Vote.hasUserVoted u i (coll ++ [v]) =
  Vote.hasUserVoted u i coll || Vote.samePair u i v.
Proof.
  unfold Vote.hasUserVoted. rewrite existsb_app. simpl. now rewrite orb_false_r.
Qed.

Lemma hasUserVoted_deleteOne u i x j coll :
  uniquePairs coll ->
  Vote.hasUserVoted x j (Vote.deleteOne u i coll) =
  Vote.hasUserVoted x j coll && negb (N.eqb x u && N.eqb j i).
Proof.
  intros Hu. apply eq_true_iff_eq.
  rewrite andb_true_iff, negb_true_iff, andb_false_iff, !N.eqb_neq.
  rewrite !hasUserVoted_In, (deleteOne_pairs u i coll (x, j) Hu).
  split.
  - intros [Hne Hin]. split; [assumption|].
    destruct (N.eq_dec x u) as [->|]; [right | left; assumption].
    intros ->. now apply Hne.
  - intros [Hin Hne]. split; [|assumption]. intros [= -> ->]. destruct Hne; congruence.
Qed.

Lemma afterToggle_consistent u i d newId now db :
  consistent db ->
  Issue.findById i (issues db) = Some d ->
  consistent (afterToggle u i newId now db).
Proof.
  intros [Hids Hpairs Hcache Hres] Hfind. unfold afterToggle.
  destruct (Vote.findOne u i (ledger db)) as [v|] eqn:E.
  - (* the vote existed and is removed *)
    assert (Vote.hasUserVoted u i (ledger db) = true) as Hv.
    { destruct (Vote.hasUserVoted u i (ledger db)) eqn:F; [reflexivity|].
      apply findOne_hasUserVoted in F. congruence. }
    constructor; simpl.
    + now rewrite updateOne_ids by (intros; assumption).
    + now apply deleteOne_unique.
    + apply (Forall_updateOne (voteCacheOk (ledger db))); try assumption.
      * intros x [Hvotes [Hnd Hmem]] Hid. unfold voteCacheOk, unvoted; simpl.
        assert (In u (Issue.votedBy x)) as Hin by (apply Hmem; now rewrite Hid).
        pose proof (length_pull u _ Hnd Hin) as Hlen.
        split; [lia|]. split; [now apply NoDup_pull|].
        intros y. rewrite In_pull, Hmem, hasUserVoted_deleteOne by assumption.
        rewrite Hid, N.eqb_refl, andb_true_r, andb_true_iff, negb_true_iff, N.eqb_neq.
        tauto.
      * intros x [Hvotes [Hnd Hmem]] Hid. unfold voteCacheOk.
        split; [assumption|]. split; [assumption|].
        intros y. rewrite Hmem, hasUserVoted_deleteOne by assumption.
        apply N.eqb_neq in Hid. rewrite Hid, andb_false_r. simpl.
        now rewrite andb_true_r.
    + apply (Forall_updateOne resolvedOk); try assumption; intros x Hx _; exact Hx.
  - (* no vote yet: one is recorded *)
    pose proof E as Hv. apply findOne_hasUserVoted in Hv.
    constructor; simpl.
    + now rewrite updateOne_ids by (intros; assumption).
    + unfold uniquePairs. rewrite map_pairOf_snoc. apply NoDup_app; try assumption.
      * repeat constructor. simpl. tauto.
      * intros p Hp [<-|[]]. unfold pairOf in Hp. simpl in Hp.
        apply hasUserVoted_In in Hp. congruence.
    + apply (Forall_updateOne (voteCacheOk (ledger db))); try assumption.
      * intros x [Hvotes [Hnd Hmem]] Hid. unfold voteCacheOk, voted; simpl.
        assert (~ In u (Issue.votedBy x)) as Hout.
        { rewrite Hmem, Hid. congruence. }
        rewrite (addToSet_absent _ _ Hout), length_app. simpl.
        split; [lia|]. split; [now apply NoDup_snoc|].
        intros y. rewrite in_app_iff, Hmem, hasUserVoted_snoc, orb_true_iff.
        unfold Vote.samePair. simpl. rewrite Hid, !N.eqb_refl, andb_true_r, N.eqb_eq.
        simpl. intuition auto.
      * intros x [Hvotes [Hnd Hmem]] Hid. unfold voteCacheOk.
        split; [assumption|]. split; [assumption|].
        intros y. rewrite Hmem, hasUserVoted_snoc. unfold Vote.samePair. simpl.
        apply not_eq_sym in Hid. apply N.eqb_neq in Hid.
        now rewrite Hid, andb_false_r, orb_false_r.
    + apply (Forall_updateOne resolvedOk); try assumption; intros x Hx _; exact Hx.
Qed.

(** ** The partial update, step by step *)

Lemma sameManaged_refl a : sameManaged a a.
Proof. repeat split. Qed.

Lemma sameManaged_trans a b c : sameManaged a b -> sameManaged b c -> sameManaged a c.
Proof. unfold sameManaged. intuition congruence. Qed.

Lemma assignTrimmed_managed set go v d d' :
  (forall s x, sameManaged x (set s x)) ->
  IssueRoute.assignTrimmed set go v d = Ok d' -> sameManaged d d'.
Proof.
  intros Hset. unfold IssueRoute.assignTrimmed, IssueRoute.callTrim.
  destruct go; [|intros [= <-]; apply sameManaged_refl].
  destruct v; simpl; try discriminate. intros [= <-]. apply Hset.
Qed.

Lemma assignEnum_managed path set go v acc d :
  (forall s x, sameManaged x (set s x)) ->
  sameManaged d (fst acc) ->
  sameManaged d (fst (IssueRoute.assignEnum path set go v acc)).
Proof.
  intros Hset H. unfold IssueRoute.assignEnum.
  destruct go; [|assumption].
  destruct (IssueRoute.castEnum path v) as [e|[s|]]; simpl; try assumption.
  eapply sameManaged_trans; [exact H | apply Hset].
Qed.

Lemma assignAssignee_managed isAdmin v acc d :
  sameManaged d (fst acc) ->
  sameManaged d (fst (IssueRoute.assignAssignee isAdmin v acc)).
Proof.
  intros H. unfold IssueRoute.assignAssignee.
  destruct v; try assumption; destruct isAdmin; try assumption;
    match goal with
    | |- context [JS.truthy ?x] => destruct (JS.truthy x)
    end;
    try (destruct (IssueRoute.castObjectId _)); simpl; try assumption;
    (eapply sameManaged_trans; [exact H | repeat split]).
Qed.

Lemma updateAllowedFields_managed isOwner isAdmin body issue doc errs :
  IssueRoute.updateAllowedFields isOwner isAdmin body issue = Ok (doc, errs) ->
  sameManaged issue doc.
Proof.
  unfold IssueRoute.updateAllowedFields, bind.
  destruct (IssueRoute.assignTrimmed Issue.set_title _ _ issue) as [e|d1] eqn:E1;
    [discriminate|].
  destruct (IssueRoute.assignTrimmed Issue.set_description _ _ d1) as [e|d2] eqn:E2;
    [discriminate|].
  intros H. apply (f_equal (fun r => match r with inr (x, _) => x | inl _ => issue end)) in H.
  simpl in H. rewrite <- H.
  apply assignAssignee_managed.
  repeat (apply assignEnum_managed; [intros; repeat split|]).
  simpl. eapply sameManaged_trans.
  - eapply assignTrimmed_managed; [|exact E1]. intros; repeat split.
  - eapply assignTrimmed_managed; [|exact E2]. intros; repeat split.
Qed.

Lemma isModified_status stored doc :
  IssueRoute.isModified "status" stored doc =
  negb (String.eqb (Issue.status stored) (Issue.status doc)).
Proof. reflexivity. Qed.

Lemma preSave_resolvedAt now stored doc :
  Issue.resolvedAt doc = Issue.resolvedAt stored ->
  Issue.resolvedAt
    (Issue.preSave (negb (String.eqb (Issue.status stored) (Issue.status doc))) now doc) =
  hookResolvedAt now stored (Issue.status doc).
Proof.
  intros Hr. unfold Issue.preSave, hookResolvedAt.
  destruct (String.eqb (Issue.status stored) (Issue.status doc)); simpl; [assumption|].
  destruct (String.eqb (Issue.status doc) "resolved"); simpl.
  - rewrite Hr. destruct (Issue.resolvedAt stored); simpl; [now rewrite Hr | reflexivity].
  - reflexivity.
Qed.

Lemma preSave_frame m now doc :
  Issue._id (Issue.preSave m now doc) = Issue._id doc /\
  Issue.votes (Issue.preSave m now doc) = Issue.votes doc /\
  Issue.votedBy (Issue.preSave m now doc) = Issue.votedBy doc /\
  Issue.status (Issue.preSave m now doc) = Issue.status doc.
Proof.
  unfold Issue.preSave. destruct m; [|tauto].
  destruct (_ && _); [simpl; tauto|]. destruct (negb _); simpl; tauto.
Qed.

(** What a successful [save] wrote. *)
Lemma save_effect errs now stored doc coll written coll' :
  sameManaged stored doc ->
  IssueRoute.save errs now stored doc coll = Ok (written, coll') ->
  coll' = Issue.updateOne (Issue._id stored) (fun _ => written) coll /\
  Issue._id written = Issue._id stored /\
  Issue.votes written = Issue.votes stored /\
  Issue.votedBy written = Issue.votedBy stored /\
  Issue.status written = Issue.status doc /\
  Issue.resolvedAt written = hookResolvedAt now stored (Issue.status doc).
Proof.
  intros [Hid [Hv [Hb Hr]]]. unfold IssueRoute.save.
  destruct (errs ++ _); [|discriminate].
  rewrite isModified_status.
  pose proof (preSave_frame (negb (String.eqb (Issue.status stored) (Issue.status doc)))
                now doc) as [F1 [F2 [F3 F4]]].
  pose proof (preSave_resolvedAt now stored doc Hr) as F5.
  destruct (filter _ IssueRoute.assignablePaths);
    intros H; injection H as Hw Hc; subst coll' written; simpl;
    repeat split; congruence.
Qed.

(** Whatever the request, the update either left the store as it was or
    replaced one stored issue by a saved copy of it. *)
Lemma PUT_cases token id body now db :
  snd (fst (IssueRoute.PUT token id body now db)) = db \/
  exists i stored written newStatus,
    id = Some i /\
    Issue.findById i (issues db) = Some stored /\
    fst (fst (IssueRoute.PUT token id body now db)) =
      mkResponse 200 true "Issue updated successfully" (IssueData written) /\
    snd (fst (IssueRoute.PUT token id body now db)) =
      setIssues (Issue.updateOne i (fun _ => written) (issues db)) db /\
    Issue._id written = i /\
    Issue.votes written = Issue.votes stored /\
    Issue.votedBy written = Issue.votedBy stored /\
    Issue.status written = newStatus /\
    Issue.resolvedAt written = hookResolvedAt now stored newStatus.
Proof.
  unfold IssueRoute.PUT.
  destruct (requireAuth token db) as [e|user]; unravel; [left; reflexivity|].
  destruct id as [i|]; [|left; reflexivity].
  destruct body as [body|]; unravel; [|left; reflexivity].
  destruct (JS.destructurable body); unravel; [|left; reflexivity].
  destruct (Issue.findById i (issues db)) as [stored|] eqn:Hfind; [|left; reflexivity].
  destruct (findUser (Issue.reportedBy stored) db) as [reporter|]; unravel;
    [|left; reflexivity].
  destruct (negb _ && negb _); [left; reflexivity|].
  destruct ((JS.truthy _ || JS.truthy _) && negb _); [left; reflexivity|].
  destruct (IssueRoute.updateAllowedFields _ _ body stored) as [e|[doc errs]] eqn:Hupd;
    unravel; [left; reflexivity|].
  destruct (IssueRoute.save errs now stored doc (issues db)) as [e|[written coll]] eqn:Hsave;
    unravel; [left; reflexivity|].
  right. apply updateAllowedFields_managed in Hupd.
  destruct (save_effect _ _ _ _ _ _ _ Hupd Hsave) as [Hc [Hid [Hv [Hb [Hs Hr]]]]].
  apply findById_In in Hfind as Hin. destruct Hin as [_ Hi].
  exists i, stored, written, (Issue.status doc). simpl. subst coll.
  rewrite Hi in *. repeat split; assumption.
Qed.

(** ** Every request keeps the store consistent *)

Lemma unique_by_id coll a b :
  NoDup (map Issue._id coll) -> In a coll -> In b coll ->
  Issue._id a = Issue._id b -> a = b.
Proof.
  induction coll as [|x l IH]; simpl; intros Hnd Ha Hb E; [contradiction|].
  inversion Hnd as [|? ? Hx Hl]; subst.
  destruct Ha as [->|Ha], Hb as [->|Hb]; try reflexivity.
  - exfalso. apply Hx. rewrite E. now apply in_map.
  - exfalso. apply Hx. rewrite <- E. now apply in_map.
  - now apply IH.
Qed.

Lemma hookResolvedAt_ok now stored newStatus :
  resolvedOk stored ->
  (hookResolvedAt now stored newStatus <> None <-> newStatus = "resolved").
Proof.
  unfold resolvedOk, hookResolvedAt. intros H.
  destruct (String.eqb_spec (Issue.status stored) newStatus) as [<-|Hne]; [exact H|].
  destruct (String.eqb_spec newStatus "resolved") as [->|Hnr].
  - destruct (Issue.resolvedAt stored); split; congruence.
  - split; congruence.
Qed.

Lemma PUT_consistent token id body now db :
  consistent db -> consistent (snd (fst (IssueRoute.PUT token id body now db))).
Proof.
  intros Hc. destruct (PUT_cases token id body now db) as [->|H]; [assumption|].
  destruct H as (i & stored & written & newStatus & -> & Hfind & _ & -> & Hid & Hv & Hb & Hs & Hr).
  destruct Hc as [Hids Hpairs Hcache Hres].
  apply findById_In in Hfind. destruct Hfind as [Hin Hi].
  constructor; simpl.
  - now rewrite updateOne_ids by (intros; assumption).
  - assumption.
  - apply (Forall_updateOne (fun d => In d (issues db) /\ voteCacheOk (ledger db) d)).
    + assumption.
    + rewrite Forall_forall in *. intros d Hd. split; [assumption | now apply Hcache].
    + intros d [Hd Hok] Hdi.
      assert (d = stored) as -> by (apply (unique_by_id (issues db)); congruence).
      unfold voteCacheOk in *. now rewrite Hid, Hv, Hb, <- Hi.
    + tauto.
  - apply (Forall_updateOne (fun d => In d (issues db) /\ resolvedOk d)).
    + assumption.
    + rewrite Forall_forall in *. intros d Hd. split; [assumption | now apply Hres].
    + intros d [Hd Hok] Hdi.
      assert (d = stored) as -> by (apply (unique_by_id (issues db)); congruence).
      unfold resolvedOk at 1. rewrite Hr, Hs. now apply hookResolvedAt_ok.
    + tauto.
Qed.

Lemma newIssue_fields user title description category priority address images
    lng lat newId now doc errs :
  IssuesRoute.newIssue user title description category priority address images
    lng lat newId now = Ok (doc, errs) ->
  Issue._id doc = newId /\ Issue.votes doc = 0 /\ Issue.votedBy doc = [] /\
  Issue.status doc = "pending" /\ Issue.resolvedAt doc = None.
Proof.
  unfold IssuesRoute.newIssue.
  destruct (IssueRoute.callTrim title); unravel; [discriminate|].
  destruct (IssueRoute.callTrim description); unravel; [discriminate|].
  destruct (IssueRoute.callTrim address); unravel; [discriminate|].
  intros [= <- _]. repeat split.
Qed.

Lemma saveNew_fields errs now doc saved newId :
  IssuesRoute.saveNew errs now doc = Ok saved ->
  Issue._id doc = newId /\ Issue.votes doc = 0 /\ Issue.votedBy doc = [] /\
  Issue.status doc = "pending" /\ Issue.resolvedAt doc = None ->
  Issue._id saved = newId /\ Issue.votes saved = 0 /\ Issue.votedBy saved = [] /\
  Issue.status saved = "pending" /\ Issue.resolvedAt saved = None.
Proof.
  unfold IssuesRoute.saveNew. destruct (errs ++ _); [|discriminate].
  intros [= <-] (Hid & Hv & Hb & Hs & Hr).
  unfold Issue.preSave. rewrite Hs. simpl. repeat split; assumption.
Qed.

(** Whatever the request, a creation either left the store as it was or
    appended a pending issue without votes under the new id. *)
Lemma POST_issue_cases token body newId now db :
  snd (IssuesRoute.POST token body newId now db) = db \/
  exists saved,
    fst (IssuesRoute.POST token body newId now db) =
      mkResponse 201 true "Issue created successfully" (IssueData saved) /\
    snd (IssuesRoute.POST token body newId now db) =
      setIssues (issues db ++ [saved]) db /\
    Issue._id saved = newId /\ Issue.votes saved = 0 /\ Issue.votedBy saved = [] /\
    Issue.status saved = "pending" /\ Issue.resolvedAt saved = None.
Proof.
  unfold IssuesRoute.POST.
  destruct (requireAuth token db) as [e|user]; unravel; [left; reflexivity|].
  destruct body as [body|]; unravel; [|left; reflexivity].
  destruct (JS.destructurable body); unravel; [|left; reflexivity].
  destruct (negb _ || negb _ || negb _ || negb _ || negb _); [left; reflexivity|].
  destruct (JS.prop (JS.prop body "location") "coordinates") as [| | | | |l|];
    try (left; reflexivity).
  destruct l as [|[| | |lng| | |] [|[| | |lat| | |] [|]]]; try (left; reflexivity).
  destruct (_ || _ || _ || _); [left; reflexivity|].
  destruct (IssuesRoute.newIssue _ _ _ _ _ _ _ _ _ _ _) as [e|[doc errs]] eqn:Hnew;
    unravel; [left; reflexivity|].
  destruct (IssuesRoute.saveNew errs now doc) as [e|saved] eqn:Hsave;
    unravel; [left; reflexivity|].
  right. exists saved. split; [reflexivity|]. split; [reflexivity|].
  apply newIssue_fields in Hnew. now apply (saveNew_fields errs now doc saved newId).
Qed.

Lemma POST_issue_consistent token body newId now db :
  fresh newId db -> consistent db ->
  consistent (snd (IssuesRoute.POST token body newId now db)).
Proof.
  intros [Hfi Hfl] Hc.
  destruct (POST_issue_cases token body newId now db) as [->|H]; [assumption|].
  destruct H as (saved & _ & -> & Hid & Hv & Hb & Hs & Hr).
  destruct Hc as [Hids Hpairs Hcache Hres].
  constructor; simpl.
  - rewrite map_app. simpl. rewrite Hid. apply NoDup_app; try assumption.
    + repeat constructor. simpl. tauto.
    + intros x Hx [<-|[]]. contradiction.
  - assumption.
  - apply Forall_app. split; [assumption|]. constructor; [|constructor].
    unfold voteCacheOk. rewrite Hv, Hb, Hid. simpl. repeat split.
    + constructor.
    + contradiction.
    + intros H. apply hasUserVoted_In in H. apply Hfl.
      apply in_map_iff in H. destruct H as [v [E Hin]].
      apply in_map_iff. exists v. unfold pairOf in E. split; [congruence | assumption].
  - apply Forall_app. split; [assumption|]. constructor; [|constructor].
    unfold resolvedOk. rewrite Hr, Hs. split; [congruence | discriminate].
Qed.

Lemma DELETE_cases token id db :
  snd (IssueRoute.DELETE token id db) = db \/
  exists i, snd (IssueRoute.DELETE token id db) =
            setIssues (Issue.findByIdAndDelete i (issues db)) db.
Proof.
  unfold IssueRoute.DELETE.
  destruct (requireAuth token db) as [[]|user]; try (left; reflexivity).
  destruct id as [i|]; [|left; reflexivity].
  destruct (Issue.findById i (issues db)); [|left; reflexivity].
  destruct (negb _ && negb _); [left; reflexivity|].
  right. now exists i.
Qed.

Lemma Forall_findByIdAndDelete (P : Issue.t -> Prop) id coll :
  Forall P coll -> Forall P (Issue.findByIdAndDelete id coll).
Proof.
  rewrite !Forall_forall. intros H d Hd. apply H.
  now apply findByIdAndDelete_incl in Hd.
Qed.

Lemma DELETE_consistent token id db :
  consistent db -> consistent (snd (IssueRoute.DELETE token id db)).
Proof.
  intros Hc. destruct (DELETE_cases token id db) as [->|[i ->]]; [assumption|].
  destruct Hc as [Hids Hpairs Hcache Hres].
  constructor; simpl;
    auto using findByIdAndDelete_ids, Forall_findByIdAndDelete.
Qed.

Lemma POST_vote_consistent token id newId now db :
  consistent db -> consistent (snd (VoteRoute.POST alone token id newId now db)).
Proof.
  intros Hc. destruct (POST_vote_cases token id newId now db) as [->|H]; [assumption|].
  destruct H as (user & i & d & _ & _ & Hfind & ->).
  now apply (afterToggle_consistent _ _ d).
Qed.

Lemma step_consistent db db' : step db db' -> consistent db -> consistent db'.
Proof.
  intros Hstep Hc. destruct Hstep.
  - now apply POST_issue_consistent.
  - now apply POST_vote_consistent.
  - now apply PUT_consistent.
  - now apply DELETE_consistent.
  - destruct Hc. constructor; assumption.
Qed.

Lemma reachable_consistent db : reachable db -> consistent db.
Proof.
  induction 1 as [|db db' _ IH Hstep].
  - constructor; simpl; constructor.
  - now apply (step_consistent db).
Qed.

(** ** Reachable sample stores *)

Lemma reachable_db0 : reachable Sample.db0.
Proof. apply (reach_step emptyDb); [constructor | apply step_users]. Qed.

Lemma reachable_db1 : reachable Sample.db1.
Proof.
  apply (reach_step Sample.db0); [exact reachable_db0|].
  apply step_create. split; simpl; tauto.
Qed.

Lemma reachable_db2 : reachable Sample.db2.
Proof. apply (reach_step Sample.db1); [exact reachable_db1 | apply step_toggle]. Qed.

Lemma reachable_db3 : reachable Sample.db3.
Proof. apply (reach_step Sample.db2); [exact reachable_db2 | apply step_update]. Qed.

(** ** The vote toggle *)

Lemma requireAuth_users token db db' :
  users db' = users db -> requireAuth token db' = requireAuth token db.
Proof.
  intros H. unfold requireAuth, getCurrentUser, findUser. now rewrite H.
Qed.

Lemma afterToggle_users u i newId now db : users (afterToggle u i newId now db) = users db.
Proof. unfold afterToggle. now destruct (Vote.findOne u i (ledger db)). Qed.

Lemma findById_afterToggle u i newId now db d :
  Issue.findById i (issues db) = Some d ->
  Issue.findById i (issues (afterToggle u i newId now db)) =
  Some (match Vote.findOne u i (ledger db) with
        | Some _ => unvoted u now d
        | None => voted u now d
        end).
Proof.
  intros Hfind. unfold afterToggle.
  destruct (Vote.findOne u i (ledger db)); simpl;
    now apply findById_updateOne.
Qed.

Lemma hasUserVoted_findOne u i coll :
  Vote.hasUserVoted u i coll = true -> exists v, Vote.findOne u i coll = Some v.
Proof.
  intros H. destruct (Vote.findOne u i coll) as [v|] eqn:E; [now exists v|].
  apply findOne_hasUserVoted in E. congruence.
Qed.

Lemma stored_cache_ok db i d :
  consistent db -> Issue.findById i (issues db) = Some d ->
  Issue._id d = i /\ voteCacheOk (ledger db) d.
Proof.
  intros Hc Hfind. apply findById_In in Hfind. destruct Hfind as [Hin Hid].
  split; [assumption|].
  pose proof (cache_ok db Hc) as H. rewrite Forall_forall in H. now apply H.
Qed.







(** X30: in every store that issue creations, vote toggles, issue
    updates and deletions lead to when the requests are served one at a
    time, the counter of every issue is the number of its voters and no
    voter appears twice. *)
Theorem votes_count_voters db :
  reachable db ->
  forall d, In d (issues db) ->
    Issue.votes d = Z.of_nat (List.length (Issue.votedBy d)) /\
    NoDup (Issue.votedBy d).
Proof.
  intros Hreach d Hin. apply reachable_consistent in Hreach.
  pose proof (cache_ok db Hreach) as H. rewrite Forall_forall in H.
  destruct (H d Hin) as [Hv [Hnd _]]. now split.
Qed.

Lemma votes_count_voters_witness :
  In Sample.issue2 (issues Sample.db2) /\
  Issue.votes Sample.issue2 = Z.of_nat (List.length (Issue.votedBy Sample.issue2)) /\
  NoDup (Issue.votedBy Sample.issue2).
Proof.
  assert (In Sample.issue2 (issues Sample.db2)) as Hin by (vm_compute; tauto).
  split; [exact Hin|].
  exact (votes_count_voters Sample.db2 reachable_db2 Sample.issue2 Hin).
Defined.

(** C3, on the code: the vote route opens a session "to ensure data
    consistency", but Vote.toggleVote reads and writes the ledger
    outside that session, so that two toggles of one voter can overlap.
    Alice has not voted for issue 100 and sends two toggles.  The first
    has inserted its vote and not yet updated the issue when the second
    runs: the insert of the second hits the unique index, its catch
    block removes the vote of the first, and the route decrements the
    counter and pulls Alice from the voters.  The second request is
    answered 200 with votes = -1 over an empty voter array; when the
    first then applies its own update the issue holds votes = 0 with
    one voter, and the ledger holds no vote. *)
Theorem racing_toggle_breaks_counter :
  reachable Sample.db1 /\
  Vote.hasUserVoted 1%N 100%N (ledger Sample.db1) = false /\
  raced (snd (VoteRoute.POST Sample.racing (Some 1%N) (Some 100%N) 500%N 2000
                Sample.db1)) /\
  httpStatus (fst (VoteRoute.POST Sample.racing (Some 1%N) (Some 100%N) 500%N 2000
                     Sample.db1)) = 200 /\
  exists d,
    Issue.findById 100%N
      (issues (snd (VoteRoute.POST Sample.racing (Some 1%N) (Some 100%N) 500%N 2000
                      Sample.db1))) = Some d /\
    Issue.votes d = -1 /\
    Issue.votedBy d = [] /\
    Issue.votes d <> Z.of_nat (List.length (Issue.votedBy d)) /\
    Issue.votes (voted 1%N 2500 d) = 0 /\
    Issue.votedBy (voted 1%N 2500 d) = [1%N] /\
    Issue.votes (voted 1%N 2500 d) <>
      Z.of_nat (List.length (Issue.votedBy (voted 1%N 2500 d))) /\
    Vote.hasUserVoted 1%N 100%N
      (ledger (snd (VoteRoute.POST Sample.racing (Some 1%N) (Some 100%N) 500%N 2000
                      Sample.db1))) = false.
Proof.
  split; [exact reachable_db1|]. split; [reflexivity|].
  split; [apply raced_toggle, raced_alone, reachable_db1|].
  split; [reflexivity|].
  eexists. split; [vm_compute; reflexivity|].
  repeat split; try reflexivity; vm_compute; discriminate.
Qed.

(** C4: in every reachable store resolvedAt is set exactly on the
    resolved issues; an update that moves an issue into resolved stamps
    resolvedAt with the time of the update, and one that moves it out of
    resolved clears it. *)
Theorem resolvedAt_iff_resolved db :
  reachable db ->
  (forall d, In d (issues db) ->
     (Issue.resolvedAt d <> None <-> Issue.status d = "resolved")) /\
  (forall token i body now d d',
     Issue.findById i (issues db) = Some d ->
     Issue.findById i (issues (snd (fst (IssueRoute.PUT token (Some i) body now db)))) =
       Some d' ->
     (Issue.status d <> "resolved" -> Issue.status d' = "resolved" ->
        Issue.resolvedAt d' = Some now) /\
     (Issue.status d = "resolved" -> Issue.status d' <> "resolved" ->
        Issue.resolvedAt d' = None)).
Proof.
  intros Hreach. apply reachable_consistent in Hreach as Hc.
  pose proof (resolved_ok db Hc) as Hres. rewrite Forall_forall in Hres.
  split; [exact Hres|].
  intros token i body now d d' Hfind Hfind'.
  destruct (PUT_cases token (Some i) body now db) as [E|H].
  - rewrite E, Hfind in Hfind'. injection Hfind' as <-. split; congruence.
  - destruct H as (i' & stored & written & newStatus & Hi' & Hst & _ & E & Hid & _ & _ & Hs & Hr).
    assert (i' = i) as -> by congruence.
    assert (stored = d) as -> by congruence.
    rewrite E in Hfind'. simpl in Hfind'.
    apply findById_In in Hfind as Hin. destruct Hin as [Hin Hdi].
    rewrite (findById_updateOne i (fun _ => written) _ d) in Hfind' by congruence.
    assert (written = d') as -> by congruence.
    pose proof (Hres d Hin) as Hok. unfold resolvedOk in Hok.
    rewrite Hr, Hs. unfold hookResolvedAt.
    split; intros H1 H2.
    + destruct (String.eqb_spec (Issue.status d) newStatus) as [Heq|_]; [congruence|].
      rewrite H2. simpl.
      destruct (Issue.resolvedAt d) eqn:F; [|reflexivity].
      exfalso. apply H1. apply Hok. congruence.
    + destruct (String.eqb_spec (Issue.status d) newStatus) as [Heq|_]; [congruence|].
      apply String.eqb_neq in H2. now rewrite H2.
Qed.

Lemma resolvedAt_iff_resolved_witness :
  (forall d, In d (issues Sample.db2) ->
     (Issue.resolvedAt d <> None <-> Issue.status d = "resolved")) /\
  (forall token i body now d d',
     Issue.findById i (issues Sample.db2) = Some d ->
     Issue.findById i
       (issues (snd (fst (IssueRoute.PUT token (Some i) body now Sample.db2)))) =
       Some d' ->
     (Issue.status d <> "resolved" -> Issue.status d' = "resolved" ->
        Issue.resolvedAt d' = Some now) /\
     (Issue.status d = "resolved" -> Issue.status d' <> "resolved" ->
        Issue.resolvedAt d' = None)).
Proof. exact (resolvedAt_iff_resolved Sample.db2 reachable_db2). Defined.

(** ** The lost race *)

(** C5: when the insert of a toggle hits the unique index, the toggle
    reads the existing vote again, deletes the pair, reports "removed",
    and the route takes one from the counter and answers with success:
    the duplicate-key error does not reach the caller. *)
Theorem lost_race_is_a_removal race db token user i d newId now :
  requireAuth token db = Ok user ->
  Issue.findById i (issues db) = Some d ->
  let u := auth_id user in
  Vote.findOne u i (ledger db) = None ->
  fst (Vote.create newId now u i (race (ledger db))) = Throw (MongoServerError 11000) ->
  let response := fst (VoteRoute.POST race token (Some i) newId now db) in
  let db' := snd (VoteRoute.POST race token (Some i) newId now db) in
  exists existingVote,
    Vote.findOne u i (race (ledger db)) = Some existingVote /\
    fst (Vote.toggleVote race newId now u i (ledger db)) =
      Ok (Vote.removed, Some existingVote) /\
    ledger db' = Vote.deleteOne u i (race (ledger db)) /\
    (uniquePairs (race (ledger db)) -> Vote.hasUserVoted u i (ledger db') = false) /\
    exists d',
      Issue.findById i (issues db') = Some d' /\
      Issue.votes d' = Issue.votes d - 1 /\
      ~ In u (Issue.votedBy d') /\
      success response = true /\ httpStatus response = 200 /\
      data response = VoteData i (Issue.votes d') false d'.
Proof.
  intros Hauth Hfind u Hnone Hdup response db'. subst response db'.
  assert (Vote.hasUserVoted u i (race (ledger db)) = true) as Hv.
  { destruct (Vote.hasUserVoted u i (race (ledger db))) eqn:F; [reflexivity|].
    rewrite (create_fresh_pair _ _ _ _ _ F) in Hdup. discriminate. }
  destruct (hasUserVoted_findOne _ _ _ Hv) as [v Hre]. exists v.
  assert (Vote.toggleVote race newId now u i (ledger db) =
          (Ok (Vote.removed, Some v), Vote.deleteOne u i (race (ledger db)))) as Htoggle.
  { unfold Vote.toggleVote. rewrite Hnone, (create_duplicate _ _ _ _ _ Hv). simpl.
    now rewrite Hre. }
  split; [assumption|]. split; [now rewrite Htoggle|].
  rewrite (POST_vote_outcome race token user i d newId now db _ _ _ Hauth Hfind Htoggle).
  simpl. fold u.
  rewrite (findById_updateOne i (unvoted u now) _ d eq_refl Hfind).
  assert (~ In u (Issue.pull u (Issue.votedBy d))) as Hout by (rewrite In_pull; tauto).
  split; [reflexivity|]. split.
  - intros Hu. rewrite hasUserVoted_deleteOne by assumption.
    now rewrite !N.eqb_refl, andb_false_r.
  - eexists. split; [reflexivity|]. simpl.
    apply includes_false in Hout as Hinc. rewrite Hinc. repeat split. assumption.
Qed.

Lemma lost_race_is_a_removal_witness :
  let u := 1%N in
  let response :=
    fst (VoteRoute.POST Sample.racing (Some 1%N) (Some 100%N) 500%N 2000 Sample.db1) in
  let db' :=
    snd (VoteRoute.POST Sample.racing (Some 1%N) (Some 100%N) 500%N 2000 Sample.db1) in
  exists existingVote,
    Vote.findOne u 100%N (Sample.racing (ledger Sample.db1)) = Some existingVote /\
    fst (Vote.toggleVote Sample.racing 500%N 2000 u 100%N (ledger Sample.db1)) =
      Ok (Vote.removed, Some existingVote) /\
    ledger db' = Vote.deleteOne u 100%N (Sample.racing (ledger Sample.db1)) /\
    (uniquePairs (Sample.racing (ledger Sample.db1)) ->
       Vote.hasUserVoted u 100%N (ledger db') = false) /\
    exists d',
      Issue.findById 100%N (issues db') = Some d' /\
      Issue.votes d' = Issue.votes Sample.issue1 - 1 /\
      ~ In u (Issue.votedBy d') /\
      success response = true /\ httpStatus response = 200 /\
      data response = VoteData 100%N (Issue.votes d') false d'.
Proof.
  exact (lost_race_is_a_removal Sample.racing Sample.db1 (Some 1%N) Sample.aliceAuth
           100%N Sample.issue1 500%N 2000 eq_refl eq_refl eq_refl eq_refl).
Defined.

(** ** Listing issues *)

Lemma given_idem c : Issue.given (Issue.given c) = Issue.given c.
Proof.
  unfold Issue.given. destruct c as [s|]; [|reflexivity].
  destruct (String.eqb s "") eqn:E; [reflexivity | now rewrite E].
Qed.

(** Without a location filter the count runs the query of the page. *)
Lemma countQuery_without_location pf q :
  Issue.f_location (IssuesRoute.parseFilters pf q) = None ->
  IssuesRoute.countQuery (IssuesRoute.validatePagination (IssuesRoute.parseFilters pf q)) =
  Issue.filterQuery (IssuesRoute.validatePagination (IssuesRoute.parseFilters pf q)).
Proof.
  intros H. unfold IssuesRoute.countQuery, Issue.filterQuery. simpl in *.
  now rewrite H.
Qed.

Lemma findRequest_sort filters :
  Issue.r_sort (Issue.findRequest filters) = Some (sortKey filters).
Proof.
  unfold Issue.findRequest, sortKey. cbn [Issue.r_sort].
  destruct (Issue.given (Issue.f_sortBy filters)); reflexivity.
Qed.

Lemma validatePagination_clamps filters :
  IssuesRoute.validatePagination filters =
  IssuesRoute.setPagination (clampPage (Issue.f_page filters))
    (clampLimit (Issue.f_limit filters)) filters.
Proof.
  unfold IssuesRoute.validatePagination, clampPage, clampLimit, JS.lt, JS.gt.
  destruct (Issue.f_page filters) as [p|], (Issue.f_limit filters) as [l|]; simpl;
    try reflexivity.
  - destruct (Z.ltb_spec p 1), (Z.ltb_spec l 1), (Z.ltb_spec 50 l),
      (Z.leb_spec 1 l), (Z.leb_spec l 50); simpl; try lia;
      rewrite ?Z.max_l, ?Z.max_r by lia; reflexivity.
  - destruct (Z.ltb_spec p 1); rewrite ?Z.max_l, ?Z.max_r by lia; reflexivity.
  - destruct (Z.ltb_spec l 1), (Z.ltb_spec 50 l),
      (Z.leb_spec 1 l), (Z.leb_spec l 50); simpl; try lia; reflexivity.
Qed.

(** The skip and the limit of the request after validation. *)
Lemma paging_validated filters :
  Issue.r_paging (Issue.findRequest (IssuesRoute.validatePagination filters)) =
  match clampPage (Issue.f_page filters), clampLimit (Issue.f_limit filters) with
  | Some P, Some L => Some ((P - 1) * L, L)
  | _, _ => None
  end.
Proof.
  rewrite validatePagination_clamps. unfold Issue.findRequest.
  cbn [Issue.r_paging IssuesRoute.setPagination Issue.f_page Issue.f_limit].
  unfold clampPage, clampLimit, JS.truthyInt.
  destruct (Issue.f_page filters) as [p|], (Issue.f_limit filters) as [l|];
    try reflexivity; [|now rewrite andb_false_r].
  assert ((Z.max 1 p =? 0) = false) as -> by lia.
  assert (((if (1 <=? l) && (l <=? 50) then l else 10) =? 0) = false) as ->;
    [|reflexivity].
  destruct (Z.leb_spec 1 l), (Z.leb_spec l 50); simpl; lia.
Qed.

Lemma clampLimit_range l L : clampLimit l = Some L -> 1 <= L <= 50.
Proof.
  unfold clampLimit. destruct l as [l|]; [|discriminate]. intros [= <-].
  destruct (Z.leb_spec 1 l), (Z.leb_spec l 50); simpl; lia.
Qed.

Lemma clampPage_range p P : clampPage p = Some P -> 1 <= P.
Proof.
  unfold clampPage. destruct p as [p|]; [|discriminate]. intros [= <-]. lia.
Qed.

(** The page of a find that the engine serves: cut out of the sorted
    matches with the validated page and limit. *)
Lemma findWithFilters_validated E filters coll :
  Issue.refuses E (Issue.findRequest (IssuesRoute.validatePagination filters)) = false ->
  Issue.findWithFilters E (IssuesRoute.validatePagination filters) coll =
  Ok (match clampPage (Issue.f_page filters), clampLimit (Issue.f_limit filters) with
      | Some P, Some L =>
          firstn (Z.to_nat L)
            (skipn (Z.to_nat ((P - 1) * L))
               (handed E (IssuesRoute.validatePagination filters) coll))
      | _, _ => handed E (IssuesRoute.validatePagination filters) coll
      end).
Proof.
  intros Hserved. unfold Issue.findWithFilters, Issue.exec. rewrite Hserved.
  rewrite findRequest_sort, paging_validated.
  unfold handed, allMatches.
  change (Issue.r_query (Issue.findRequest ?f)) with (Issue.filterQuery f).
  destruct (sortKey (IssuesRoute.validatePagination filters)) as [field order].
  cbn [fst snd].
  destruct (clampPage (Issue.f_page filters)) as [P|] eqn:HP; [|reflexivity].
  destruct (clampLimit (Issue.f_limit filters)) as [L|] eqn:HL; [|reflexivity].
  apply clampPage_range in HP. apply clampLimit_range in HL.
  assert (((P - 1) * L <? 0) = false) as -> by nia.
  now rewrite Z.abs_eq by lia.
Qed.

Lemma findWithFilters_refused E filters coll :
  Issue.refuses E (Issue.findRequest filters) = true ->
  Issue.findWithFilters E filters coll = Throw (MongoServerError 2).
Proof. intros H. unfold Issue.findWithFilters, Issue.exec. now rewrite H. Qed.

(** Every way through the list route: the page and its metadata when
    the engine serves the count and the find, the answer of the catch
    block when it refuses one of them. *)
Lemma GET_outcome E pf q db :
  let filters := IssuesRoute.validatePagination (IssuesRoute.parseFilters pf q) in
  let totalItems := Issue.countDocuments E (IssuesRoute.countQuery filters) (issues db) in
  let totalPages := JS.Math_ceil_div totalItems (Issue.f_limit filters) in
  IssuesRoute.GET E pf q db =
  if accepted E filters then
    mkResponse 200 true "Issues retrieved successfully"
      (PageData
         match clampPage (Issue.f_page (IssuesRoute.parseFilters pf q)),
               clampLimit (Issue.f_limit (IssuesRoute.parseFilters pf q)) with
         | Some P, Some L =>
             firstn (Z.to_nat L)
               (skipn (Z.to_nat ((P - 1) * L)) (handed E filters (issues db)))
         | _, _ => handed E filters (issues db)
         end
         (mkMeta (Issue.f_page filters) totalPages totalItems (Issue.f_limit filters)
            (IssuesRoute.ltNaN (Issue.f_page filters) totalPages)
            (JS.gt (Issue.f_page filters) 1)))
  else failure 500 "Failed to retrieve issues".
Proof.
  intros filters totalItems totalPages. unfold IssuesRoute.GET, accepted, Issue.count.
  fold filters.
  destruct (Issue.refuses E (Issue.mkRequest (IssuesRoute.countQuery filters) None None));
    [reflexivity|].
  unravel. cbn [negb andb].
  destruct (Issue.refuses E (Issue.findRequest filters)) eqn:Hfind.
  - unfold filters in *. now rewrite (findWithFilters_refused _ _ _ Hfind).
  - unfold filters in *. now rewrite (findWithFilters_validated _ _ _ Hfind).
Qed.

(** The arithmetic of the metadata, relative to the count: totalPages
    is the ceiling of totalItems / limit, and the two flags compare the
    page with the bounds. *)
Lemma pagination_meta E pf q db p l :
  accepted E (IssuesRoute.validatePagination (IssuesRoute.parseFilters pf q)) = true ->
  JS.parseInt (IssuesRoute.orElse (IssuesRoute.p_page q) "1") = Some p ->
  JS.parseInt (IssuesRoute.orElse (IssuesRoute.p_limit q) "10") = Some l ->
  exists found meta,
    data (IssuesRoute.GET E pf q db) = PageData found meta /\
    totalItems meta =
      Issue.countDocuments E
        (IssuesRoute.countQuery (IssuesRoute.parseFilters pf q)) (issues db) /\
    exists P L T,
      currentPage meta = Some P /\ itemsPerPage meta = Some L /\ totalPages meta = Some T /\
      1 <= L <= 50 /\
      (T - 1) * L < totalItems meta <= T * L /\
      (hasNextPage meta = true <-> P < T) /\
      (hasPrevPage meta = true <-> P > 1).
Proof.
  intros Hserved Hp Hl. rewrite GET_outcome, Hserved.
  eexists. eexists. split; [reflexivity|]. split; [reflexivity|].
  rewrite validatePagination_clamps. simpl. rewrite Hp, Hl. simpl.
  set (L := if (1 <=? l) && (l <=? 50) then l else 10).
  assert (1 <= L <= 50) as HL.
  { unfold L. destruct (Z.leb_spec 1 l), (Z.leb_spec l 50); simpl; lia. }
  set (N := Issue.countDocuments E _ (issues db)).
  assert ((L =? 0) = false) as -> by lia.
  exists (Z.max 1 p), L, (- (- N / L)). simpl.
  repeat split; try lia.
  - pose proof (Z.div_mod (- N) L) as H1. pose proof (Z.mod_pos_bound (- N) L) as H2. nia.
  - pose proof (Z.div_mod (- N) L) as H1. pose proof (Z.mod_pos_bound (- N) L) as H2. nia.
Qed.

(** C6, on the code: with a location filter the page holds the issues
    within the radius only, while the count leaves the location out.
    Here the one stored issue is not within the radius: the page is
    empty, yet totalItems and totalPages are 1. *)
Theorem count_ignores_location :
  let filters :=
    IssuesRoute.validatePagination
      (IssuesRoute.parseFilters Sample.parseFloat Sample.nearParams) in
  Issue.find_ Sample.nothingNear (Issue.filterQuery filters) (issues Sample.db1) = [] /\
  Issue.countDocuments Sample.nothingNear (IssuesRoute.countQuery filters)
    (issues Sample.db1) = 1 /\
  data (IssuesRoute.GET Sample.nothingNear Sample.parseFloat Sample.nearParams Sample.db1) =
    PageData [] (mkMeta (Some 1) (Some 1) 1 (Some 10) false false).
Proof. repeat split. Qed.

(** C7, on the code: a limit that parseInt turns into NaN is neither
    below 1 nor above 50, so that it is not replaced by 10; with NaN for
    a limit the page is not cut at all.  Here the store holds sixty
    issues: ?limit=abc is answered with all sixty, and the metadata
    carry NaN for itemsPerPage and for totalPages. *)
Theorem unparsable_limit_is_not_clamped :
  JS.parseInt (IssuesRoute.orElse (IssuesRoute.p_limit Sample.unparsableLimit) "10") = None /\
  exists found,
    IssuesRoute.GET Sample.nothingNear Sample.parseFloat Sample.unparsableLimit
      Sample.crowded =
      mkResponse 200 true "Issues retrieved successfully"
        (PageData found (mkMeta (Some 1) None 60 None false false)) /\
    List.length found = 60%nat /\
    Permutation found (issues Sample.crowded).
Proof.
  split; [reflexivity|].
  eexists. split; [vm_compute; reflexivity|]. split; [reflexivity|].
  vm_compute. apply Permutation_refl.
Qed.

(** ** Statistics *)

Section Groups.

Context {K : Type} `{Key K}.

Lemma same_sym (a b : K) : same a b = same b a.
Proof. destruct (same_spec a b), (same_spec b a); congruence. Qed.

Lemma bump_sum (k : K) groups :
  sumCounts (Issue.bump k groups) = sumCounts groups + 1.
Proof.
  induction groups as [|[k' c] l IH]; simpl; [reflexivity|].
  destruct (same k k'); simpl; unfold sumCounts in *; simpl; lia.
Qed.

Lemma bump_countOf (k k' : K) groups :
  countOf k (Issue.bump k' groups) =
  countOf k groups + (if same k k' then 1 else 0).
Proof.
  unfold countOf. induction groups as [|[k0 c] l IH]; simpl.
  - destruct (same k k'); reflexivity.
  - destruct (same_spec k' k0) as [->|Hne]; simpl.
    + destruct (same k k0); simpl; [reflexivity | lia].
    + destruct (same_spec k k0) as [->|Hne']; simpl; [|exact IH].
      destruct (same_spec k0 k'); [congruence | lia].
Qed.

Lemma bump_keys (k : K) groups x :
  In x (map fst (Issue.bump k groups)) <-> x = k \/ In x (map fst groups).
Proof.
  induction groups as [|[k' c] l IH]; simpl; [intuition auto|].
  destruct (same_spec k k') as [->|Hne]; simpl; [intuition auto|].
  rewrite IH. intuition auto.
Qed.

Lemma bump_NoDup (k : K) groups :
  NoDup (map fst groups) -> NoDup (map fst (Issue.bump k groups)).
Proof.
  induction groups as [|[k' c] l IH]; simpl; intros Hnd.
  - repeat constructor. simpl. tauto.
  - inversion Hnd as [|? ? Hk Hl]; subst.
    destruct (same_spec k k') as [->|Hne]; simpl; [now constructor|].
    constructor; [|now apply IH].
    rewrite bump_keys. intros [->|Hin]; [congruence | contradiction].
Qed.

Lemma groupCount_spec (key : Issue.t -> K) coll acc :
  let groups := fold_left (fun g d => Issue.bump (key d) g) coll acc in
  (NoDup (map fst acc) -> NoDup (map fst groups)) /\
  sumCounts groups = sumCounts acc + Z.of_nat (List.length coll) /\
  forall k, countOf k groups = countOf k acc + countKey key k coll.
Proof.
  revert acc. unfold countKey, AdminStatsRoute.count.
  induction coll as [|d l IH]; intros acc; simpl.
  - repeat split; [tauto | lia | intros; lia].
  - destruct (IH (Issue.bump (key d) acc)) as [H1 [H2 H3]].
    split; [|split].
    + intros Hnd. apply H1. now apply bump_NoDup.
    + rewrite H2, bump_sum. lia.
    + intros k. rewrite H3, bump_countOf, (same_sym k (key d)).
      destruct (same (key d) k); simpl; lia.
Qed.

End Groups.

Section StatusGroups.

#[local] Arguments String.eqb : simpl never.

(** The [forEach] adds every count to the total and keeps the count of
    the group "resolved". *)
Lemma accumulate_spec groups r :
  NoDup (map fst groups) ->
  Issue.totalIssues (fold_left Issue.accumulate groups r) =
    Issue.totalIssues r + sumCounts groups /\
  Issue.resolvedIssues (fold_left Issue.accumulate groups r) =
    if existsb (fun g => String.eqb "resolved" (fst g)) groups
    then countOf "resolved" groups else Issue.resolvedIssues r.
Proof.
  revert r. induction groups as [|[k c] l IH]; intros r Hnd.
  - simpl. split; [lia | reflexivity].
  - cbn [map fst] in Hnd. inversion Hnd as [|? ? Hk Hl]; subst.
    cbn [fold_left existsb fst snd sumCounts fold_right].
    destruct (IH (Issue.accumulate r (k, c)) Hl) as [H1 H2]. rewrite H1, H2.
    unfold countOf. cbn [find fst snd].
    change (@same string stringKey) with String.eqb.
    destruct (String.eqb_spec "resolved" k) as [<-|Hne]; cbv beta iota delta [orb].
    + split; [unfold Issue.accumulate, sumCounts; simpl; lia|]. cbn [snd].
      unfold Issue.accumulate; simpl.
      destruct (existsb _ l) eqn:E; [|reflexivity].
      exfalso. apply Hk. apply existsb_exists in E. destruct E as [g [Hg Eg]].
      apply String.eqb_eq in Eg. rewrite Eg. now apply in_map.
    + assert (Issue.resolvedIssues (Issue.accumulate r (k, c)) = Issue.resolvedIssues r
              /\ Issue.totalIssues (Issue.accumulate r (k, c)) = Issue.totalIssues r + c)
        as [A1 A2].
      { unfold Issue.accumulate.
        destruct (String.eqb k "pending"); [split; reflexivity|].
        destruct (String.eqb k "in-progress"); [split; reflexivity|].
        destruct (String.eqb_spec k "resolved"); [congruence | split; reflexivity]. }
      rewrite A1, A2. split; [unfold sumCounts; lia | reflexivity].
Qed.

Lemma countOf_absent k groups :
  existsb (fun g => String.eqb k (fst g)) groups = false -> countOf k groups = 0.
Proof.
  unfold countOf. change (@same string stringKey) with String.eqb.
  induction groups as [|g l IH]; simpl; [reflexivity|].
  destruct (String.eqb k (fst g)); simpl; [discriminate | exact IH].
Qed.

Lemma getDashboardStats_counts coll :
  Issue.totalIssues (Issue.getDashboardStats None coll) = Z.of_nat (List.length coll) /\
  Issue.resolvedIssues (Issue.getDashboardStats None coll) =
    countKey Issue.status "resolved" coll.
Proof.
  unfold Issue.getDashboardStats, Issue.groupCount.
  destruct (groupCount_spec Issue.status coll []) as [Hnd [Hsum Hcount]].
  destruct (accumulate_spec
              (fold_left (fun g d => Issue.bump (Issue.status d) g) coll [])
              (Issue.mkDashboardStats 0 0 0 0) (Hnd (NoDup_nil _))) as [H1 H2].
  rewrite H1, H2, Hsum. simpl. split; [lia|].
  specialize (Hcount "resolved"). unfold countOf at 2 in Hcount. simpl in Hcount.
  destruct (existsb _ _) eqn:E; [lia|].
  apply countOf_absent in E. lia.
Qed.

End StatusGroups.

Lemma sameFloat_eq x y : sameFloat x y = true -> x = y.
Proof.
  unfold sameFloat. intros H. apply Prim2SF_inj.
  destruct (Prim2SF x) as [a|a| |a m e], (Prim2SF y) as [b|b| |b m' e'];
    try discriminate; try reflexivity.
  - apply Bool.eqb_prop in H. now subst.
  - apply Bool.eqb_prop in H. now subst.
  - apply andb_prop in H. destruct H as [H He]. apply andb_prop in H.
    destruct H as [Ha Hm]. apply Bool.eqb_prop in Ha. apply Pos.eqb_eq in Hm.
    apply Z.eqb_eq in He. now subst.
Qed.

Lemma count_le_length {A : Type} (p : A -> bool) l :
  0 <= AdminStatsRoute.count p l <= Z.of_nat (List.length l).
Proof.
  unfold AdminStatsRoute.count. pose proof (filter_length_le p l). lia.
Qed.

Lemma pinnedUpTo_spec n resolved total :
  pinnedUpTo n = true ->
  (1 <= total <= n)%nat -> (resolved <= total)%nat ->
  pinned (Z.of_nat resolved) (Z.of_nat total) = true.
Proof.
  unfold pinnedUpTo. intros H Ht Hr.
  rewrite forallb_forall in H.
  assert (In total (seq 1 n)) as Hin by (apply in_seq; lia).
  apply H in Hin. rewrite forallb_forall in Hin.
  apply Hin. apply in_seq. lia.
Qed.

Lemma pinned_200 : pinnedUpTo 200 = true.
Proof. vm_compute. reflexivity. Qed.

Lemma pinned_small resolved total :
  0 <= resolved <= total -> 0 < total <= 200 -> pinned resolved total = true.
Proof.
  intros Hr Ht.
  rewrite <- (Z2Nat.id resolved), <- (Z2Nat.id total) by lia.
  apply (pinnedUpTo_spec 200); [exact pinned_200 | lia | lia].
Qed.

(** C8 as stated fails: of forty issues 23 are resolved, which is 57.5
    per cent and rounds to 58, while the route answers 57: in binary64
    the quotient 23 / 40 times 100 falls just below 57.5. *)
Lemma rate_of_23_in_40 :
  ~ (forall token now monthStart db stats,
       AdminStatsRoute.GET token now monthStart db =
         mkResponse 200 true "Admin statistics retrieved successfully"
           (StatsData stats) ->
       0 < Z.of_nat (List.length (issues db)) ->
       resolutionRate stats =
         JS.ofZ (roundedPercent (countKey Issue.status "resolved" (issues db))
                   (Z.of_nat (List.length (issues db))))).
Proof.
  intros H.
  assert (exists stats,
            AdminStatsRoute.GET (Some 2%N) 5000 0 Sample.forty =
              mkResponse 200 true "Admin statistics retrieved successfully"
                (StatsData stats) /\
            resolutionRate stats = 57%float) as [stats [Hget Hrate]].
  { eexists. split; [vm_compute; reflexivity | reflexivity]. }
  specialize (H _ _ _ _ _ Hget eq_refl). rewrite Hrate in H.
  assert (PrimFloat.eqb 57
            (JS.ofZ (roundedPercent (countKey Issue.status "resolved" (issues Sample.forty))
                       (Z.of_nat (List.length (issues Sample.forty))))) = true) as E
    by (rewrite <- H; reflexivity).
  vm_compute in E. discriminate E.
Qed.

(** C8, amended: the resolution rate is Math.round of the binary64
    value of resolvedIssues / totalIssues * 100 over the counts of the
    issue store, 0 for an empty store, and 60 for ten issues of which
    six are resolved.  For a store of at most 200 issues it is the
    percentage rounded to the nearest integer, except that a percentage
    lying exactly halfway between two integers may give the lower
    one. *)
Theorem resolution_rate token admin now monthStart db :
  requireAdmin token db = Ok admin ->
  let total := Z.of_nat (List.length (issues db)) in
  let resolved := countKey Issue.status "resolved" (issues db) in
  exists stats,
    AdminStatsRoute.GET token now monthStart db =
      mkResponse 200 true "Admin statistics retrieved successfully" (StatsData stats) /\
    Issue.totalIssues (issueStats stats) = total /\
    Issue.resolvedIssues (issueStats stats) = resolved /\
    resolutionRate stats =
      (if 0 <? total
       then JS.Math_round (JS.ofZ resolved / JS.ofZ total * 100)%float
       else 0%float) /\
    (total = 0 -> resolutionRate stats = 0%float) /\
    (total = 10 -> resolved = 6 -> resolutionRate stats = 60%float) /\
    (0 < total <= 200 ->
     resolutionRate stats = JS.ofZ (roundedPercent resolved total) \/
     halfway resolved total = true /\
     resolutionRate stats = JS.ofZ (roundedPercent resolved total - 1)).
Proof.
  intros Hadmin total resolved. unfold AdminStatsRoute.GET. rewrite Hadmin. unfold Ok.
  eexists. split; [reflexivity|]. simpl.
  destruct (getDashboardStats_counts (issues db)) as [Ht Hr].
  fold total in Ht. fold resolved in Hr.
  assert (AdminStatsRoute.computeResolutionRate
            (Issue.getDashboardStats None (issues db)) =
          AdminStatsRoute.computeResolutionRate
            (Issue.mkDashboardStats total 0 0 resolved)) as ->.
  { unfold AdminStatsRoute.computeResolutionRate.
    cbn [Issue.totalIssues Issue.resolvedIssues]. now rewrite Ht, Hr. }
  rewrite Ht, Hr. unfold AdminStatsRoute.computeResolutionRate.
  cbn [Issue.totalIssues Issue.resolvedIssues].
  split; [reflexivity|]. split; [reflexivity|]. split; [reflexivity|].
  split; [|split].
  - now intros ->.
  - now intros -> ->.
  - intros Hsmall.
    assert (pinned resolved total = true) as Hp.
    { apply pinned_small; [|exact Hsmall].
      unfold resolved, countKey, total. apply count_le_length. }
    unfold pinned, AdminStatsRoute.computeResolutionRate in Hp.
    cbn [Issue.totalIssues Issue.resolvedIssues] in Hp.
    destruct (sameFloat _ (JS.ofZ (roundedPercent resolved total))) eqn:Hnear.
    + left. now apply sameFloat_eq.
    + destruct (halfway resolved total); [|discriminate]. right.
      split; [reflexivity | now apply sameFloat_eq].
Qed.

Lemma resolution_rate_witness :
  let db := Sample.forty in
  let total := Z.of_nat (List.length (issues db)) in
  let resolved := countKey Issue.status "resolved" (issues db) in
  exists stats,
    AdminStatsRoute.GET (Some 2%N) 5000 0 db =
      mkResponse 200 true "Admin statistics retrieved successfully" (StatsData stats) /\
    Issue.totalIssues (issueStats stats) = total /\
    Issue.resolvedIssues (issueStats stats) = resolved /\
    resolutionRate stats =
      (if 0 <? total
       then JS.Math_round (JS.ofZ resolved / JS.ofZ total * 100)%float
       else 0%float) /\
    (total = 0 -> resolutionRate stats = 0%float) /\
    (total = 10 -> resolved = 6 -> resolutionRate stats = 60%float) /\
    (0 < total <= 200 ->
     resolutionRate stats = JS.ofZ (roundedPercent resolved total) \/
     halfway resolved total = true /\
     resolutionRate stats = JS.ofZ (roundedPercent resolved total - 1)).
Proof.
  exact (resolution_rate (Some 2%N) Sample.rootAuth 5000 0 Sample.forty eq_refl).
Defined.

(** ** Coordinates *)

Lemma SFcompare_Lt_Gt x y : SFcompare x y = Some Lt -> SFcompare y x = Some Gt.
Proof.
  destruct x as [sx| sx| |sx mx ex], y as [sy| sy| |sy my ey]; simpl;
    try destruct sx; try destruct sy; simpl; try discriminate; try reflexivity.
  all: change (PosDef.Pos.compare_cont Eq mx my) with (Pos.compare mx my);
    change (PosDef.Pos.compare_cont Eq my mx) with (Pos.compare my mx);
    rewrite (Z.compare_antisym ex ey), (Pos.compare_antisym mx my);
    destruct (ex ?= ey); destruct (mx ?= my)%positive; simpl;
    intros; try discriminate; reflexivity.
Qed.

Lemma ltb_not_leb x y : PrimFloat.ltb x y = true -> PrimFloat.leb y x = false.
Proof.
  rewrite ltb_spec, leb_spec. unfold SFltb, SFleb.
  destruct (SFcompare (Prim2SF x) (Prim2SF y)) as [[| |]|] eqn:E; try discriminate.
  intros _. now rewrite (SFcompare_Lt_Gt _ _ E).
Qed.

(** C9: creating an issue whose longitude lies outside [-180, 180] or
    whose latitude lies outside [-90, 90] is answered with a 400
    validation failure and leaves the store as it was; the validator of
    the schema refuses the same coordinates. *)
Theorem out_of_range_coordinates_rejected token user body lng lat newId now db :
  requireAuth token db = Ok user ->
  JS.prop (JS.prop body "location") "coordinates" = JS.Arr [JS.Num lng; JS.Num lat] ->
  PrimFloat.ltb lng (-180)%float = true \/ PrimFloat.ltb 180%float lng = true \/
  PrimFloat.ltb lat (-90)%float = true \/ PrimFloat.ltb 90%float lat = true ->
  httpStatus (fst (IssuesRoute.POST token (Some body) newId now db)) = 400 /\
  success (fst (IssuesRoute.POST token (Some body) newId now db)) = false /\
  snd (IssuesRoute.POST token (Some body) newId now db) = db /\
  Issue.coordinatesValidator [lng; lat] = false.
Proof.
  intros Hauth Hcoords Hout.
  assert (PrimFloat.ltb lng (-180)%float || PrimFloat.ltb 180%float lng ||
          PrimFloat.ltb lat (-90)%float || PrimFloat.ltb 90%float lat = true) as Hb.
  { rewrite !orb_true_iff. tauto. }
  assert (Issue.coordinatesValidator [lng; lat] = false) as Hschema.
  { unfold Issue.coordinatesValidator. rewrite !andb_false_iff.
    destruct Hout as [H|[H|[H|H]]]; apply ltb_not_leb in H; tauto. }
  unfold IssuesRoute.POST. rewrite Hauth. unravel.
  assert (JS.destructurable body = true) as ->.
  { destruct body; try reflexivity; discriminate. }
  unravel. destruct (negb _ || negb _ || negb _ || negb _ || negb _).
  - repeat split. assumption.
  - rewrite Hcoords, Hb. repeat split. assumption.
Qed.

Lemma out_of_range_coordinates_rejected_witness :
  httpStatus (fst (IssuesRoute.POST (Some 1%N) (Some (Sample.report 200 45)) 101%N 5000
                     Sample.db1)) = 400 /\
  success (fst (IssuesRoute.POST (Some 1%N) (Some (Sample.report 200 45)) 101%N 5000
                  Sample.db1)) = false /\
  snd (IssuesRoute.POST (Some 1%N) (Some (Sample.report 200 45)) 101%N 5000 Sample.db1) =
    Sample.db1 /\
  Issue.coordinatesValidator [200%float; 45%float] = false.
Proof.
  exact (out_of_range_coordinates_rejected (Some 1%N) Sample.aliceAuth
           (Sample.report 200 45) 200 45 101%N 5000 Sample.db1 eq_refl eq_refl
           (or_intror (or_introl eq_refl))).
Defined.

(** ** The partial update and the managed fields *)

Lemma hookResolvedAt_same now d : hookResolvedAt now d (Issue.status d) = Issue.resolvedAt d.
Proof. unfold hookResolvedAt. now rewrite String.eqb_refl. Qed.

(** C10 as stated fails: an administrator's update that resolves the
    issue changes resolvedAt, whatever the payload says about it. *)
Lemma update_changes_resolvedAt :
  ~ (forall token id body now db j d d',
       Issue.findById j (issues db) = Some d ->
       Issue.findById j (issues (snd (fst (IssueRoute.PUT token id body now db)))) =
         Some d' ->
       Issue.votes d' = Issue.votes d /\
       Issue.votedBy d' = Issue.votedBy d /\
       Issue.resolvedAt d' = Issue.resolvedAt d).
Proof.
  intros H.
  assert (Issue.findById 100%N (issues Sample.db2) = Some Sample.issue2) as E1
    by (vm_compute; reflexivity).
  assert (Issue.findById 100%N
            (issues (snd (fst (IssueRoute.PUT (Some 2%N) (Some 100%N)
                                 (Some Sample.resolving) 4000 Sample.db2)))) =
          Some (Issue.set_updatedAt 4000
                  (Issue.set_resolvedAt (Some 4000)
                     (Issue.set_status "resolved" Sample.issue2)))) as E2
    by (vm_compute; reflexivity).
  destruct (H _ _ _ _ _ _ _ _ E1 E2) as [_ [_ Hr]].
  vm_compute in Hr. discriminate Hr.
Qed.

(** C10, amended: the update never writes votes or votedBy, and never
    takes resolvedAt from the payload: resolvedAt keeps its value unless
    the update changes the status, in which case the pre-save middleware
    derives it from the new status.  Two payloads that agree on title,
    description, category, priority, status and assignedTo have the same
    effect. *)
Theorem update_ignores_managed_fields token id body now db :
  (forall j d,
     Issue.findById j (issues db) = Some d ->
     exists d',
       Issue.findById j (issues (snd (fst (IssueRoute.PUT token id body now db)))) =
         Some d' /\
       Issue.votes d' = Issue.votes d /\
       Issue.votedBy d' = Issue.votedBy d /\
       Issue.resolvedAt d' = hookResolvedAt now d (Issue.status d') /\
       (Issue.status d' = Issue.status d -> Issue.resolvedAt d' = Issue.resolvedAt d)) /\
  (forall fields fields',
     body = Some (JS.Obj fields) ->
     (forall k, In k IssueRoute.assignablePaths -> JS.assoc k fields' = JS.assoc k fields) ->
     IssueRoute.PUT token id (Some (JS.Obj fields')) now db =
     IssueRoute.PUT token id body now db).
Proof.
  split.
  - intros j d Hfind.
    destruct (PUT_cases token id body now db) as [->|H].
    + exists d. rewrite hookResolvedAt_same. tauto.
    + destruct H as (i & stored & written & newStatus & _ & Hst & _ & -> & Hid & Hv & Hb & Hs & Hr).
      simpl. destruct (N.eq_dec j i) as [->|Hne].
      * assert (stored = d) as -> by congruence.
        apply findById_In in Hst as Hin. destruct Hin as [_ Hdi].
        rewrite (findById_updateOne i (fun _ => written) _ d) by congruence.
        exists written. rewrite Hr, Hs. repeat split; try assumption.
        intros ->. apply hookResolvedAt_same.
      * rewrite findById_updateOne_other by (intros; assumption || congruence).
        exists d. rewrite hookResolvedAt_same. tauto.
  - intros fields fields' -> Hsame.
    unfold IssueRoute.PUT, IssueRoute.updateAllowedFields. unravel.
    cbn [JS.prop JS.destructurable].
    rewrite !Hsame by (simpl; tauto). reflexivity.
Qed.

Lemma update_ignores_managed_fields_witness :
  exists d',
    Issue.findById 100%N
      (issues (snd (fst (IssueRoute.PUT (Some 2%N) (Some 100%N) (Some Sample.resolving)
                           4000 Sample.db2)))) = Some d' /\
    Issue.votes d' = Issue.votes Sample.issue2 /\
    Issue.votedBy d' = Issue.votedBy Sample.issue2 /\
    Issue.resolvedAt d' = hookResolvedAt 4000 Sample.issue2 (Issue.status d') /\
    (Issue.status d' = Issue.status Sample.issue2 ->
     Issue.resolvedAt d' = Issue.resolvedAt Sample.issue2).
Proof.
  exact (proj1 (update_ignores_managed_fields (Some 2%N) (Some 100%N)
                  (Some Sample.resolving) 4000 Sample.db2)
           100%N Sample.issue2 eq_refl).
Defined.

(** * Further properties *)

(** ** The OTP rate limit *)

Section RateLimitFacts.

Import RateLimit.

Lemma mapGet_mapSet_same k e t : mapGet k (mapSet k e t) = Some e.
Proof.
  induction t as [|[k' e'] rest IH]; simpl.
  - now rewrite String.eqb_refl.
  - destruct (String.eqb k' k) eqn:E; simpl; rewrite E; [reflexivity | exact IH].
Qed.

Lemma mapGet_mapSet_other k k' e t :
  k' <> k -> mapGet k' (mapSet k e t) = mapGet k' t.
Proof.
  intros Hne. induction t as [|[k0 e0] rest IH]; simpl.
  - apply not_eq_sym in Hne. apply String.eqb_neq in Hne. now rewrite Hne.
  - destruct (String.eqb_spec k0 k) as [->|Hk]; simpl.
    + apply not_eq_sym in Hne. apply String.eqb_neq in Hne. now rewrite Hne.
    + destruct (String.eqb k0 k'); [reflexivity | exact IH].
Qed.

Lemma mapGet_In k e t : mapGet k t = Some e -> In (k, e) t.
Proof.
  induction t as [|[k' e'] rest IH]; simpl; [discriminate|].
  destruct (String.eqb_spec k' k) as [->|Hk].
  - intros [= ->]. now left.
  - intros H. right. now apply IH.
Qed.

Lemma mapGet_None k t : mapGet k t = None <-> ~ In k (map fst t).
Proof.
  induction t as [|[k' e'] rest IH]; simpl; [tauto|].
  destruct (String.eqb_spec k' k) as [->|Hk].
  - split; [discriminate | intros H; exfalso; apply H; now left].
  - rewrite IH. tauto.
Qed.

Lemma mapSet_keys k e t x :
  In x (map fst (mapSet k e t)) <-> x = k \/ In x (map fst t).
Proof.
  induction t as [|[k' e'] rest IH]; simpl; [intuition auto|].
  destruct (String.eqb_spec k' k) as [->|Hk]; simpl; [intuition auto|].
  rewrite IH. intuition auto.
Qed.

Lemma mapSet_NoDup k e t : NoDup (map fst t) -> NoDup (map fst (mapSet k e t)).
Proof.
  induction t as [|[k' e'] rest IH]; simpl; intros Hnd.
  - repeat constructor. simpl. tauto.
  - inversion Hnd as [|? ? Hk' Hrest]; subst.
    destruct (String.eqb_spec k' k) as [->|Hk]; simpl; [now constructor|].
    constructor; [|now apply IH].
    rewrite mapSet_keys. intros [->|H]; [congruence | contradiction].
Qed.

Lemma mapSet_Forall (P : string * Entry -> Prop) k e t :
  P (k, e) -> Forall P t -> Forall P (mapSet k e t).
Proof.
  intros Hk Ht. induction t as [|[k' e'] rest IH]; simpl.
  - now repeat constructor.
  - inversion Ht as [|? ? Hx Hrest]; subst.
    destruct (String.eqb_spec k' k) as [->|Hne]; constructor; auto.
Qed.

Lemma check_sane email now t : sane t -> sane (snd (checkOTPRateLimit email now t)).
Proof.
  intros [Hnd Hc]. unfold sane, maxRequests in *. unfold checkOTPRateLimit, maxRequests.
  destruct (mapGet email t) as [e|] eqn:E.
  - apply mapGet_In in E. rewrite Forall_forall in Hc. pose proof (Hc _ E) as He.
    simpl in He.
    destruct (windowMs <? now - lastRequest e); simpl.
    + split; [now apply mapSet_NoDup|].
      apply mapSet_Forall; [simpl; lia | now apply Forall_forall].
    + destruct (Z.leb_spec 5 (count e)); simpl.
      * split; [assumption | now apply Forall_forall].
      * split; [now apply mapSet_NoDup|].
        apply mapSet_Forall; [simpl; lia | now apply Forall_forall].
  - simpl. split; [now apply mapSet_NoDup|].
    apply mapSet_Forall; [simpl; lia | assumption].
Qed.

Lemma cleanup_sane now t : sane t -> sane (cleanup now t).
Proof.
  intros [Hnd Hc]. unfold cleanup. split.
  - induction t as [|[k e] rest IH]; simpl; [constructor|].
    simpl in Hnd. inversion Hnd as [|? ? Hk Hrest]; subst.
    inversion Hc as [|? ? _ Hc']; subst.
    destruct (negb _); simpl; [|now apply IH].
    constructor; [|now apply IH].
    intros H. apply Hk. apply in_map_iff in H. destruct H as [x [Hx Hin]].
    apply filter_In in Hin. apply in_map_iff. exists x. tauto.
  - rewrite Forall_forall in *. intros x Hx. apply filter_In in Hx. now apply Hc.
Qed.

Lemma run_sane ops t : sane t -> sane (run ops t).
Proof.
  revert t. unfold run. induction ops as [|op ops IH]; intros t Ht; simpl; [assumption|].
  apply IH. destruct op; simpl; [now apply check_sane | now apply cleanup_sane].
Qed.

(** X1: whatever checks and sweeps have run since the tracker was
    created, the count kept for an email is between 1 and 5, and no email
    has two entries. *)
Theorem tracker_counts_bounded ops email e :
  mapGet email (run ops []) = Some e ->
  1 <= count e <= 5 /\ NoDup (map fst (run ops [])).
Proof.
  intros H. destruct (run_sane ops []) as [Hnd Hc].
  { split; constructor. }
  split; [|assumption].
  apply mapGet_In in H. rewrite Forall_forall in Hc. exact (Hc _ H).
Qed.

Lemma tracker_counts_bounded_witness :
  1 <= 2 <= 5 /\
  NoDup (map fst (run [Check "a@b.c" 0; Check "a@b.c" 10; Sweep 20] [])).
Proof.
  exact (tracker_counts_bounded [Check "a@b.c" 0; Check "a@b.c" 10; Sweep 20]
           "a@b.c" (mkEntry 2 10) eq_refl).
Defined.

Lemma burst_cons email now rest t :
  burst email (now :: rest) t =
  (fst (checkOTPRateLimit email now t)
     :: fst (burst email rest (snd (checkOTPRateLimit email now t))),
   snd (burst email rest (snd (checkOTPRateLimit email now t)))).
Proof.
  cbn [burst]. destruct (checkOTPRateLimit email now t) as [ok t1].
  cbn [fst snd]. destruct (burst email rest t1). reflexivity.
Qed.

Lemma check_within email now t e :
  mapGet email t = Some e ->
  now - lastRequest e <= windowMs ->
  checkOTPRateLimit email now t =
  if maxRequests <=? count e then (false, t)
  else (true, mapSet email (mkEntry (count e + 1) now) t).
Proof.
  intros Hget Hin. unfold checkOTPRateLimit. rewrite Hget.
  assert ((windowMs <? now - lastRequest e) = false) as -> by lia.
  reflexivity.
Qed.

Lemma burst_from email times t e now0 :
  mapGet email t = Some e ->
  1 <= count e <= maxRequests ->
  now0 <= lastRequest e <= now0 + windowMs ->
  Forall (fun now => now0 <= now <= now0 + windowMs) times ->
  fst (burst email times t) =
    repeat true (Nat.min (List.length times) (Z.to_nat (maxRequests - count e))) ++
    repeat false (List.length times - Z.to_nat (maxRequests - count e)).
Proof.
  revert t e. induction times as [|now rest IH]; intros t e Hget Hc Hl Hall.
  - reflexivity.
  - inversion Hall as [|? ? Hnow Hrest]; subst.
    rewrite burst_cons, (check_within email now t e Hget) by lia.
    cbn [fst List.length]. unfold maxRequests in *.
    destruct (Z.leb_spec 5 (count e)) as [Hfull|Hroom]; cbn [fst snd].
    + rewrite (IH t e Hget Hc Hl Hrest).
      replace (Z.to_nat (5 - count e)) with 0%nat by lia.
      rewrite !Nat.min_0_r, !Nat.sub_0_r. reflexivity.
    + rewrite (IH _ (mkEntry (count e + 1) now) (mapGet_mapSet_same _ _ _));
        cbn [count lastRequest]; try assumption; try lia.
      replace (Z.to_nat (5 - count e)) with (S (Z.to_nat (5 - (count e + 1)))) by lia.
      reflexivity.
Qed.

(** X2: of the requests an email sends within fifteen minutes of its
    first one, the first five are let through and every later one is
    refused. *)
Theorem burst_allows_five email t now rest :
  mapGet email t = None ->
  Forall (fun later => now <= later <= now + windowMs) rest ->
  fst (burst email (now :: rest) t) =
    repeat true (Nat.min (S (List.length rest)) 5) ++
    repeat false (S (List.length rest) - 5).
Proof.
  intros Hnone Hrest. rewrite burst_cons. unfold checkOTPRateLimit. rewrite Hnone.
  cbn [fst snd List.length].
  rewrite (burst_from email rest _ (mkEntry 1 now) now (mapGet_mapSet_same _ _ _));
    cbn [count lastRequest]; unfold maxRequests, windowMs in *;
    try assumption; try lia.
  change (Z.to_nat (5 - 1)) with 4%nat.
  destruct (List.length rest) as [|[|[|[|n]]]]; reflexivity.
Qed.

Lemma burst_allows_five_witness :
  fst (burst "a@b.c" [0; 1; 2; 3; 4; 5; 900000] []) =
    [true; true; true; true; true; false; false].
Proof.
  exact (burst_allows_five "a@b.c" [] 0 [1; 2; 3; 4; 5; 900000] eq_refl
           ltac:(repeat constructor; unfold windowMs; lia)).
Defined.

Lemma burst_blocked email times t e :
  mapGet email t = Some e ->
  maxRequests <= count e ->
  Forall (fun now => now - lastRequest e <= windowMs) times ->
  burst email times t = (repeat false (List.length times), t).
Proof.
  intros Hget Hfull. induction times as [|now rest IH]; intros Hall; [reflexivity|].
  inversion Hall as [|? ? Hnow Hrest]; subst.
  rewrite burst_cons, (check_within email now t e Hget Hnow).
  assert ((maxRequests <=? count e) = true) as -> by lia.
  cbn [fst snd]. now rewrite (IH Hrest).
Qed.

(** X3: an email that has used its five requests is refused at every
    attempt made up to fifteen minutes after its last allowed request,
    the refusals leave the tracker as it is, and the first attempt after
    that is let through and starts a new count at 1. *)
Theorem blocked_until_window_passes email t e attempts now :
  mapGet email t = Some e ->
  maxRequests <= count e ->
  Forall (fun attempt => attempt - lastRequest e <= windowMs) attempts ->
  windowMs < now - lastRequest e ->
  let '(answers, t') := burst email attempts t in
  answers = repeat false (List.length attempts) /\
  t' = t /\
  fst (checkOTPRateLimit email now t') = true /\
  mapGet email (snd (checkOTPRateLimit email now t')) = Some (mkEntry 1 now).
Proof.
  intros Hget Hfull Hall Hlate.
  rewrite (burst_blocked email attempts t e Hget Hfull Hall).
  split; [reflexivity|]. split; [reflexivity|].
  unfold checkOTPRateLimit. rewrite Hget.
  assert ((windowMs <? now - lastRequest e) = true) as -> by lia.
  simpl. split; [reflexivity | apply mapGet_mapSet_same].
Qed.

Lemma blocked_until_window_passes_witness :
  let '(answers, t') := burst "a@b.c" [10; 900000] [("a@b.c", mkEntry 5 0)] in
  answers = repeat false 2 /\
  t' = [("a@b.c", mkEntry 5 0)] /\
  fst (checkOTPRateLimit "a@b.c" 900001 t') = true /\
  mapGet "a@b.c" (snd (checkOTPRateLimit "a@b.c" 900001 t')) =
    Some (mkEntry 1 900001).
Proof.
  exact (blocked_until_window_passes "a@b.c" [("a@b.c", mkEntry 5 0)] (mkEntry 5 0)
           [10; 900000] 900001 eq_refl ltac:(unfold maxRequests; simpl; lia)
           ltac:(repeat constructor; unfold windowMs; simpl; lia)
           ltac:(unfold windowMs; simpl; lia)).
Defined.

Lemma mapGet_cleanup s k t :
  NoDup (map fst t) ->
  mapGet k (cleanup s t) =
  match mapGet k t with
  | Some e => if windowMs <? s - lastRequest e then None else Some e
  | None => None
  end.
Proof.
  unfold cleanup. induction t as [|[k' e'] rest IH]; simpl; intros Hnd; [reflexivity|].
  inversion Hnd as [|? ? Hk' Hrest]; subst.
  destruct (String.eqb_spec k' k) as [->|Hne].
  - destruct (windowMs <? s - lastRequest e'); simpl.
    + rewrite (IH Hrest). apply mapGet_None in Hk'. now rewrite Hk'.
    + now rewrite String.eqb_refl.
  - destruct (windowMs <? s - lastRequest e'); simpl; [now apply IH|].
    apply String.eqb_neq in Hne. rewrite Hne. now apply IH.
Qed.

Lemma cleanup_mapSet s k email e t :
  NoDup (map fst t) ->
  (windowMs <? s - lastRequest e) = false ->
  mapGet k (mapSet email e (cleanup s t)) = mapGet k (cleanup s (mapSet email e t)).
Proof.
  intros Hnd Hfresh.
  rewrite (mapGet_cleanup s k (mapSet email e t)) by now apply mapSet_NoDup.
  destruct (String.eqb_spec k email) as [->|Hne].
  - now rewrite !mapGet_mapSet_same, Hfresh.
  - rewrite !mapGet_mapSet_other by assumption. now apply mapGet_cleanup.
Qed.

(** X4: a sweep that ran before a check changes neither the answer of
    the check nor what the tracker then holds for any email: sweeping
    first and checking afterwards gives the map that checking first and
    sweeping afterwards gives. *)
Theorem sweep_is_unobservable s email now t :
  NoDup (map fst t) ->
  s <= now ->
  fst (checkOTPRateLimit email now (cleanup s t)) =
    fst (checkOTPRateLimit email now t) /\
  forall k,
    mapGet k (snd (checkOTPRateLimit email now (cleanup s t))) =
    mapGet k (cleanup s (snd (checkOTPRateLimit email now t))).
Proof.
  intros Hnd Hs. unfold checkOTPRateLimit.
  rewrite (mapGet_cleanup s email t Hnd).
  assert (forall c, (windowMs <? s - lastRequest (mkEntry c now)) = false) as Hnew.
  { intros c. simpl. unfold windowMs. lia. }
  destruct (mapGet email t) as [e|] eqn:E.
  - destruct (Z.ltb_spec windowMs (s - lastRequest e)) as [Hgone|Hkept].
    + assert ((windowMs <? now - lastRequest e) = true) as -> by lia.
      simpl. split; [reflexivity|]. intros k. now apply cleanup_mapSet.
    + destruct (windowMs <? now - lastRequest e); simpl.
      * split; [reflexivity|]. intros k. now apply cleanup_mapSet.
      * destruct (maxRequests <=? count e); simpl.
        -- split; reflexivity.
        -- split; [reflexivity|]. intros k. now apply cleanup_mapSet.
  - simpl. split; [reflexivity|]. intros k. now apply cleanup_mapSet.
Qed.

Lemma sweep_is_unobservable_witness :
  fst (checkOTPRateLimit "a@b.c" 1000000 (cleanup 950000 [("a@b.c", mkEntry 5 0)])) =
    fst (checkOTPRateLimit "a@b.c" 1000000 [("a@b.c", mkEntry 5 0)]) /\
  forall k,
    mapGet k (snd (checkOTPRateLimit "a@b.c" 1000000
                     (cleanup 950000 [("a@b.c", mkEntry 5 0)]))) =
    mapGet k (cleanup 950000
                (snd (checkOTPRateLimit "a@b.c" 1000000 [("a@b.c", mkEntry 5 0)]))).
Proof.
  exact (sweep_is_unobservable 950000 "a@b.c" 1000000 [("a@b.c", mkEntry 5 0)]
           ltac:(repeat constructor; simpl; tauto) ltac:(lia)).
Defined.

End RateLimitFacts.

(** ** Who gets through *)

Lemma getCurrentUser_Some token db u :
  getCurrentUser token db = Some u ->
  exists doc,
    token = Some (User._id doc) /\ In doc (users db) /\
    User.isVerified doc = true /\
    auth_id u = User._id doc /\ auth_role u = User.role doc /\
    auth_email u = User.email doc.
Proof.
  unfold getCurrentUser, findUser. destruct token as [id|]; [|discriminate].
  destruct (find _ (users db)) as [doc|] eqn:E; [|discriminate].
  apply find_some in E. destruct E as [Hin Hid]. apply N.eqb_eq in Hid.
  destruct (User.isVerified doc) eqn:V; [|discriminate].
  intros [= <-]. exists doc. simpl. rewrite Hid. tauto.
Qed.

(** X5: the middleware lets a request through to a protected page only
    when its token names a stored, verified user, and to an
    administrator page only when that user is an administrator; user
    headers are attached on /api/ paths only and are those of that
    user. *)
Theorem middleware_lets_through pathname token db headers :
  Middleware.middleware pathname token db = Middleware.Next headers ->
  (Middleware.someStartsWith Middleware.protectedRoutes pathname = true ->
     exists doc, token = Some (User._id doc) /\ In doc (users db) /\
                 User.isVerified doc = true) /\
  (Middleware.someStartsWith Middleware.adminRoutes pathname = true ->
     exists doc, token = Some (User._id doc) /\ In doc (users db) /\
                 User.isVerified doc = true /\ User.role doc = "admin") /\
  (forall h, headers = Some h ->
     String.prefix "/api/" pathname = true /\
     exists doc, token = Some (User._id doc) /\ In doc (users db) /\
                 Middleware.x_user_id h = User._id doc /\
                 Middleware.x_user_role h = User.role doc).
Proof.
  unfold Middleware.middleware.
  set (P := Middleware.someStartsWith Middleware.protectedRoutes pathname).
  set (A := Middleware.someStartsWith Middleware.adminRoutes pathname).
  set (L := Middleware.someStartsWith Middleware.authRoutes pathname).
  clearbody P A L.
  destruct (getCurrentUser token db) as [u|] eqn:Hu;
    cbn [Middleware.isSome Middleware.notAdmin].
  - destruct (getCurrentUser_Some token db u Hu) as (doc & Ht & Hin & Hv & Hid & Hrole & _).
    destruct L, P, A, (String.eqb_spec (auth_role u) "admin") as [Hadmin|Hadmin],
      (String.prefix "/api/" pathname);
      cbn; intros H; try discriminate H; injection H as <-;
      (split; [|split]);
      try (intros; discriminate);
      try (intros _; exists doc; repeat split; congruence);
      intros h [= <-]; (split; [reflexivity|]); exists doc; cbn; tauto.
  - destruct L, P, A; cbn; intros H; try discriminate H; injection H as <-;
      repeat split; intros; discriminate.
Qed.

Lemma middleware_lets_through_witness :
  (Middleware.someStartsWith Middleware.protectedRoutes "/dashboard/admin/users" = true ->
     exists doc, Some 2%N = Some (User._id doc) /\ In doc (users Sample.db0) /\
                 User.isVerified doc = true) /\
  (Middleware.someStartsWith Middleware.adminRoutes "/dashboard/admin/users" = true ->
     exists doc, Some 2%N = Some (User._id doc) /\ In doc (users Sample.db0) /\
                 User.isVerified doc = true /\ User.role doc = "admin") /\
  (forall h, None = Some h ->
     String.prefix "/api/" "/dashboard/admin/users" = true /\
     exists doc, Some 2%N = Some (User._id doc) /\ In doc (users Sample.db0) /\
                 Middleware.x_user_id h = User._id doc /\
                 Middleware.x_user_role h = User.role doc).
Proof.
  exact (middleware_lets_through "/dashboard/admin/users" (Some 2%N) Sample.db0 None
           eq_refl).
Defined.

(** X6: a request without a verified user is redirected to /login from
    every protected page, with the page as the redirect parameter, and
    a verified user who is no administrator is sent from every
    administrator page to the user dashboard. *)
Theorem middleware_redirects pathname token db :
  (getCurrentUser token db = None ->
   Middleware.someStartsWith Middleware.protectedRoutes pathname = true ->
   Middleware.middleware pathname token db =
     Middleware.Redirect "/login" (Some pathname)) /\
  (forall u, getCurrentUser token db = Some u ->
   auth_role u <> "admin" ->
   Middleware.someStartsWith Middleware.adminRoutes pathname = true ->
   Middleware.middleware pathname token db =
     Middleware.Redirect "/dashboard/user" None).
Proof.
  unfold Middleware.middleware. split.
  - intros -> ->. cbn [Middleware.isSome]. now rewrite andb_false_r.
  - intros u -> Hrole ->. cbn [Middleware.isSome Middleware.notAdmin].
    apply String.eqb_neq in Hrole. rewrite Hrole.
    now destruct (Middleware.someStartsWith Middleware.authRoutes pathname),
      (Middleware.someStartsWith Middleware.protectedRoutes pathname).
Qed.

Lemma middleware_redirects_witness :
  Middleware.middleware "/create" None Sample.db0 =
    Middleware.Redirect "/login" (Some "/create") /\
  Middleware.middleware "/dashboard/admin" (Some 1%N) Sample.db0 =
    Middleware.Redirect "/dashboard/user" None.
Proof.
  split.
  - exact (proj1 (middleware_redirects "/create" None Sample.db0) eq_refl eq_refl).
  - exact (proj2 (middleware_redirects "/dashboard/admin" (Some 1%N) Sample.db0)
             Sample.aliceAuth eq_refl ltac:(discriminate) eq_refl).
Defined.

(** ** The voting methods of an issue document *)

Lemma removeFirst_absent u l : ~ In u l -> Issue.removeFirst u l = l.
Proof.
  induction l as [|x l IH]; simpl; intros Hn; [reflexivity|].
  destruct (N.eqb_spec x u) as [->|Hne]; [exfalso; apply Hn; now left|].
  f_equal. apply IH. tauto.
Qed.

Lemma removeFirst_snoc u l : ~ In u l -> Issue.removeFirst u (l ++ [u]) = l.
Proof.
  induction l as [|x l IH]; simpl; intros Hn; [now rewrite N.eqb_refl|].
  destruct (N.eqb_spec x u) as [->|Hne]; [exfalso; apply Hn; now left|].
  f_equal. apply IH. tauto.
Qed.

Lemma removeFirst_In x u l :
  NoDup l -> (In x (Issue.removeFirst u l) <-> x <> u /\ In x l).
Proof.
  induction l as [|y l IH]; simpl; intros Hnd; [tauto|].
  inversion Hnd as [|? ? Hy Hl]; subst.
  destruct (N.eqb_spec y u) as [->|Hne]; simpl.
  - split; [intros H; split; [congruence | now right] | intros [H1 [H2|H2]]; congruence].
  - rewrite (IH Hl). split; [intros [<-|H]; tauto | intros [H1 [H2|H2]]; tauto].
Qed.

Lemma removeFirst_NoDup u l : NoDup l -> NoDup (Issue.removeFirst u l).
Proof.
  induction l as [|y l IH]; simpl; intros Hnd; [constructor|].
  inversion Hnd as [|? ? Hy Hl]; subst.
  destruct (N.eqb y u); [assumption|].
  constructor; [|now apply IH].
  rewrite (removeFirst_In y u l Hl). tauto.
Qed.

Lemma removeFirst_length u l :
  In u l -> S (List.length (Issue.removeFirst u l)) = List.length l.
Proof.
  induction l as [|y l IH]; simpl; intros Hin; [contradiction|].
  destruct (N.eqb_spec y u) as [->|Hne]; [reflexivity|].
  simpl. f_equal. apply IH. destruct Hin; [contradiction | assumption].
Qed.

(** X7: [addVote] and [removeVote] keep the counter equal to the number
    of voters and the voters distinct; each reports whether it changed
    the document, and leaves it as it was when it did not. *)
Theorem vote_methods_keep_counter u d :
  Issue.votes d = Z.of_nat (List.length (Issue.votedBy d)) ->
  NoDup (Issue.votedBy d) ->
  let added := Issue.addVote u d in
  let removed := Issue.removeVote u d in
  (Issue.votes (snd added) = Z.of_nat (List.length (Issue.votedBy (snd added))) /\
   NoDup (Issue.votedBy (snd added)) /\ In u (Issue.votedBy (snd added)) /\
   (fst added = false -> snd added = d) /\
   (fst added = true <-> ~ In u (Issue.votedBy d))) /\
  (Issue.votes (snd removed) = Z.of_nat (List.length (Issue.votedBy (snd removed))) /\
   NoDup (Issue.votedBy (snd removed)) /\ ~ In u (Issue.votedBy (snd removed)) /\
   (fst removed = false -> snd removed = d) /\
   (fst removed = true <-> In u (Issue.votedBy d))).
Proof.
  intros Hv Hnd added removed. subst added removed.
  unfold Issue.addVote, Issue.removeVote.
  destruct (Issue.includes u (Issue.votedBy d)) eqn:E; simpl.
  - apply includes_In in E. split.
    + repeat split; try assumption; try discriminate; tauto.
    + pose proof (removeFirst_length u _ E) as Hlen.
      repeat split; try discriminate; try tauto.
      * lia.
      * now apply removeFirst_NoDup.
      * rewrite removeFirst_In by assumption. tauto.
  - apply includes_false in E. split.
    + rewrite length_app. simpl. repeat split; try discriminate; try tauto.
      * lia.
      * now apply NoDup_snoc.
      * apply in_app_iff. right. now left.
    + repeat split; try assumption; try discriminate; tauto.
Qed.

Lemma vote_methods_keep_counter_witness :
  let added := Issue.addVote 2%N Sample.issue2 in
  let removed := Issue.removeVote 2%N Sample.issue2 in
  (Issue.votes (snd added) = Z.of_nat (List.length (Issue.votedBy (snd added))) /\
   NoDup (Issue.votedBy (snd added)) /\ In 2%N (Issue.votedBy (snd added)) /\
   (fst added = false -> snd added = Sample.issue2) /\
   (fst added = true <-> ~ In 2%N (Issue.votedBy Sample.issue2))) /\
  (Issue.votes (snd removed) = Z.of_nat (List.length (Issue.votedBy (snd removed))) /\
   NoDup (Issue.votedBy (snd removed)) /\ ~ In 2%N (Issue.votedBy (snd removed)) /\
   (fst removed = false -> snd removed = Sample.issue2) /\
   (fst removed = true <-> In 2%N (Issue.votedBy Sample.issue2))).
Proof.
  exact (vote_methods_keep_counter 2%N Sample.issue2 eq_refl
           ltac:(repeat constructor; simpl; tauto)).
Defined.

(** X8: for a user who has not voted, [addVote] followed by [removeVote]
    gives the document back unchanged, and a second [addVote] changes
    nothing. *)
Theorem addVote_removeVote_round_trip u d :
  ~ In u (Issue.votedBy d) ->
  Issue.removeVote u (snd (Issue.addVote u d)) = (true, d) /\
  Issue.addVote u (snd (Issue.addVote u d)) = (false, snd (Issue.addVote u d)).
Proof.
  intros Hout. apply includes_false in Hout as Hinc.
  assert (Issue.includes u (Issue.votedBy d ++ [u]) = true) as Hin.
  { apply includes_In. apply in_app_iff. right. now left. }
  destruct d. cbn in Hinc, Hin, Hout.
  unfold Issue.addVote, Issue.removeVote. cbn. rewrite Hinc. cbn. rewrite Hin.
  split; [|reflexivity].
  rewrite (removeFirst_snoc _ _ Hout). f_equal.
  unfold Issue.set_votes, Issue.set_votedBy. cbn. f_equal. lia.
Qed.

Lemma addVote_removeVote_round_trip_witness :
  Issue.removeVote 2%N (snd (Issue.addVote 2%N Sample.issue2)) = (true, Sample.issue2) /\
  Issue.addVote 2%N (snd (Issue.addVote 2%N Sample.issue2)) =
    (false, snd (Issue.addVote 2%N Sample.issue2)).
Proof.
  exact (addVote_removeVote_round_trip 2%N Sample.issue2
           ltac:(simpl; intros [H|[]]; discriminate H)).
Defined.

(** ** The ledger and the counter *)

Lemma filter_issue_voters i coll :
  uniquePairs coll ->
  NoDup (map Vote.userId (filter (fun v => N.eqb (Vote.issueId v) i) coll)) /\
  forall u, In u (map Vote.userId (filter (fun v => N.eqb (Vote.issueId v) i) coll)) <->
            Vote.hasUserVoted u i coll = true.
Proof.
  unfold uniquePairs. intros Hnd. split.
  - induction coll as [|v l IH]; simpl; [constructor|].
    simpl in Hnd. inversion Hnd as [|? ? Hv Hl]; subst.
    destruct (N.eqb_spec (Vote.issueId v) i) as [E|E]; simpl; [|now apply IH].
    constructor; [|now apply IH].
    intros Hin. apply Hv. apply in_map_iff in Hin. destruct Hin as [w [Hw Hin]].
    apply filter_In in Hin. destruct Hin as [Hin Hi]. apply N.eqb_eq in Hi.
    apply in_map_iff. exists w. unfold pairOf. split; [congruence | assumption].
  - intros u. rewrite hasUserVoted_In, !in_map_iff. split.
    + intros [v [Hu Hin]]. apply filter_In in Hin. destruct Hin as [Hin Hi].
      apply N.eqb_eq in Hi. exists v. unfold pairOf. split; [congruence | assumption].
    + intros [v [Hp Hin]]. unfold pairOf in Hp. injection Hp as Hu Hi.
      exists v. split; [assumption|]. apply filter_In. split; [assumption|].
      now apply N.eqb_eq.
Qed.

Lemma ledger_count_consistent db d :
  consistent db -> In d (issues db) ->
  Vote.getIssueVoteCount (Issue._id d) (ledger db) = Issue.votes d.
Proof.
  intros Hc Hin.
  pose proof (cache_ok db Hc) as Hcache. rewrite Forall_forall in Hcache.
  destruct (Hcache d Hin) as [Hv [Hnd Hmem]].
  destruct (filter_issue_voters (Issue._id d) (ledger db) (pairs_unique db Hc))
    as [Hnd' Hmem'].
  unfold Vote.getIssueVoteCount. rewrite Hv. f_equal.
  rewrite <- (length_map Vote.userId).
  apply Permutation_length. apply NoDup_Permutation; try assumption.
  intros u. rewrite Hmem', Hmem. tauto.
Qed.

(** X9: in every reachable store the counter of each issue is the number
    of votes the ledger holds for it: [getIssueVoteCount] on the ledger
    returns [votes]. *)
Theorem ledger_count_is_counter db d :
  reachable db -> In d (issues db) ->
  Vote.getIssueVoteCount (Issue._id d) (ledger db) = Issue.votes d.
Proof.
  intros Hreach. apply ledger_count_consistent. now apply reachable_consistent.
Qed.

Lemma ledger_count_is_counter_witness :
  Vote.getIssueVoteCount (Issue._id Sample.issue2) (ledger Sample.db2) =
    Issue.votes Sample.issue2.
Proof.
  exact (ledger_count_is_counter Sample.db2 Sample.issue2 reachable_db2
           ltac:(vm_compute; tauto)).
Defined.

(** X10: after a toggle, the vote-status route reports for the same
    user and issue the counter and the hasVoted flag the toggle
    answered with. *)
Theorem status_after_toggle db token user i d newId now :
  reachable db ->
  requireAuth token db = Ok user ->
  Issue.findById i (issues db) = Some d ->
  let toggled := VoteRoute.POST alone token (Some i) newId now db in
  exists votes hasVoted d',
    data (fst toggled) = VoteData i votes hasVoted d' /\
    VoteRoute.GET token (Some i) (snd toggled) =
      mkResponse 200 true "Vote status retrieved successfully"
        (VoteStatus i hasVoted votes).
Proof.
  intros Hreach Hauth Hfind toggled. subst toggled.
  assert (reachable (snd (VoteRoute.POST alone token (Some i) newId now db))) as Hreach'.
  { apply (reach_step db); [assumption | apply step_toggle]. }
  apply reachable_consistent in Hreach'.
  rewrite (POST_vote_alone token user i d newId now db Hauth Hfind) in *.
  cbn [fst snd] in *.
  pose proof (findById_afterToggle (auth_id user) i newId now db d Hfind) as Hfind'.
  set (d' := match Vote.findOne (auth_id user) i (ledger db) with
             | Some _ => unvoted (auth_id user) now d
             | None => voted (auth_id user) now d
             end) in *.
  exists (Issue.votes d'), (Issue.includes (auth_id user) (Issue.votedBy d')), d'.
  split; [reflexivity|].
  unfold VoteRoute.GET.
  rewrite (requireAuth_users token db) by apply afterToggle_users.
  rewrite Hauth. unfold Ok. rewrite Hfind'. f_equal. f_equal.
  destruct (stored_cache_ok _ i d' Hreach' Hfind') as [Hid [_ [_ Hmem]]].
  apply eq_true_iff_eq. rewrite includes_In, Hmem, Hid. tauto.
Qed.

Lemma status_after_toggle_witness :
  let toggled :=
    VoteRoute.POST alone (Some 1%N) (Some 100%N) 500%N 2000 Sample.db1 in
  exists votes hasVoted d',
    data (fst toggled) = VoteData 100%N votes hasVoted d' /\
    VoteRoute.GET (Some 1%N) (Some 100%N) (snd toggled) =
      mkResponse 200 true "Vote status retrieved successfully"
        (VoteStatus 100%N hasVoted votes).
Proof.
  exact (status_after_toggle Sample.db1 (Some 1%N) Sample.aliceAuth 100%N Sample.issue1
           500%N 2000 reachable_db1 eq_refl eq_refl).
Defined.

Lemma nodup_length_le (l : list ObjectId) :
  (List.length (nodup N.eq_dec l) <= List.length l)%nat.
Proof.
  induction l as [|x l IH]; simpl; [lia|].
  destruct (in_dec N.eq_dec x l); simpl; lia.
Qed.

Lemma nodup_constant (u : ObjectId) l :
  l <> [] -> (forall x, In x l -> x = u) -> nodup N.eq_dec l = [u].
Proof.
  induction l as [|x l IH]; intros Hne Hall; [congruence|].
  simpl. assert (x = u) as -> by (apply Hall; now left).
  destruct (in_dec N.eq_dec u l) as [Hin|Hout].
  - apply IH; [intros ->; contradiction|]. intros y Hy. apply Hall. now right.
  - destruct l as [|y l']; [reflexivity|].
    exfalso. apply Hout. left. apply Hall. right. now left.
Qed.

(** X11: the voting statistics never count more voters or more issues
    than votes; scoped to one voter, under the unique index, every vote
    is for a different issue and the voter is the only one counted. *)
Theorem voting_stats_bounds coll :
  uniquePairs coll ->
  let all := Vote.getVotingStats None coll in
  0 <= Vote.uniqueVoters all <= Vote.totalVotes all /\
  0 <= Vote.uniqueIssues all <= Vote.totalVotes all /\
  Vote.totalVotes all = Z.of_nat (List.length coll) /\
  forall u,
    let own := Vote.getVotingStats (Some u) coll in
    Vote.uniqueIssues own = Vote.totalVotes own /\
    Vote.uniqueVoters own = (if Vote.totalVotes own =? 0 then 0 else 1).
Proof.
  intros Hu. cbn zeta. split; [|split; [|split]].
  - unfold Vote.getVotingStats. destruct coll as [|v l]; [simpl; lia|].
    cbn [Vote.uniqueVoters Vote.totalVotes].
    pose proof (nodup_length_le (map Vote.userId (v :: l))) as H.
    rewrite length_map in H. lia.
  - unfold Vote.getVotingStats. destruct coll as [|v l]; [simpl; lia|].
    cbn [Vote.uniqueIssues Vote.totalVotes].
    pose proof (nodup_length_le (map Vote.issueId (v :: l))) as H.
    rewrite length_map in H. lia.
  - unfold Vote.getVotingStats. destruct coll; reflexivity.
  - intros u. unfold Vote.getVotingStats.
    set (own := filter (fun v => N.eqb (Vote.userId v) u) coll).
    assert (NoDup (map Vote.issueId own)) as Hnd.
    { unfold own, uniquePairs in *. clear own.
      induction coll as [|v l IH]; simpl; [constructor|].
      simpl in Hu. inversion Hu as [|? ? Hv Hl]; subst.
      destruct (N.eqb_spec (Vote.userId v) u) as [E|E]; simpl; [|now apply IH].
      constructor; [|now apply IH].
      intros Hin. apply Hv. apply in_map_iff in Hin. destruct Hin as [w [Hw Hin]].
      apply filter_In in Hin. destruct Hin as [Hin Hi]. apply N.eqb_eq in Hi.
      apply in_map_iff. exists w. unfold pairOf. split; [congruence | assumption]. }
    assert (forall x, In x (map Vote.userId own) -> x = u) as Hall.
    { intros x Hx. apply in_map_iff in Hx. destruct Hx as [w [<- Hin]].
      apply filter_In in Hin. now apply N.eqb_eq. }
    destruct own as [|v l] eqn:E; [split; reflexivity|].
    cbn [Vote.uniqueIssues Vote.totalVotes Vote.uniqueVoters].
    rewrite (nodup_fixed_point N.eq_dec Hnd), length_map.
    rewrite (nodup_constant u (map Vote.userId (v :: l))) by (try discriminate; assumption).
    split; [reflexivity|]. simpl List.length.
    destruct (Z.eqb_spec (Z.of_nat (S (List.length l))) 0); [lia | reflexivity].
Qed.

Lemma voting_stats_bounds_witness :
  let all := Vote.getVotingStats None (ledger Sample.db2) in
  0 <= Vote.uniqueVoters all <= Vote.totalVotes all /\
  0 <= Vote.uniqueIssues all <= Vote.totalVotes all /\
  Vote.totalVotes all = Z.of_nat (List.length (ledger Sample.db2)) /\
  forall u,
    let own := Vote.getVotingStats (Some u) (ledger Sample.db2) in
    Vote.uniqueIssues own = Vote.totalVotes own /\
    Vote.uniqueVoters own = (if Vote.totalVotes own =? 0 then 0 else 1).
Proof.
  exact (voting_stats_bounds (ledger Sample.db2)
           ltac:(vm_compute; repeat constructor; simpl; tauto)).
Defined.

(** ** Requests that are turned away *)

Lemma requireAuth_None token db :
  getCurrentUser token db = None -> requireAuth token db = Throw AuthenticationRequired.
Proof. unfold requireAuth. now intros ->. Qed.

(** X12: a request without a verified user behind its token is answered
    401 by every route that requires authentication, and changes
    nothing: no issue, no vote, no e-mail. *)
Theorem unauthenticated_changes_nothing token db :
  getCurrentUser token db = None ->
  forall race id body newId now,
    VoteRoute.POST race token id newId now db =
      (failure 401 "Authentication required", db) /\
    VoteRoute.GET token id db = failure 401 "Authentication required" /\
    IssuesRoute.POST token body newId now db =
      (failure 401 "Authentication required", db) /\
    IssueRoute.PUT token id body now db =
      (failure 401 "Authentication required", db, []) /\
    IssueRoute.DELETE token id db = (failure 401 "Authentication required", db).
Proof.
  intros Hnone race id body newId now. apply requireAuth_None in Hnone.
  unfold VoteRoute.POST, VoteRoute.GET, IssuesRoute.POST, IssueRoute.PUT,
    IssueRoute.DELETE.
  rewrite Hnone. unfold Throw. unravel. repeat split; reflexivity.
Qed.

Lemma unauthenticated_changes_nothing_witness :
  VoteRoute.POST alone None (Some 100%N) 500%N 2000 Sample.db2 =
    (failure 401 "Authentication required", Sample.db2) /\
  VoteRoute.GET None (Some 100%N) Sample.db2 = failure 401 "Authentication required" /\
  IssuesRoute.POST None (Some Visitor.retitle) 500%N 2000 Sample.db2 =
    (failure 401 "Authentication required", Sample.db2) /\
  IssueRoute.PUT None (Some 100%N) (Some Visitor.retitle) 2000 Sample.db2 =
    (failure 401 "Authentication required", Sample.db2, []) /\
  IssueRoute.DELETE None (Some 100%N) Sample.db2 =
    (failure 401 "Authentication required", Sample.db2).
Proof.
  exact (unauthenticated_changes_nothing None Sample.db2 eq_refl alone (Some 100%N)
           (Some Visitor.retitle) 500%N 2000).
Defined.

(** X13: a toggle that runs alone and is not answered 200 has written
    nothing; one that is answered 200 has moved the ledger by exactly
    one vote. *)
Theorem failed_toggle_writes_nothing token id newId now db :
  let r := VoteRoute.POST alone token id newId now db in
  (httpStatus (fst r) <> 200 -> snd r = db) /\
  (httpStatus (fst r) = 200 ->
   users (snd r) = users db /\
   (List.length (ledger (snd r)) = S (List.length (ledger db)) \/
    S (List.length (ledger (snd r))) = List.length (ledger db))).
Proof.
  cbn zeta.
  destruct (requireAuth token db) as [e|user] eqn:Hauth.
  { unfold VoteRoute.POST. rewrite Hauth. cbn [fst snd].
    split; [reflexivity|]. destruct e; discriminate. }
  destruct id as [i|].
  2:{ unfold VoteRoute.POST. rewrite Hauth. cbn [fst snd].
      split; [reflexivity | discriminate]. }
  destruct (Issue.findById i (issues db)) as [d|] eqn:Hfind.
  2:{ unfold VoteRoute.POST. rewrite Hauth, Hfind. cbn [fst snd].
      split; [reflexivity | discriminate]. }
  rewrite (POST_vote_alone token user i d newId now db Hauth Hfind). cbn [fst snd].
  split; [intros H; exfalso; apply H; destruct (Vote.findOne _ _ _); reflexivity|].
  intros _. unfold afterToggle.
  destruct (Vote.findOne (auth_id user) i (ledger db)) as [v|] eqn:Hone; cbn [users ledger].
  - split; [reflexivity|]. right.
    unfold Vote.findOne in Hone. clear -Hone.
    induction (ledger db) as [|x l IH]; simpl in *; [discriminate|].
    destruct (Vote.samePair (auth_id user) i x); [reflexivity|].
    simpl. f_equal. now apply IH.
  - split; [reflexivity|]. left. rewrite length_app. simpl. lia.
Qed.

(** ** The update route *)

Lemma findUser_id id db u : findUser id db = Some u -> User._id u = id.
Proof.
  unfold findUser. intros H. apply find_some in H. now apply N.eqb_eq.
Qed.

(** Every way through the update route: a refusal that writes nothing,
    or the save of the edited copy. *)
Lemma PUT_outcome token id body now db :
  (exists code msg,
     code <> 200 /\
     IssueRoute.PUT token id body now db = (failure code msg, db, [])) \/
  exists user i b stored reporter doc errs written coll,
    requireAuth token db = Ok user /\ id = Some i /\ body = Some b /\
    Issue.findById i (issues db) = Some stored /\
    findUser (Issue.reportedBy stored) db = Some reporter /\
    (N.eqb (User._id reporter) (auth_id user) ||
     String.eqb (auth_role user) "admin" = true) /\
    (JS.truthy (JS.prop b "status") || JS.truthy (JS.prop b "assignedTo") = true ->
     String.eqb (auth_role user) "admin" = true) /\
    IssueRoute.updateAllowedFields (N.eqb (User._id reporter) (auth_id user))
      (String.eqb (auth_role user) "admin") b stored = Ok (doc, errs) /\
    IssueRoute.save errs now stored doc (issues db) = Ok (written, coll) /\
    IssueRoute.PUT token id body now db =
      (mkResponse 200 true "Issue updated successfully" (IssueData written),
       setIssues coll db,
       IssueRoute.statusEmails (JS.prop b "status") (Issue.status stored) reporter
         written).
Proof.
  unfold IssueRoute.PUT.
  destruct (requireAuth token db) as [e|user]; unravel.
  { left. destruct e; cbn; eexists _, _; (split; [|reflexivity]); discriminate. }
  destruct id as [i|].
  2:{ left. eexists _, _; (split; [|reflexivity]); discriminate. }
  destruct body as [b|]; unravel.
  2:{ left. cbn. eexists _, _; (split; [|reflexivity]); discriminate. }
  destruct (JS.destructurable b); unravel.
  2:{ left. cbn. eexists _, _; (split; [|reflexivity]); discriminate. }
  destruct (Issue.findById i (issues db)) as [stored|] eqn:Hfind.
  2:{ left. eexists _, _; (split; [|reflexivity]); discriminate. }
  destruct (findUser (Issue.reportedBy stored) db) as [reporter|] eqn:Hrep; unravel.
  2:{ left. cbn. eexists _, _; (split; [|reflexivity]); discriminate. }
  destruct (negb (N.eqb (User._id reporter) (auth_id user)) &&
            negb (String.eqb (auth_role user) "admin")) eqn:Hperm.
  { left. eexists _, _; (split; [|reflexivity]); discriminate. }
  destruct ((JS.truthy (JS.prop b "status") || JS.truthy (JS.prop b "assignedTo")) &&
            negb (String.eqb (auth_role user) "admin")) eqn:Hadm.
  { left. eexists _, _; (split; [|reflexivity]); discriminate. }
  destruct (IssueRoute.updateAllowedFields _ _ b stored) as [e|[doc errs]] eqn:Hupd; unravel.
  { left. destruct e; cbn; eexists _, _; (split; [|reflexivity]); discriminate. }
  destruct (IssueRoute.save errs now stored doc (issues db)) as [e|[written coll]] eqn:Hsave;
    unravel.
  { left. destruct e; cbn; eexists _, _; (split; [|reflexivity]); discriminate. }
  right. exists user, i, b, stored, reporter, doc, errs, written, coll.
  repeat split; try reflexivity; try assumption.
  - destruct (N.eqb _ _), (String.eqb (auth_role user) "admin"); try reflexivity; discriminate.
  - intros Ht. rewrite Ht in Hadm.
    destruct (String.eqb (auth_role user) "admin"); [reflexivity | discriminate].
Qed.

(** What an update keeps of an issue, for any observation [f] of the
    document that the setters in play leave alone. *)
Section Kept.

Context {A : Type} (f : Issue.t -> A).

Lemma assignTrimmed_keeps set go v d d' :
  (forall s x, f (set s x) = f x) ->
  IssueRoute.assignTrimmed set go v d = Ok d' -> f d' = f d.
Proof.
  intros Hset. unfold IssueRoute.assignTrimmed, IssueRoute.callTrim.
  destruct go; [|now intros [= <-]].
  destruct v; simpl; try discriminate. intros [= <-]. apply Hset.
Qed.

Lemma assignEnum_keeps path set go v acc :
  (go = true -> forall s x, f (set s x) = f x) ->
  f (fst (IssueRoute.assignEnum path set go v acc)) = f (fst acc).
Proof.
  intros Hset. unfold IssueRoute.assignEnum.
  destruct go; [|reflexivity].
  destruct (IssueRoute.castEnum path v) as [e|[s|]]; simpl;
    [reflexivity | now apply Hset | reflexivity].
Qed.

Lemma assignAssignee_keeps isAdmin v acc :
  (isAdmin = true -> forall a x, f (Issue.set_assignedTo a x) = f x) ->
  f (fst (IssueRoute.assignAssignee isAdmin v acc)) = f (fst acc).
Proof.
  intros Hset. unfold IssueRoute.assignAssignee.
  destruct v; try reflexivity; destruct isAdmin; try reflexivity;
    match goal with
    | |- context [JS.truthy ?x] => destruct (JS.truthy x)
    end;
    try (destruct (IssueRoute.castObjectId _)); simpl; try reflexivity;
    now apply Hset.
Qed.

Hypothesis keeps_title : forall s x, f (Issue.set_title s x) = f x.
Hypothesis keeps_description : forall s x, f (Issue.set_description s x) = f x.
Hypothesis keeps_category : forall s x, f (Issue.set_category s x) = f x.
Hypothesis keeps_priority : forall s x, f (Issue.set_priority s x) = f x.
Hypothesis keeps_updatedAt : forall t x, f (Issue.set_updatedAt t x) = f x.

Lemma updateAllowedFields_keeps isOwner isAdmin body issue doc errs :
  (isAdmin = true ->
   (forall s x, f (Issue.set_status s x) = f x) /\
   (forall a x, f (Issue.set_assignedTo a x) = f x)) ->
  IssueRoute.updateAllowedFields isOwner isAdmin body issue = Ok (doc, errs) ->
  f doc = f issue.
Proof.
  intros Hadmin. unfold IssueRoute.updateAllowedFields, bind.
  destruct (IssueRoute.assignTrimmed Issue.set_title _ _ issue) as [e|d1] eqn:E1;
    [discriminate|].
  destruct (IssueRoute.assignTrimmed Issue.set_description _ _ d1) as [e|d2] eqn:E2;
    [discriminate|].
  intros H. unfold Ok in H. injection H as H.
  change doc with (fst (doc, errs)). rewrite <- H.
  rewrite assignAssignee_keeps by (intros Ha; now apply Hadmin).
  rewrite assignEnum_keeps.
  2:{ intros Hgo. apply andb_true_iff in Hgo. now apply Hadmin. }
  rewrite !assignEnum_keeps by (intros _ ? ?; cbv beta; auto).
  simpl.
  rewrite (assignTrimmed_keeps _ _ _ _ _ keeps_description E2).
  apply (assignTrimmed_keeps _ _ _ _ _ keeps_title E1).
Qed.

Lemma save_keeps errs now stored doc coll written coll' :
  Issue.status doc = Issue.status stored \/
  (forall r x, f (Issue.set_resolvedAt r x) = f x) ->
  IssueRoute.save errs now stored doc coll = Ok (written, coll') ->
  f written = f doc.
Proof.
  intros Hres. unfold IssueRoute.save.
  destruct (errs ++ _); [|discriminate].
  rewrite isModified_status.
  assert (f (Issue.preSave (negb (String.eqb (Issue.status stored) (Issue.status doc)))
               now doc) = f doc) as Hhook.
  { destruct Hres as [->|Hres]; [now rewrite String.eqb_refl|].
    unfold Issue.preSave.
    destruct (negb _); [|reflexivity].
    destruct (_ && _); [apply Hres|].
    destruct (negb _); [apply Hres | reflexivity]. }
  destruct (filter _ IssueRoute.assignablePaths);
    intros H; injection H as Hw Hc; subst written; [|rewrite keeps_updatedAt]; exact Hhook.
Qed.

Lemma map_updateOne_same i w coll stored :
  Issue.findById i coll = Some stored -> f w = f stored ->
  map f (Issue.updateOne i (fun _ => w) coll) = map f coll.
Proof.
  unfold Issue.findById. intros Hfind Hw.
  induction coll as [|x l IH]; simpl in *; [discriminate|].
  destruct (N.eqb (Issue._id x) i); simpl.
  - injection Hfind as ->. now rewrite Hw.
  - f_equal. now apply IH.
Qed.

End Kept.

Lemma save_updates errs now stored doc coll written coll' :
  IssueRoute.save errs now stored doc coll = Ok (written, coll') ->
  coll' = Issue.updateOne (Issue._id stored) (fun _ => written) coll.
Proof.
  unfold IssueRoute.save. destruct (errs ++ _); [|discriminate].
  destruct (filter _ IssueRoute.assignablePaths); intros H;
    injection H as Hw Hc; subst; reflexivity.
Qed.

(** The update leaves [f] of every stored issue alone when no setter it
    may run reaches [f]: for a caller who is no administrator, these are
    the setters of title, description, category and priority. *)
Lemma PUT_keeps {A : Type} (f : Issue.t -> A) token id body now db :
  (forall s x, f (Issue.set_title s x) = f x) ->
  (forall s x, f (Issue.set_description s x) = f x) ->
  (forall s x, f (Issue.set_category s x) = f x) ->
  (forall s x, f (Issue.set_priority s x) = f x) ->
  (forall t x, f (Issue.set_updatedAt t x) = f x) ->
  (forall user, requireAuth token db = Ok user ->
     String.eqb (auth_role user) "admin" = false) \/
  ((forall s x, f (Issue.set_status s x) = f x) /\
   (forall a x, f (Issue.set_assignedTo a x) = f x) /\
   (forall r x, f (Issue.set_resolvedAt r x) = f x)) ->
  map f (issues (snd (fst (IssueRoute.PUT token id body now db)))) = map f (issues db).
Proof.
  intros H1 H2 H3 H4 H5 Hadm.
  destruct (PUT_outcome token id body now db) as [(code & msg & _ & ->)|H];
    [reflexivity|].
  destruct H as (user & i & b & stored & reporter & doc & errs & written & coll &
                 Hauth & -> & -> & Hfind & Hrep & Hperm & Honly & Hupd & Hsave & ->).
  cbn [fst snd issues setIssues].
  rewrite (save_updates _ _ _ _ _ _ _ Hsave).
  apply findById_In in Hfind as Hin. destruct Hin as [_ ->].
  apply (map_updateOne_same f _ _ _ stored Hfind).
  destruct Hadm as [Hno|(Hs & Ha & Hr)].
  - rewrite (Hno user Hauth) in *.
    assert (f doc = f stored) as Hdoc.
    { apply (updateAllowedFields_keeps f H1 H2 H3 H4) with (2 := Hupd). discriminate. }
    assert (Issue.status doc = Issue.status stored) as Hst.
    { apply (updateAllowedFields_keeps Issue.status) with (6 := Hupd);
        try reflexivity. discriminate. }
    rewrite <- Hdoc. apply (save_keeps f H5 _ _ _ _ _ _ _ (or_introl Hst) Hsave).
  - transitivity (f doc).
    + apply (save_keeps f H5 _ _ _ _ _ _ _ (or_intror Hr) Hsave).
    + apply (updateAllowedFields_keeps f H1 H2 H3 H4 _ _ _ _ _ _ (fun _ => conj Hs Ha) Hupd).
Qed.

Lemma PUT_users_ledger token id body now db :
  users (snd (fst (IssueRoute.PUT token id body now db))) = users db /\
  ledger (snd (fst (IssueRoute.PUT token id body now db))) = ledger db.
Proof.
  destruct (PUT_outcome token id body now db) as [(code & msg & _ & ->)|H];
    [split; reflexivity|].
  destruct H as (user & i & b & stored & reporter & doc & errs & written & coll &
                 _ & _ & _ & _ & _ & _ & _ & _ & _ & ->).
  split; reflexivity.
Qed.

(** X14: an update that is not answered 200 writes nothing and sends no
    e-mail; whatever the answer, the update touches neither the users
    nor the ledger, keeps the issues in their order, and leaves the id,
    the reporter, the coordinates, the address, the images, the comments
    and the creation time of every issue as they were. *)
Theorem update_keeps_fixed_fields token id body now db :
  let r := IssueRoute.PUT token id body now db in
  (httpStatus (fst (fst r)) <> 200 -> snd (fst r) = db /\ snd r = []) /\
  users (snd (fst r)) = users db /\
  ledger (snd (fst r)) = ledger db /\
  map fixedFields (issues (snd (fst r))) = map fixedFields (issues db).
Proof.
  cbn zeta. split; [|split; [|split]].
  - destruct (PUT_outcome token id body now db) as [(code & msg & _ & ->)|H];
      [split; reflexivity|].
    destruct H as (user & i & b & stored & reporter & doc & errs & written & coll &
                   _ & _ & _ & _ & _ & _ & _ & _ & _ & ->).
    intros H. exfalso. now apply H.
  - apply PUT_users_ledger.
  - apply PUT_users_ledger.
  - apply PUT_keeps; try reflexivity. right. repeat split.
Qed.

(** X15: a caller who is not an administrator cannot change the status,
    the assignee or the resolution time of any issue, and triggers no
    status e-mail. *)
Theorem only_admins_change_status token id body now db user :
  requireAuth token db = Ok user ->
  auth_role user <> "admin" ->
  let r := IssueRoute.PUT token id body now db in
  map adminFields (issues (snd (fst r))) = map adminFields (issues db) /\
  snd r = [].
Proof.
  intros Hauth Hrole. cbn zeta.
  apply String.eqb_neq in Hrole. split.
  - apply PUT_keeps; try reflexivity. left. intros u Hu.
    assert (u = user) as -> by (unfold Ok in *; congruence). assumption.
  - destruct (PUT_outcome token id body now db) as [(code & msg & _ & ->)|H];
      [reflexivity|].
    destruct H as (u & i & b & stored & reporter & doc & errs & written & coll &
                   Hu & _ & _ & _ & _ & _ & Honly & _ & _ & ->).
    assert (u = user) as -> by (unfold Ok in *; congruence).
    cbn [snd]. unfold IssueRoute.statusEmails.
    destruct (JS.truthy (JS.prop b "status")) eqn:Ht.
    + rewrite Honly in Hrole by reflexivity. discriminate.
    + destruct (JS.prop b "status"); reflexivity.
Qed.

Lemma only_admins_change_status_witness :
  let r :=
    IssueRoute.PUT (Some 1%N) (Some 100%N) (Some Visitor.retitle) 4000 Sample.db2 in
  map adminFields (issues (snd (fst r))) = map adminFields (issues Sample.db2) /\
  snd r = [].
Proof.
  exact (only_admins_change_status (Some 1%N) (Some 100%N) (Some Visitor.retitle) 4000
           Sample.db2 Sample.aliceAuth eq_refl ltac:(discriminate)).
Defined.

(** X16: a caller who is neither the reporter of an issue nor an
    administrator can neither update nor delete it: the update writes
    nothing and is not answered 200, the deletion is answered 403. *)
Theorem strangers_cannot_write token i body now db user stored :
  requireAuth token db = Ok user ->
  auth_role user <> "admin" ->
  Issue.findById i (issues db) = Some stored ->
  Issue.reportedBy stored <> auth_id user ->
  (exists code msg,
     code <> 200 /\
     IssueRoute.PUT token (Some i) body now db = (failure code msg, db, [])) /\
  IssueRoute.DELETE token (Some i) db = (failure 403 "Permission denied", db).
Proof.
  intros Hauth Hrole Hfind Hrep.
  apply String.eqb_neq in Hrole. split.
  - destruct (PUT_outcome token (Some i) body now db) as [H|H]; [exact H|].
    destruct H as (u & j & b & stored' & reporter & doc & errs & written & coll &
                   Hu & Hj & _ & Hfind' & Hreporter & Hperm & _).
    exfalso.
    assert (u = user) as -> by (unfold Ok in *; congruence).
    injection Hj as <-.
    assert (stored' = stored) as -> by congruence.
    apply findUser_id in Hreporter. rewrite Hreporter, Hrole, orb_false_r in Hperm.
    apply N.eqb_eq in Hperm. contradiction.
  - unfold IssueRoute.DELETE. rewrite Hauth. unfold Ok. rewrite Hfind, Hrole.
    apply N.eqb_neq in Hrep. now rewrite Hrep.
Qed.

Lemma strangers_cannot_write_witness :
  (exists code msg,
     code <> 200 /\
     IssueRoute.PUT (Some 3%N) (Some 100%N) (Some Visitor.retitle) 4000 Visitor.db =
       (failure code msg, Visitor.db, [])) /\
  IssueRoute.DELETE (Some 3%N) (Some 100%N) Visitor.db =
    (failure 403 "Permission denied", Visitor.db).
Proof.
  assert (Issue.findById 100%N (issues Visitor.db) = Some Sample.issue2) as Hfind
    by (vm_compute; reflexivity).
  exact (strangers_cannot_write (Some 3%N) 100%N (Some Visitor.retitle) 4000 Visitor.db
           Visitor.bobAuth Sample.issue2 eq_refl ltac:(discriminate) Hfind
           ltac:(discriminate)).
Defined.

(** ** Status e-mails *)

Lemma updateAllowedFields_status isOwner isAdmin body issue doc errs :
  IssueRoute.updateAllowedFields isOwner isAdmin body issue = Ok (doc, errs) ->
  Issue.status doc =
    if JS.truthy (JS.prop body "status") && isAdmin then
      match IssueRoute.castEnum "status" (JS.prop body "status") with
      | inr (Some s) => s
      | _ => Issue.status issue
      end
    else Issue.status issue.
Proof.
  unfold IssueRoute.updateAllowedFields, bind.
  destruct (IssueRoute.assignTrimmed Issue.set_title _ _ issue) as [e|d1] eqn:E1;
    [discriminate|].
  destruct (IssueRoute.assignTrimmed Issue.set_description _ _ d1) as [e|d2] eqn:E2;
    [discriminate|].
  intros H. unfold Ok in H. injection H as H.
  change doc with (fst (doc, errs)). rewrite <- H.
  rewrite (assignAssignee_keeps Issue.status) by reflexivity.
  assert (Issue.status d2 = Issue.status issue) as Hd2.
  { transitivity (Issue.status d1).
    - apply (assignTrimmed_keeps Issue.status) with (2 := E2). reflexivity.
    - apply (assignTrimmed_keeps Issue.status) with (2 := E1). reflexivity. }
  unfold IssueRoute.assignEnum at 1.
  destruct (JS.truthy (JS.prop body "status") && isAdmin).
  - destruct (IssueRoute.castEnum "status" (JS.prop body "status")) as [e|[s|]];
      cbn [fst snd]; try reflexivity;
      rewrite !(assignEnum_keeps Issue.status) by reflexivity; exact Hd2.
  - rewrite !(assignEnum_keeps Issue.status) by reflexivity. exact Hd2.
Qed.

Lemma save_status errs now stored doc coll written coll' :
  IssueRoute.save errs now stored doc coll = Ok (written, coll') ->
  Issue.status written = Issue.status doc /\ Issue.title written = Issue.title doc /\
  Issue._id written = Issue._id doc.
Proof.
  intros H.
  assert ((Issue.status written, Issue.title written, Issue._id written) =
          (Issue.status doc, Issue.title doc, Issue._id doc)) as E.
  { apply (save_keeps (fun d => (Issue.status d, Issue.title d, Issue._id d)))
      with (3 := H); [reflexivity | right; reflexivity]. }
  injection E as E1 E2 E3. tauto.
Qed.

(** X17: a status e-mail is sent only for an administrator's successful
    update, and then it is the only one: it goes to the reporter of the
    issue, names the stored title, the status before and the status now
    stored, and these two differ. *)
Theorem status_email_reports_the_change token id body now db e :
  let r := IssueRoute.PUT token id body now db in
  In e (snd r) ->
  snd r = [e] /\
  exists user i stored written reporter,
    requireAuth token db = Ok user /\ auth_role user = "admin" /\ id = Some i /\
    Issue.findById i (issues db) = Some stored /\
    Issue.findById i (issues (snd (fst r))) = Some written /\
    httpStatus (fst (fst r)) = 200 /\
    findUser (Issue.reportedBy stored) db = Some reporter /\
    e = mkStatusEmail (User.email reporter) (User.name reporter) (Issue.title written)
          (Issue.status stored) (Issue.status written) i /\
    Issue.status written <> Issue.status stored /\
    User.email reporter <> "".
Proof.
  cbn zeta.
  destruct (PUT_outcome token id body now db) as [(code & msg & _ & ->)|H];
    [intros []|].
  destruct H as (user & i & b & stored & reporter & doc & errs & written & coll &
                 Hauth & -> & -> & Hfind & Hrep & Hperm & Honly & Hupd & Hsave & ->).
  cbn [fst snd issues setIssues httpStatus].
  pose proof (save_updates _ _ _ _ _ _ _ Hsave) as ->.
  destruct (save_status _ _ _ _ _ _ _ Hsave) as (Hst & _ & Hid).
  assert (Issue._id doc = Issue._id stored) as Hdoc.
  { apply (updateAllowedFields_keeps Issue._id) with (6 := Hupd);
      try reflexivity. intros _. split; reflexivity. }
  apply findById_In in Hfind as Hin. destruct Hin as [_ Hi].
  pose proof (updateAllowedFields_status _ _ _ _ _ _ Hupd) as Hs.
  unfold IssueRoute.statusEmails, IssueRoute.sendIssueStatusUpdateEmail,
    IssueRoute.differs.
  destruct (JS.prop b "status") as [| | | |s| |] eqn:Hbody;
    try (destruct (_ && _ && _); simpl; intros Hnone; contradiction).
  destruct (JS.truthy (JS.Str s)) eqn:Ht; cbn [andb]; [|intros []].
  rewrite orb_true_l in Honly. specialize (Honly eq_refl).
  rewrite Honly in Hs. cbn [andb IssueRoute.castEnum] in Hs |- *.
  destruct (String.eqb_spec s (Issue.status stored)) as [Heq|Hne]; [intros []|].
  destruct (String.eqb_spec (User.email reporter) "") as [Hem|Hem]; [intros []|].
  cbn [negb]. intros [<-|[]]. split; [reflexivity|].
  exists user, i, stored, written, reporter.
  apply String.eqb_eq in Honly.
  repeat split; try assumption.
  - rewrite Hi. apply (findById_updateOne i (fun _ => written) _ stored); [|assumption].
    congruence.
  - f_equal; congruence.
  - congruence.
Qed.

Lemma status_email_reports_the_change_witness :
  let e := mkStatusEmail "alice@example.org" "Alice" "Broken street lamp"
             "pending" "resolved" 100%N in
  let r := IssueRoute.PUT (Some 2%N) (Some 100%N) (Some Sample.resolving) 4000 Sample.db2 in
  snd r = [e] /\
  exists user i stored written reporter,
    requireAuth (Some 2%N) Sample.db2 = Ok user /\ auth_role user = "admin" /\
    Some 100%N = Some i /\
    Issue.findById i (issues Sample.db2) = Some stored /\
    Issue.findById i (issues (snd (fst r))) = Some written /\
    httpStatus (fst (fst r)) = 200 /\
    findUser (Issue.reportedBy stored) Sample.db2 = Some reporter /\
    e = mkStatusEmail (User.email reporter) (User.name reporter) (Issue.title written)
          (Issue.status stored) (Issue.status written) i /\
    Issue.status written <> Issue.status stored /\
    User.email reporter <> "".
Proof.
  assert (In (mkStatusEmail "alice@example.org" "Alice" "Broken street lamp"
                "pending" "resolved" 100%N)
            (snd (IssueRoute.PUT (Some 2%N) (Some 100%N) (Some Sample.resolving) 4000
                    Sample.db2))) as Hin
    by (vm_compute; left; reflexivity).
  exact (status_email_reports_the_change (Some 2%N) (Some 100%N) (Some Sample.resolving)
           4000 Sample.db2 _ Hin).
Defined.

(** X18: when an update is answered 200 and has changed the status of
    the issue, and the reporter has an e-mail address, exactly one
    status e-mail is sent if the payload gave the status as a string.
    A status given as an object with an [_id] is stored as well, but
    building the message then fails and no e-mail is sent. *)
Theorem status_change_is_mailed token i payload now db stored reporter written msg :
  Issue.findById i (issues db) = Some stored ->
  findUser (Issue.reportedBy stored) db = Some reporter ->
  fst (fst (IssueRoute.PUT token (Some i) (Some payload) now db)) =
    mkResponse 200 true msg (IssueData written) ->
  Issue.status written <> Issue.status stored ->
  User.email reporter <> "" ->
  snd (IssueRoute.PUT token (Some i) (Some payload) now db) =
    match JS.prop payload "status" with
    | JS.Str _ =>
        [mkStatusEmail (User.email reporter) (User.name reporter) (Issue.title written)
           (Issue.status stored) (Issue.status written) i]
    | _ => []
    end.
Proof.
  intros Hfind Hrep Hresp Hchanged Hmail.
  destruct (PUT_outcome token (Some i) (Some payload) now db)
    as [(code & msg' & _ & E)|H].
  { rewrite E in Hresp. discriminate Hresp. }
  destruct H as (user & j & b & stored' & reporter' & doc & errs & written' & coll &
                 Hauth & Hj & Hb & Hfind' & Hrep' & Hperm & Honly & Hupd & Hsave & E).
  injection Hj as <-. injection Hb as <-.
  rewrite E in Hresp |- *. cbn [fst snd] in Hresp |- *.
  injection Hresp as _ <-.
  assert (stored' = stored) as -> by congruence.
  assert (reporter' = reporter) as -> by congruence.
  destruct (save_status _ _ _ _ _ _ _ Hsave) as (Hst & _ & Hid).
  assert (Issue._id doc = Issue._id stored) as Hdoc.
  { apply (updateAllowedFields_keeps Issue._id) with (6 := Hupd);
      try reflexivity. intros _. split; reflexivity. }
  apply findById_In in Hfind as Hin. destruct Hin as [_ Hi].
  pose proof (updateAllowedFields_status _ _ _ _ _ _ Hupd) as Hs.
  rewrite <- Hst in Hs.
  unfold IssueRoute.statusEmails, IssueRoute.sendIssueStatusUpdateEmail,
    IssueRoute.differs.
  destruct (JS.truthy (JS.prop payload "status") &&
            String.eqb (auth_role user) "admin") eqn:Hgo; [|congruence].
  apply andb_true_iff in Hgo. destruct Hgo as [Ht Ha].
  destruct (JS.prop payload "status") as [| | | |s| |];
    try (destruct (_ && _ && _); reflexivity).
  rewrite Ht. cbn [IssueRoute.castEnum] in Hs. subst s.
  apply String.eqb_neq in Hchanged, Hmail. rewrite Hchanged, Hmail. cbn [andb negb].
  unfold Ok. f_equal. f_equal. congruence.
Qed.

Lemma status_change_is_mailed_witness :
  snd (IssueRoute.PUT (Some 2%N) (Some 100%N) (Some Sample.resolving) 4000 Sample.db2) =
    match JS.prop Sample.resolving "status" with
    | JS.Str _ =>
        [mkStatusEmail "alice@example.org" "Alice" "Broken street lamp"
           "pending" "resolved" 100%N]
    | _ => []
    end.
Proof.
  assert (exists written,
            fst (fst (IssueRoute.PUT (Some 2%N) (Some 100%N) (Some Sample.resolving) 4000
                        Sample.db2)) =
              mkResponse 200 true "Issue updated successfully" (IssueData written) /\
            Issue.status written = "resolved" /\
            Issue.title written = "Broken street lamp") as (written & Hresp & Hst & Hti)
    by (eexists; vm_compute; repeat split; reflexivity).
  assert (Issue.findById 100%N (issues Sample.db2) = Some Sample.issue2) as Hfind
    by (vm_compute; reflexivity).
  assert (Issue.status written <> Issue.status Sample.issue2) as Hchanged
    by (rewrite Hst; discriminate).
  assert (User.email Sample.alice <> "") as Hmail by discriminate.
  pose proof (status_change_is_mailed (Some 2%N) 100%N Sample.resolving 4000
                Sample.db2 Sample.issue2 Sample.alice written _ Hfind eq_refl Hresp
                Hchanged Hmail) as H.
  rewrite Hst, Hti in H. exact H.
Defined.

(** ** Deletion *)

Lemma findByIdAndDelete_other i j coll :
  j <> i ->
  Issue.findById j (Issue.findByIdAndDelete i coll) = Issue.findById j coll.
Proof.
  unfold Issue.findById. intros Hne.
  induction coll as [|x l IH]; simpl; [reflexivity|].
  destruct (N.eqb_spec (Issue._id x) i) as [E|E]; simpl.
  - destruct (N.eqb_spec (Issue._id x) j); [congruence | reflexivity].
  - destruct (N.eqb (Issue._id x) j); [reflexivity | assumption].
Qed.

Lemma findByIdAndDelete_gone i coll :
  NoDup (map Issue._id coll) ->
  Issue.findById i (Issue.findByIdAndDelete i coll) = None.
Proof.
  intros Hnd. apply findById_None.
  induction coll as [|x l IH]; simpl in *; [tauto|].
  inversion Hnd as [|? ? Hx Hl]; subst.
  destruct (N.eqb_spec (Issue._id x) i) as [E|E]; simpl.
  - now rewrite <- E.
  - intros [H|H]; [contradiction | now apply IH].
Qed.

Lemma findByIdAndDelete_length i coll d :
  Issue.findById i coll = Some d ->
  S (List.length (Issue.findByIdAndDelete i coll)) = List.length coll.
Proof.
  unfold Issue.findById.
  induction coll as [|x l IH]; simpl; [discriminate|].
  destruct (N.eqb (Issue._id x) i); [reflexivity|].
  intros H. simpl. f_equal. now apply IH.
Qed.

Lemma DELETE_outcome token id db :
  (httpStatus (fst (IssueRoute.DELETE token id db)) <> 200 /\
   snd (IssueRoute.DELETE token id db) = db) \/
  exists user i d,
    requireAuth token db = Ok user /\ id = Some i /\
    Issue.findById i (issues db) = Some d /\
    (Issue.reportedBy d = auth_id user \/ auth_role user = "admin") /\
    IssueRoute.DELETE token id db =
      (mkResponse 200 true "Issue deleted successfully" NoData,
       setIssues (Issue.findByIdAndDelete i (issues db)) db).
Proof.
  unfold IssueRoute.DELETE.
  destruct (requireAuth token db) as [[]|user]; try (left; split; [discriminate | reflexivity]).
  destruct id as [i|]; [|left; split; [discriminate | reflexivity]].
  destruct (Issue.findById i (issues db)) as [d|] eqn:Hfind;
    [|left; split; [discriminate | reflexivity]].
  destruct (N.eqb_spec (Issue.reportedBy d) (auth_id user)) as [Ho|Ho];
    destruct (String.eqb_spec (auth_role user) "admin") as [Ha|Ha]; cbn [negb andb];
    try (left; split; [discriminate | reflexivity]);
    right; exists user, i, d; repeat split; auto.
Qed.

(** X19: a deletion touches neither the users nor the ledger; unless it
    is answered 200 it writes nothing; when it is, the caller is the
    reporter of the issue or an administrator, exactly that issue is
    taken out, and every other issue is found as before. *)
Theorem delete_removes_one_issue token id db :
  let r := IssueRoute.DELETE token id db in
  users (snd r) = users db /\ ledger (snd r) = ledger db /\
  (httpStatus (fst r) <> 200 -> snd r = db) /\
  (httpStatus (fst r) = 200 ->
   exists user i d,
     requireAuth token db = Ok user /\ id = Some i /\
     Issue.findById i (issues db) = Some d /\
     (Issue.reportedBy d = auth_id user \/ auth_role user = "admin") /\
     S (List.length (issues (snd r))) = List.length (issues db) /\
     (forall j, j <> i ->
        Issue.findById j (issues (snd r)) = Issue.findById j (issues db)) /\
     (NoDup (map Issue._id (issues db)) -> Issue.findById i (issues (snd r)) = None)).
Proof.
  cbn zeta.
  destruct (DELETE_outcome token id db) as [[Hcode ->]|H].
  - repeat split; try reflexivity. intros H. contradiction.
  - destruct H as (user & i & d & Hauth & -> & Hfind & Hperm & ->).
    cbn [fst snd httpStatus users ledger issues setIssues].
    repeat split; try reflexivity.
    + intros H. now contradiction H.
    + intros _. exists user, i, d. repeat split; try assumption.
      * now apply (findByIdAndDelete_length i _ d).
      * intros j Hj. now apply findByIdAndDelete_other.
      * apply findByIdAndDelete_gone.
Qed.

(** X20: the votes of a deleted issue stay behind: after the deletion
    of an issue of a reachable store the issue is gone, and the ledger
    still counts for its id the votes the issue had. *)
Theorem deleted_issue_leaves_its_votes token i db d :
  reachable db ->
  Issue.findById i (issues db) = Some d ->
  httpStatus (fst (IssueRoute.DELETE token (Some i) db)) = 200 ->
  let db' := snd (IssueRoute.DELETE token (Some i) db) in
  Issue.findById i (issues db') = None /\
  Vote.getIssueVoteCount i (ledger db') = Issue.votes d.
Proof.
  intros Hreach Hfind Hok. cbn zeta.
  apply reachable_consistent in Hreach as Hc.
  destruct (DELETE_outcome token (Some i) db) as [[Hcode _]|H]; [contradiction|].
  destruct H as (user & j & d' & _ & Hj & _ & _ & ->). injection Hj as <-.
  cbn [snd issues ledger setIssues]. split.
  - apply findByIdAndDelete_gone. apply (ids_unique db Hc).
  - apply findById_In in Hfind. destruct Hfind as [Hin <-].
    now apply ledger_count_consistent.
Qed.

Lemma deleted_issue_leaves_its_votes_witness :
  let db' := snd (IssueRoute.DELETE (Some 2%N) (Some 100%N) Sample.db2) in
  Issue.findById 100%N (issues db') = None /\
  Vote.getIssueVoteCount 100%N (ledger db') = Issue.votes Sample.issue2.
Proof.
  assert (Issue.findById 100%N (issues Sample.db2) = Some Sample.issue2) as Hfind
    by (vm_compute; reflexivity).
  assert (httpStatus (fst (IssueRoute.DELETE (Some 2%N) (Some 100%N) Sample.db2)) = 200)
    as Hok by (vm_compute; reflexivity).
  exact (deleted_issue_leaves_its_votes (Some 2%N) 100%N Sample.db2 Sample.issue2
           reachable_db2 Hfind Hok).
Defined.

(** ** Stored issues pass the validators of the schema *)

Lemma validate_nil paths d :
  Issue.validate paths d = [] <-> forall p, In p paths -> Issue.pathErrors p d = [].
Proof.
  unfold Issue.validate. induction paths as [|p l IH]; simpl.
  - split; [intros _ p [] | reflexivity].
  - split.
    + intros H. apply app_eq_nil in H. destruct H as [Hp Hl].
      intros q [<-|Hq]; [assumption | now apply IH].
    + intros H. rewrite (H p) by now left. simpl. apply IH. intros q Hq. apply H. now right.
Qed.

Lemma pathErrors_content p a b :
  In p contentPaths -> content a = content b ->
  Issue.pathErrors p a = Issue.pathErrors p b.
Proof.
  intros Hin Hc. unfold content in Hc.
  injection Hc as H1 H2 H3 H4 H5 H6 H7 H8.
  assert (String.eqb p "votes" = false) as Hv.
  { apply String.eqb_neq. intros ->. unfold contentPaths in Hin. simpl in Hin.
    intuition discriminate. }
  unfold Issue.pathErrors. rewrite H1, H2, H3, H4, H5, H6, H7, H8, Hv. reflexivity.
Qed.

Lemma wellFormed_content a b : content a = content b -> wellFormed a -> wellFormed b.
Proof.
  unfold wellFormed. rewrite !validate_nil. intros Hc Ha p Hp.
  rewrite <- (pathErrors_content p a b Hp Hc). now apply Ha.
Qed.

Lemma allPaths_split d :
  Issue.validate Issue.allPaths d =
  Issue.validate contentPaths d ++ Issue.pathErrors "votes" d.
Proof.
  unfold Issue.validate.
  change Issue.allPaths with (contentPaths ++ ["votes"]).
  rewrite flat_map_app. cbn [flat_map]. now rewrite app_nil_r.
Qed.

Lemma preSave_content m now d : content (Issue.preSave m now d) = content d.
Proof.
  unfold Issue.preSave. destruct m; [|reflexivity].
  destruct (_ && _); [reflexivity|]. destruct (negb _); reflexivity.
Qed.

Lemma Forall_updateOne_pres (P : Issue.t -> Prop) id f coll :
  (forall d, P d -> P (f d)) -> Forall P coll -> Forall P (Issue.updateOne id f coll).
Proof.
  intros Hf. induction 1 as [|x l Hx Hl IH]; simpl; [constructor|].
  destruct (N.eqb (Issue._id x) id); constructor; auto.
Qed.

Lemma POST_issue_outcome token body newId now db :
  snd (IssuesRoute.POST token body newId now db) = db \/
  exists doc errs saved,
    IssuesRoute.saveNew errs now doc = Ok saved /\
    snd (IssuesRoute.POST token body newId now db) = setIssues (issues db ++ [saved]) db.
Proof.
  unfold IssuesRoute.POST.
  destruct (requireAuth token db) as [e|user]; unravel; [left; reflexivity|].
  destruct body as [body|]; unravel; [|left; reflexivity].
  destruct (JS.destructurable body); unravel; [|left; reflexivity].
  destruct (negb _ || negb _ || negb _ || negb _ || negb _); [left; reflexivity|].
  destruct (JS.prop (JS.prop body "location") "coordinates") as [| | | | |l|];
    try (left; reflexivity).
  destruct l as [|[| | |lng| | |] [|[| | |lat| | |] [|]]]; try (left; reflexivity).
  destruct (_ || _ || _ || _); [left; reflexivity|].
  destruct (IssuesRoute.newIssue _ _ _ _ _ _ _ _ _ _ _) as [e|[doc errs]] eqn:Hnew;
    unravel; [left; reflexivity|].
  destruct (IssuesRoute.saveNew errs now doc) as [e|saved] eqn:Hsave;
    unravel; [left; reflexivity|].
  right. exists doc, errs, saved. split; [assumption | reflexivity].
Qed.

Lemma saveNew_wellFormed errs now doc saved :
  IssuesRoute.saveNew errs now doc = Ok saved -> wellFormed saved.
Proof.
  unfold IssuesRoute.saveNew.
  destruct (errs ++ Issue.validate Issue.allPaths doc) eqn:E; [|discriminate].
  intros [= <-]. apply app_eq_nil in E. destruct E as [_ E].
  rewrite allPaths_split in E. apply app_eq_nil in E. destruct E as [E _].
  apply (wellFormed_content doc); [|exact E].
  symmetry. exact (preSave_content true now doc).
Qed.

Lemma isModified_false_status stored doc :
  IssueRoute.isModified "status" stored doc = false -> Issue.status doc = Issue.status stored.
Proof.
  rewrite isModified_status. intros H. apply negb_false_iff in H.
  apply String.eqb_eq in H. now symmetry.
Qed.

Lemma isModified_false_priority stored doc :
  IssueRoute.isModified "priority" stored doc = false ->
  Issue.priority doc = Issue.priority stored.
Proof.
  change (IssueRoute.isModified "priority" stored doc)
    with (negb (sameOpt (Issue.priority stored) (Issue.priority doc))).
  intros H. apply negb_false_iff in H.
  destruct (Issue.priority stored) as [x|], (Issue.priority doc) as [y|];
    try discriminate; [|reflexivity].
  apply String.eqb_eq in H. now subst.
Qed.

Lemma pathErrors_status a b :
  Issue.status a = Issue.status b ->
  Issue.pathErrors "status" a = Issue.pathErrors "status" b.
Proof.
  intros H.
  change (Issue.pathErrors "status" a)
    with (if Issue.inEnum Issue.statusValues (Issue.status a)
          then [] else ["invalid enum value for path status"]).
  now rewrite H.
Qed.

Lemma pathErrors_priority a b :
  Issue.priority a = Issue.priority b ->
  Issue.pathErrors "priority" a = Issue.pathErrors "priority" b.
Proof.
  intros H.
  change (Issue.pathErrors "priority" a)
    with (match Issue.priority a with
          | None => []
          | Some p =>
              if Issue.inEnum Issue.priorityValues p
              then [] else ["invalid enum value for path priority"]
          end).
  now rewrite H.
Qed.

Lemma pathErrors_images a b :
  Issue.images a = Issue.images b ->
  Issue.pathErrors "images" a = Issue.pathErrors "images" b.
Proof.
  intros H.
  change (Issue.pathErrors "images" a)
    with (if forallb Issue.imageValidator (Issue.images a)
          then [] else ["Invalid image URL format"]).
  now rewrite H.
Qed.

(** A save validates the required and the modified paths; the other
    content paths hold what was stored. *)
Lemma save_wellFormed isOwner isAdmin body errs now stored doc coll written coll' :
  IssueRoute.updateAllowedFields isOwner isAdmin body stored = Ok (doc, errs) ->
  IssueRoute.save errs now stored doc coll = Ok (written, coll') ->
  wellFormed stored -> wellFormed written.
Proof.
  intros Hupd Hsave Hstored.
  assert (content written = content doc) as Hc.
  { apply (save_keeps content) with (3 := Hsave); [reflexivity | right; reflexivity]. }
  apply (wellFormed_content doc); [now symmetry|].
  assert (Issue.images doc = Issue.images stored) as Himg.
  { apply (updateAllowedFields_keeps Issue.images) with (6 := Hupd);
      try reflexivity. intros _. split; reflexivity. }
  unfold IssueRoute.save in Hsave.
  destruct (errs ++ _) eqn:E; [|discriminate]. clear Hsave.
  apply app_eq_nil in E. destruct E as [_ E].
  rewrite validate_nil in E.
  unfold wellFormed in *. rewrite validate_nil in *.
  assert (forall p, In p IssueRoute.requiredPaths -> Issue.pathErrors p doc = []) as Hreq.
  { intros p Hp. apply E. apply in_app_iff. now left. }
  assert (forall p, In p IssueRoute.assignablePaths ->
                    IssueRoute.isModified p stored doc = true ->
                    Issue.pathErrors p doc = []) as Hmod.
  { intros p Hp Hm. apply E. apply in_app_iff. right. apply filter_In. now split. }
  intros p Hp. unfold contentPaths in Hp. cbn [In] in Hp.
  destruct Hp as [<-|[<-|[<-|[<-|[<-|[<-|[<-|[<-|[]]]]]]]]].
  - apply Hreq. cbn. tauto.
  - apply Hreq. cbn. tauto.
  - apply Hreq. cbn. tauto.
  - destruct (IssueRoute.isModified "status" stored doc) eqn:Hm.
    + apply Hmod; [cbn; tauto | assumption].
    + rewrite (pathErrors_status doc stored) by now apply isModified_false_status.
      apply Hstored. cbn. tauto.
  - destruct (IssueRoute.isModified "priority" stored doc) eqn:Hm.
    + apply Hmod; [cbn; tauto | assumption].
    + rewrite (pathErrors_priority doc stored) by now apply isModified_false_priority.
      apply Hstored. cbn. tauto.
  - apply Hreq. cbn. tauto.
  - apply Hreq. cbn. tauto.
  - rewrite (pathErrors_images doc stored Himg). apply Hstored. cbn. tauto.
Qed.

Lemma step_wellFormed db db' :
  step db db' -> Forall wellFormed (issues db) -> Forall wellFormed (issues db').
Proof.
  intros Hstep Hall. destruct Hstep.
  - destruct (POST_issue_outcome token body newId now db) as [->|Hout]; [assumption|].
    destruct Hout as (doc & errs & saved & Hsave & ->). cbn [issues setIssues].
    apply Forall_app. split; [assumption|]. constructor; [|constructor].
    now apply (saveNew_wellFormed errs now doc).
  - destruct (POST_vote_cases token id newId now db) as [->|Hout]; [assumption|].
    destruct Hout as (user & i & d & _ & _ & _ & ->). unfold afterToggle.
    destruct (Vote.findOne _ _ _); cbn [issues];
      (apply Forall_updateOne_pres; [|assumption]);
      intros x; apply wellFormed_content; reflexivity.
  - destruct (PUT_outcome token id body now db) as [(code & msg & _ & ->)|Hout];
      [assumption|].
    destruct Hout as (user & i & b & stored & reporter & doc & errs & written & coll &
                   _ & _ & _ & Hfind & _ & _ & _ & Hupd & Hsave & ->).
    cbn [fst snd issues setIssues].
    rewrite (save_updates _ _ _ _ _ _ _ Hsave).
    apply Forall_updateOne_pres; [|assumption].
    intros _ _. apply (save_wellFormed _ _ _ _ _ _ _ _ _ _ Hupd Hsave).
    apply findById_In in Hfind. rewrite Forall_forall in Hall. now apply Hall.
  - destruct (DELETE_cases token id db) as [->|[i ->]]; [assumption|].
    now apply Forall_findByIdAndDelete.
  - assumption.
Qed.

Lemma reachable_wellFormed db : reachable db -> Forall wellFormed (issues db).
Proof.
  induction 1 as [|db db' _ IH Hstep]; [constructor|].
  now apply (step_wellFormed db).
Qed.

(** X21: every issue of a store reached by requests served one at a
    time passes all validators of the schema, also for the paths a later
    update did not validate again: title, description and address
    within their lengths in UTF-16 units, category and status in their
    enumerations, priority in its enumeration unless it is null,
    coordinates in range, image URLs well-formed, votes not negative. *)
Theorem stored_issues_are_valid db d :
  reachable db -> In d (issues db) -> Issue.validate Issue.allPaths d = [].
Proof.
  intros Hreach Hin.
  pose proof (reachable_wellFormed db Hreach) as Hall.
  rewrite Forall_forall in Hall. specialize (Hall d Hin).
  apply reachable_consistent in Hreach.
  pose proof (cache_ok db Hreach) as Hcache. rewrite Forall_forall in Hcache.
  destruct (Hcache d Hin) as [Hv _].
  rewrite allPaths_split. unfold wellFormed in Hall. rewrite Hall.
  change (Issue.pathErrors "votes" d)
    with (if Issue.votes d <? 0 then ["Votes cannot be negative"] else []).
  destruct (Z.ltb_spec (Issue.votes d) 0); [lia | reflexivity].
Qed.

Lemma stored_issues_are_valid_witness :
  Issue.validate Issue.allPaths Sample.issue2 = [].
Proof.
  exact (stored_issues_are_valid Sample.db2 Sample.issue2 reachable_db2
           ltac:(vm_compute; left; reflexivity)).
Defined.

(** ** The dashboard statistics *)

Section Dashboard.

#[local] Arguments String.eqb : simpl never.

(** The [forEach] leaves in a counter the count of its group, when
    [proj] is the counter that [accumulate] assigns for key [k]. *)
Lemma accumulate_counter (proj : Issue.DashboardStats -> Z) k groups r :
  (forall r c, proj (Issue.accumulate r (k, c)) = c) ->
  (forall r k' c, k' <> k -> proj (Issue.accumulate r (k', c)) = proj r) ->
  NoDup (map fst groups) ->
  proj (fold_left Issue.accumulate groups r) =
    if existsb (fun g => String.eqb k (fst g)) groups then countOf k groups else proj r.
Proof.
  intros Hhit Hmiss. revert r.
  induction groups as [|[k' c] l IH]; intros r Hnd; [reflexivity|].
  cbn [map fst] in Hnd. inversion Hnd as [|? ? Hk Hl]; subst.
  cbn [fold_left existsb fst]. rewrite (IH _ Hl).
  unfold countOf. cbn [find fst snd].
  change (@same string stringKey) with String.eqb.
  destruct (String.eqb_spec k k') as [<-|Hne]; cbv beta iota delta [orb].
  - destruct (existsb _ l) eqn:E; [|apply Hhit].
    exfalso. apply Hk. apply existsb_exists in E. destruct E as [g [Hg Eg]].
    apply String.eqb_eq in Eg. rewrite Eg. now apply in_map.
  - rewrite Hmiss by congruence. reflexivity.
Qed.

Lemma accumulate_pending r c : Issue.pendingIssues (Issue.accumulate r ("pending", c)) = c.
Proof. reflexivity. Qed.

Lemma accumulate_inProgress r c :
  Issue.inProgressIssues (Issue.accumulate r ("in-progress", c)) = c.
Proof. reflexivity. Qed.

Lemma accumulate_not_pending r k c :
  k <> "pending" -> Issue.pendingIssues (Issue.accumulate r (k, c)) = Issue.pendingIssues r.
Proof.
  intros Hne. unfold Issue.accumulate.
  destruct (String.eqb_spec k "pending"); [congruence|].
  destruct (String.eqb k "in-progress"); [reflexivity|].
  destruct (String.eqb k "resolved"); reflexivity.
Qed.

Lemma accumulate_not_inProgress r k c :
  k <> "in-progress" ->
  Issue.inProgressIssues (Issue.accumulate r (k, c)) = Issue.inProgressIssues r.
Proof.
  intros Hne. unfold Issue.accumulate.
  destruct (String.eqb k "pending"); [reflexivity|].
  destruct (String.eqb_spec k "in-progress"); [congruence|].
  destruct (String.eqb k "resolved"); reflexivity.
Qed.

Lemma groups_counter (proj : Issue.DashboardStats -> Z) k coll :
  (forall r c, proj (Issue.accumulate r (k, c)) = c) ->
  (forall r k' c, k' <> k -> proj (Issue.accumulate r (k', c)) = proj r) ->
  proj (Issue.mkDashboardStats 0 0 0 0) = 0 ->
  proj (fold_left Issue.accumulate (Issue.groupCount Issue.status coll)
          (Issue.mkDashboardStats 0 0 0 0)) = countKey Issue.status k coll.
Proof.
  intros Hhit Hmiss Hzero. unfold Issue.groupCount.
  destruct (groupCount_spec Issue.status coll []) as [Hnd [_ Hcount]].
  rewrite (accumulate_counter proj k _ _ Hhit Hmiss (Hnd (NoDup_nil _))).
  specialize (Hcount k). unfold countOf at 2 in Hcount. simpl in Hcount.
  destruct (existsb _ _) eqn:E; [lia|].
  apply countOf_absent in E. lia.
Qed.

Lemma status_counts_cover coll :
  Forall (fun d => Issue.inEnum Issue.statusValues (Issue.status d) = true) coll ->
  Z.of_nat (List.length coll) =
    countKey Issue.status "pending" coll + countKey Issue.status "in-progress" coll +
    countKey Issue.status "resolved" coll.
Proof.
  unfold countKey, AdminStatsRoute.count.
  change (@same string stringKey) with String.eqb.
  induction 1 as [|d l Hd Hl IH]; [reflexivity|].
  cbn [filter List.length]. unfold Issue.inEnum, Issue.statusValues in Hd.
  cbn [existsb] in Hd. rewrite orb_false_r in Hd.
  destruct (String.eqb_spec (Issue.status d) "pending") as [E|E].
  - rewrite E. cbn [List.length].
    change (String.eqb "pending" "in-progress") with false.
    change (String.eqb "pending" "resolved") with false. cbv iota. lia.
  - destruct (String.eqb_spec (Issue.status d) "in-progress") as [E'|E'].
    + rewrite E'. cbn [List.length].
      change (String.eqb "in-progress" "resolved") with false. cbv iota. lia.
    + cbn [orb] in Hd. rewrite Hd. cbn [List.length]. lia.
Qed.

End Dashboard.

(** X22: the dashboard statistics, for all issues or for those of one
    reporter, count the matched issues and those of them that are
    pending, in progress and resolved; in a reachable store the three
    add up to the total. *)
Theorem dashboard_counts_add_up db userId :
  reachable db ->
  let matched :=
    match userId with
    | Some u => filter (fun d => N.eqb (Issue.reportedBy d) u) (issues db)
    | None => issues db
    end in
  let s := Issue.getDashboardStats userId (issues db) in
  Issue.totalIssues s = Z.of_nat (List.length matched) /\
  Issue.pendingIssues s = countKey Issue.status "pending" matched /\
  Issue.inProgressIssues s = countKey Issue.status "in-progress" matched /\
  Issue.resolvedIssues s = countKey Issue.status "resolved" matched /\
  Issue.totalIssues s =
    Issue.pendingIssues s + Issue.inProgressIssues s + Issue.resolvedIssues s.
Proof.
  intros Hreach matched s.
  assert (Forall (fun d => Issue.inEnum Issue.statusValues (Issue.status d) = true) matched)
    as Hvalid.
  { apply reachable_wellFormed in Hreach. rewrite Forall_forall in *.
    intros d Hd.
    assert (In d (issues db)) as Hin.
    { subst matched. destruct userId; [now apply filter_In in Hd | assumption]. }
    specialize (Hreach d Hin). unfold wellFormed in Hreach.
    rewrite validate_nil in Hreach.
    specialize (Hreach "status" ltac:(cbn; tauto)).
    change (Issue.pathErrors "status" d)
      with (if Issue.inEnum Issue.statusValues (Issue.status d)
            then [] else ["invalid enum value for path status"]) in Hreach.
    destruct (Issue.inEnum _ _); [reflexivity | discriminate]. }
  assert (s = Issue.getDashboardStats None matched) as Hs.
  { subst s matched. unfold Issue.getDashboardStats. destruct userId; reflexivity. }
  destruct (getDashboardStats_counts matched) as [Ht Hr].
  assert (Issue.pendingIssues s = countKey Issue.status "pending" matched) as Hp.
  { rewrite Hs. unfold Issue.getDashboardStats.
    apply (groups_counter Issue.pendingIssues "pending");
      [apply accumulate_pending | apply accumulate_not_pending | reflexivity]. }
  assert (Issue.inProgressIssues s = countKey Issue.status "in-progress" matched) as Hi.
  { rewrite Hs. unfold Issue.getDashboardStats.
    apply (groups_counter Issue.inProgressIssues "in-progress");
      [apply accumulate_inProgress | apply accumulate_not_inProgress | reflexivity]. }
  rewrite <- Hs in Ht, Hr.
  repeat split; try assumption.
  rewrite Ht, Hp, Hi, Hr. now apply status_counts_cover.
Qed.

Lemma dashboard_counts_add_up_witness :
  let matched := filter (fun d => N.eqb (Issue.reportedBy d) 1%N) (issues Sample.db3) in
  let s := Issue.getDashboardStats (Some 1%N) (issues Sample.db3) in
  Issue.totalIssues s = Z.of_nat (List.length matched) /\
  Issue.pendingIssues s = countKey Issue.status "pending" matched /\
  Issue.inProgressIssues s = countKey Issue.status "in-progress" matched /\
  Issue.resolvedIssues s = countKey Issue.status "resolved" matched /\
  Issue.totalIssues s =
    Issue.pendingIssues s + Issue.inProgressIssues s + Issue.resolvedIssues s.
Proof.
  exact (dashboard_counts_add_up Sample.db3 (Some 1%N) reachable_db3).
Defined.

(** ** The list of issues *)

Lemma compareOpt_antisym a b : Issue.compareOpt b a = CompOpp (Issue.compareOpt a b).
Proof.
  destruct a, b; simpl; try reflexivity. apply Z.compare_antisym.
Qed.

Lemma string_compare_antisym (a b : string) :
  String.compare b a = CompOpp (String.compare a b).
Proof. apply String.compare_antisym. Qed.

Lemma compareOptStr_antisym a b :
  Issue.compareOptStr b a = CompOpp (Issue.compareOptStr a b).
Proof.
  destruct a, b; simpl; try reflexivity. apply String.compare_antisym.
Qed.

Lemma compareField_antisym field a b :
  Issue.compareField field b a = CompOpp (Issue.compareField field a b).
Proof.
  unfold Issue.compareField.
  repeat match goal with
         | |- context [if ?c then _ else _] => destruct c
         end;
    first [ apply Z.compare_antisym | apply N.compare_antisym
          | apply compareOpt_antisym | apply compareOptStr_antisym
          | apply string_compare_antisym | reflexivity ].
Qed.

Lemma inOrder_total field order a b :
  order <> 0 ->
  Issue.inOrder field order a b = false -> Issue.inOrder field order b a = true.
Proof.
  intros Hne. unfold Issue.inOrder. rewrite (compareField_antisym field a b).
  destruct (Issue.compareField field a b); simpl; try discriminate; lia.
Qed.

Section Sorting.

Variables (field : string) (order : Z).
Hypothesis order_nonzero : order <> 0.

Let R (a b : Issue.t) : Prop := Issue.inOrder field order a b = true.

Lemma insertSorted_perm x l : Permutation (Issue.insertSorted field order x l) (x :: l).
Proof.
  induction l as [|y l IH]; simpl; [reflexivity|].
  destruct (Issue.inOrder field order x y); [reflexivity|].
  rewrite IH. apply perm_swap.
Qed.

Lemma sort_perm l : Permutation (Issue.sort field order l) l.
Proof.
  unfold Issue.sort. induction l as [|x l IH]; simpl; [reflexivity|].
  rewrite insertSorted_perm. now constructor.
Qed.

Lemma insertSorted_HdRel y x l :
  R y x -> HdRel R y l -> HdRel R y (Issue.insertSorted field order x l).
Proof.
  intros Hyx Hl. destruct l as [|z l]; simpl; [now constructor|].
  destruct (Issue.inOrder field order x z); constructor; [assumption|].
  now inversion Hl.
Qed.

Lemma insertSorted_sorted x l :
  Sorted R l -> Sorted R (Issue.insertSorted field order x l).
Proof.
  induction 1 as [|y l Hl IH Hy]; simpl; [repeat constructor|].
  destruct (Issue.inOrder field order x y) eqn:E.
  - constructor; [now constructor | now constructor].
  - constructor; [assumption|].
    apply insertSorted_HdRel; [|assumption].
    now apply inOrder_total.
Qed.

Lemma sort_sorted l : Sorted R (Issue.sort field order l).
Proof.
  unfold Issue.sort. induction l as [|x l IH]; simpl; [constructor|].
  now apply insertSorted_sorted.
Qed.

End Sorting.

Lemma Sorted_skipn {A : Type} (R : A -> A -> Prop) n l :
  Sorted R l -> Sorted R (skipn n l).
Proof.
  revert l. induction n as [|n IH]; intros l Hl; [assumption|].
  destruct l as [|x l]; [constructor|]. simpl. apply IH. now inversion Hl.
Qed.

Lemma Sorted_firstn {A : Type} (R : A -> A -> Prop) n l :
  Sorted R l -> Sorted R (firstn n l).
Proof.
  revert l. induction n as [|n IH]; intros l Hl; [constructor|].
  destruct l as [|x l]; [constructor|]. simpl.
  inversion Hl as [|? ? Hs Hh]; subst. constructor; [now apply IH|].
  destruct l as [|y l]; [destruct n; constructor|].
  destruct n; simpl; constructor. now inversion Hh.
Qed.

Lemma firstn_skipn_app {A : Type} a b (l : list A) :
  firstn a l ++ firstn b (skipn a l) = firstn (a + b) l.
Proof.
  revert l. induction a as [|a IH]; intros l; [reflexivity|].
  destruct l as [|x l]; simpl; [now rewrite firstn_nil|].
  f_equal. apply IH.
Qed.

Lemma sortKey_nonzero filters : snd (sortKey filters) <> 0.
Proof.
  unfold sortKey. destruct (Issue.given _); simpl; [|discriminate].
  destruct (Issue.f_sortOrder filters) as [o|]; [|discriminate].
  destruct (String.eqb o "asc"); discriminate.
Qed.

Lemma swapAt_perm {A : Type} n (l : list A) : Permutation (Issue.swapAt n l) l.
Proof.
  revert l. induction n as [|n IH]; intros [|x l]; simpl;
    try apply Permutation_refl.
  - destruct l as [|y l]; [apply Permutation_refl | apply perm_swap].
  - apply perm_skip. apply IH.
Qed.

Lemma arrange_perm {A : Type} swaps (l : list A) : Permutation (Issue.arrange swaps l) l.
Proof.
  unfold Issue.arrange. revert l.
  induction swaps as [|n swaps IH]; intros l; simpl; [apply Permutation_refl|].
  eapply Permutation_trans; [apply IH | apply swapAt_perm].
Qed.

(** Whatever order the engine hands the matches over in, the sort
    leaves them in the order of the sort key, and none is lost or
    repeated. *)
Lemma handed_facts E filters coll :
  Sorted (ordered filters) (handed E filters coll) /\
  Permutation (handed E filters coll) (allMatches E filters coll).
Proof.
  unfold handed. split.
  - apply sort_sorted. apply sortKey_nonzero.
  - eapply Permutation_trans; [apply sort_perm | apply arrange_perm].
Qed.

Lemma sortedMatches_facts E filters coll :
  Sorted (ordered filters) (sortedMatches E filters coll) /\
  Permutation (sortedMatches E filters coll) (allMatches E filters coll).
Proof.
  unfold sortedMatches. split.
  - apply sort_sorted. apply sortKey_nonzero.
  - eapply Permutation_trans; [apply sort_perm | apply arrange_perm].
Qed.

Lemma In_firstn_skipn {A : Type} (x : A) a b l : In x (firstn a (skipn b l)) -> In x l.
Proof.
  intros H.
  assert (In x (skipn b l)) as Hs.
  { rewrite <- (firstn_skipn a (skipn b l)). apply in_app_iff. now left. }
  rewrite <- (firstn_skipn b l). apply in_app_iff. now right.
Qed.

Lemma newest_first (l : list Issue.t) :
  Sorted (fun a b => Issue.inOrder "createdAt" (-1) a b = true) l ->
  Sorted (fun a b => Issue.createdAt b <= Issue.createdAt a) l.
Proof.
  induction 1 as [|a l Hl IH Ha]; constructor; [assumption|].
  destruct Ha as [|b l' Hab]; constructor.
  unfold Issue.inOrder in Hab.
  change (Issue.compareField "createdAt" a b)
    with (Z.compare (Issue.createdAt a) (Issue.createdAt b)) in Hab.
  destruct (Z.compare_spec (Issue.createdAt a) (Issue.createdAt b)); lia.
Qed.

(** X23: the list route answers 200 when the server serves its count
    and its find, and 500 "Failed to retrieve issues" when it refuses
    one of them.  On a 200 the sorted matches are the stored issues
    that satisfy all the filters of the query, each once, in the order
    of the requested sort (by default newest first); the page is cut
    out of them and keeps that order.  A numeric page below 1 counts as
    1 and a numeric limit outside [1, 50] as 10: the page starts after
    (page - 1) * limit issues and is no longer than the limit. *)
Theorem page_is_ordered_and_matches E pf q db :
  let filters := IssuesRoute.validatePagination (IssuesRoute.parseFilters pf q) in
  let sorted := handed E filters (issues db) in
  Sorted (ordered filters) sorted /\
  Permutation sorted (filter (Issue.matches E (Issue.filterQuery filters)) (issues db)) /\
  (accepted E filters = false ->
   IssuesRoute.GET E pf q db = failure 500 "Failed to retrieve issues") /\
  (accepted E filters = true ->
   exists found meta,
     IssuesRoute.GET E pf q db =
       mkResponse 200 true "Issues retrieved successfully" (PageData found meta) /\
     Sorted (ordered filters) found /\
     (forall d, In d found ->
        In d (issues db) /\ Issue.matches E (Issue.filterQuery filters) d = true) /\
     (forall p l,
        JS.parseInt (IssuesRoute.orElse (IssuesRoute.p_page q) "1") = Some p ->
        JS.parseInt (IssuesRoute.orElse (IssuesRoute.p_limit q) "10") = Some l ->
        let P := Z.max 1 p in
        let L := if (1 <=? l) && (l <=? 50) then l else 10 in
        currentPage meta = Some P /\ itemsPerPage meta = Some L /\
        found = firstn (Z.to_nat L) (skipn (Z.to_nat ((P - 1) * L)) sorted) /\
        Z.of_nat (List.length found) <= L <= 50) /\
     (IssuesRoute.p_sortBy q = None -> IssuesRoute.p_sortOrder q = None ->
      Sorted (fun a b => Issue.createdAt b <= Issue.createdAt a) found)).
Proof.
  intros filters sorted.
  destruct (handed_facts E filters (issues db)) as [Hsorted Hperm].
  fold sorted in Hsorted, Hperm.
  split; [exact Hsorted|]. split; [exact Hperm|].
  pose proof (GET_outcome E pf q db) as Hget. cbv zeta in Hget.
  fold filters in Hget. fold sorted in Hget.
  split; [intros Hno; now rewrite Hno in Hget|].
  intros Hyes. rewrite Hyes in Hget. rewrite Hget. clear Hget.
  set (raw := IssuesRoute.parseFilters pf q) in *.
  eexists. eexists. split; [reflexivity|].
  set (found := match clampPage (Issue.f_page raw) with
                | Some P =>
                    match clampLimit (Issue.f_limit raw) with
                    | Some L => firstn (Z.to_nat L) (skipn (Z.to_nat ((P - 1) * L)) sorted)
                    | None => sorted
                    end
                | None => sorted
                end).
  assert (forall R : Issue.t -> Issue.t -> Prop, Sorted R sorted -> Sorted R found)
    as Hkeep.
  { intros R HR. unfold found.
    destruct (clampPage _); [|assumption]. destruct (clampLimit _); [|assumption].
    apply Sorted_firstn. now apply Sorted_skipn. }
  assert (forall d, In d found -> In d sorted) as Hsub.
  { intros d. unfold found.
    destruct (clampPage _); [|tauto]. destruct (clampLimit _); [|tauto].
    apply In_firstn_skipn. }
  split; [|split; [|split]].
  - now apply Hkeep.
  - intros d Hd. apply Hsub in Hd.
    apply (Permutation_in _ Hperm) in Hd. now apply filter_In in Hd.
  - intros p l Hp Hl P L. unfold filters. rewrite validatePagination_clamps.
    cbn [IssuesRoute.setPagination Issue.f_limit Issue.f_page itemsPerPage currentPage].
    assert (Issue.f_page raw = Some p) as Hpage by exact Hp.
    assert (Issue.f_limit raw = Some l) as Hlimit by exact Hl.
    unfold found. rewrite Hpage, Hlimit. cbn [clampPage clampLimit]. fold P. fold L.
    assert (1 <= L <= 50) as HL.
    { unfold L. destruct (Z.leb_spec 1 l), (Z.leb_spec l 50); simpl; lia. }
    split; [reflexivity|]. split; [reflexivity|]. split; [reflexivity|].
    pose proof (firstn_le_length (Z.to_nat L)
                  (skipn (Z.to_nat ((P - 1) * L)) sorted)).
    lia.
  - intros Hby Hord. apply Hkeep. apply newest_first.
    assert (sortKey filters = ("createdAt", -1)) as Hkey.
    { unfold sortKey, filters, IssuesRoute.validatePagination, raw,
        IssuesRoute.parseFilters, IssuesRoute.orElse.
      cbn [Issue.f_sortBy Issue.f_sortOrder IssuesRoute.setPagination].
      rewrite Hby, Hord. reflexivity. }
    unfold ordered in Hsorted. rewrite Hkey in Hsorted. exact Hsorted.
Qed.

Lemma page_is_ordered_and_matches_witness :
  exists found meta,
    IssuesRoute.GET Sample.nothingNear Sample.parseFloat Sample.wildParams Sample.crowded =
      mkResponse 200 true "Issues retrieved successfully" (PageData found meta) /\
    currentPage meta = Some 1 /\ itemsPerPage meta = Some 10 /\
    List.length found = 10%nat /\
    Sorted (fun a b => Issue.createdAt b <= Issue.createdAt a) found.
Proof.
  destruct (page_is_ordered_and_matches Sample.nothingNear Sample.parseFloat
              Sample.wildParams Sample.crowded) as (_ & _ & _ & Hyes).
  assert (accepted Sample.nothingNear
            (IssuesRoute.validatePagination
               (IssuesRoute.parseFilters Sample.parseFloat Sample.wildParams)) = true)
    as Hserved by (vm_compute; reflexivity).
  destruct (Hyes Hserved) as (found & meta & Hget & _ & _ & Hclamp & Hnewest).
  destruct (Hclamp 0 99 eq_refl eq_refl) as (Hp & Hl & Hfound & _).
  exists found, meta. split; [exact Hget|]. split; [exact Hp|]. split; [exact Hl|].
  split; [|apply Hnewest; reflexivity].
  rewrite Hfound. vm_compute. reflexivity.
Defined.
(** ** Pages *)

Lemma Z_compare_le_trans a b c :
  (a ?= b) <> Gt -> (b ?= c) <> Gt -> (a ?= c) <> Gt.
Proof. rewrite !Z.compare_le_iff. lia. Qed.

Lemma N_compare_le_trans (a b c : N) :
  (a ?= b)%N <> Gt -> (b ?= c)%N <> Gt -> (a ?= c)%N <> Gt.
Proof. rewrite !N.compare_le_iff. lia. Qed.

Lemma compareOpt_le_trans a b c :
  Issue.compareOpt a b <> Gt -> Issue.compareOpt b c <> Gt -> Issue.compareOpt a c <> Gt.
Proof.
  destruct a, b, c; simpl; try congruence. apply Z_compare_le_trans.
Qed.

Lemma string_compare_lt_trans a b c :
  String.compare a b = Lt -> String.compare b c = Lt -> String.compare a c = Lt.
Proof.
  revert b c. induction a as [|x a IH]; intros [|y b] [|z c]; simpl;
    try congruence.
  unfold Ascii.compare.
  destruct (N.compare_spec (N_of_ascii x) (N_of_ascii y)) as [Exy|Hxy|Hxy];
    destruct (N.compare_spec (N_of_ascii y) (N_of_ascii z)) as [Eyz|Hyz|Hyz];
    try discriminate; intros Hab Hbc.
  - rewrite <- Eyz, Exy, N.compare_refl. now apply (IH b c).
  - rewrite Exy. now apply N.compare_lt_iff in Hyz as ->.
  - rewrite <- Eyz. now apply N.compare_lt_iff in Hxy as ->.
  - assert (N_of_ascii x < N_of_ascii z)%N as Hxz by lia.
    now apply N.compare_lt_iff in Hxz as ->.
Qed.

Lemma string_compare_le_trans a b c :
  String.compare a b <> Gt -> String.compare b c <> Gt -> String.compare a c <> Gt.
Proof.
  intros Hab Hbc.
  destruct (String.compare a b) eqn:Eab; [| |congruence].
  - apply String.compare_eq_iff in Eab. now subst.
  - destruct (String.compare b c) eqn:Ebc; [| |congruence].
    + apply String.compare_eq_iff in Ebc. subst. now rewrite Eab.
    + now rewrite (string_compare_lt_trans a b c Eab Ebc).
Qed.

Lemma compareOptStr_le_trans a b c :
  Issue.compareOptStr a b <> Gt -> Issue.compareOptStr b c <> Gt ->
  Issue.compareOptStr a c <> Gt.
Proof.
  destruct a, b, c; simpl; try congruence. apply string_compare_le_trans.
Qed.

Lemma compareField_le_trans field a b c :
  Issue.compareField field a b <> Gt -> Issue.compareField field b c <> Gt ->
  Issue.compareField field a c <> Gt.
Proof.
  unfold Issue.compareField.
  repeat match goal with
         | |- context [if ?c then _ else _] => destruct c
         end;
    first [ apply Z_compare_le_trans | apply N_compare_le_trans
          | apply compareOpt_le_trans | apply compareOptStr_le_trans
          | apply string_compare_le_trans | congruence ].
Qed.

Section Unique.

Variables (field : string) (order : Z).
Hypothesis order_nonzero : order <> 0.

Let R (a b : Issue.t) : Prop := Issue.inOrder field order a b = true.
Let S (a b : Issue.t) : Prop := Issue.inOrder field order b a = false.

Lemma inOrder_trans a b c : R a b -> R b c -> R a c.
Proof.
  unfold R, Issue.inOrder. intros Hab Hbc.
  destruct (Z.ltb_spec 0 order) as [Hpos|Hneg].
  - assert ((order <? 0) = false) as Hn by lia. rewrite Hn in *.
    assert (Issue.compareField field a c <> Gt) as H.
    { apply (compareField_le_trans field a b c).
      - destruct (Issue.compareField field a b); congruence.
      - destruct (Issue.compareField field b c); congruence. }
    destruct (Issue.compareField field a c); congruence.
  - assert ((order <? 0) = true) as Hn by lia. rewrite Hn in *.
    assert (Issue.compareField field c a <> Gt) as H.
    { apply (compareField_le_trans field c b a).
      - rewrite (compareField_antisym field b c).
        destruct (Issue.compareField field b c); simpl; congruence.
      - rewrite (compareField_antisym field a b).
        destruct (Issue.compareField field a b); simpl; congruence. }
    rewrite (compareField_antisym field a c) in H.
    destruct (Issue.compareField field a c); simpl in H; congruence.
Qed.

Lemma strict_inOrder a b : S a b -> R a b.
Proof. unfold S, R. now apply inOrder_total. Qed.

Lemma strict_trans a b c : S a b -> S b c -> S a c.
Proof.
  unfold S. intros Hab Hbc.
  destruct (Issue.inOrder field order c a) eqn:Hca; [|reflexivity].
  assert (R c b) as Hcb.
  { apply (inOrder_trans c a b); [exact Hca | now apply strict_inOrder]. }
  unfold R in Hcb. congruence.
Qed.

(** A list without ties has one sorted arrangement only. *)
Lemma sorted_unique l1 l2 :
  Sorted S l1 -> Sorted R l2 -> Permutation l1 l2 -> l1 = l2.
Proof.
  intros H1 H2.
  apply Sorted_StronglySorted in H1; [|exact strict_trans].
  apply Sorted_StronglySorted in H2; [|exact inOrder_trans].
  revert l2 H2. induction H1 as [|a l1 Hl1 IH Ha]; intros l2 H2 Hperm.
  - apply Permutation_nil in Hperm. now subst.
  - destruct H2 as [|b l2 Hl2 Hb].
    + apply Permutation_sym, Permutation_nil in Hperm. discriminate.
    + assert (a = b) as <-.
      { assert (In a (b :: l2)) as Hin
          by (apply (Permutation_in _ Hperm); now left).
        destruct Hin as [Heq|Hin]; [now symmetry|].
        assert (In b (a :: l1)) as Hin'
          by (apply (Permutation_in _ (Permutation_sym Hperm)); now left).
        destruct Hin' as [Heq|Hin']; [assumption|].
        rewrite Forall_forall in Ha, Hb.
        specialize (Ha b Hin'). specialize (Hb a Hin).
        unfold S in Ha. unfold R in Hb. congruence. }
      f_equal. apply IH; [assumption|].
      now apply Permutation_cons_inv in Hperm.
Qed.

End Unique.

(** When no two matches tie under the sort, every request is handed
    the same sorted list. *)
Lemma handed_unique E filters filters' coll :
  Issue.filterQuery filters' = Issue.filterQuery filters ->
  sortKey filters' = sortKey filters ->
  Sorted (strictlyOrdered filters) (sortedMatches E filters coll) ->
  handed E filters' coll = sortedMatches E filters coll.
Proof.
  intros Hq Hk Hstrict. symmetry.
  apply (sorted_unique (fst (sortKey filters)) (snd (sortKey filters))).
  - apply sortKey_nonzero.
  - exact Hstrict.
  - destruct (handed_facts E filters' coll) as [Hs _].
    unfold ordered in Hs. now rewrite Hk in Hs.
  - destruct (handed_facts E filters' coll) as [_ Hp].
    destruct (sortedMatches_facts E filters coll) as [_ Hp'].
    unfold allMatches in *. rewrite Hq in Hp.
    eapply Permutation_trans; [exact Hp' | now apply Permutation_sym].
Qed.

Lemma pageAt_slice E filters coll L P :
  1 <= L ->
  Issue.refuses E
    (Issue.findRequest
       (IssuesRoute.setPagination (Some (Z.of_nat (S P))) (Some L) filters)) = false ->
  Sorted (strictlyOrdered filters) (sortedMatches E filters coll) ->
  pageAt E filters coll L (S P) =
  firstn (Z.to_nat L) (skipn (P * Z.to_nat L) (sortedMatches E filters coll)).
Proof.
  intros HL Hserved Hstrict. unfold pageAt, Issue.findWithFilters, Issue.exec.
  rewrite Hserved. rewrite findRequest_sort.
  set (filters' := IssuesRoute.setPagination (Some (Z.of_nat (S P))) (Some L) filters)
    in *.
  assert (Issue.r_paging (Issue.findRequest filters') =
          Some ((Z.of_nat (S P) - 1) * L, L)) as ->.
  { unfold Issue.findRequest, filters'.
    cbn [Issue.r_paging IssuesRoute.setPagination Issue.f_page Issue.f_limit
         JS.truthyInt].
    assert ((Z.of_nat (S P) =? 0) = false) as -> by (apply Z.eqb_neq; lia).
    assert ((L =? 0) = false) as -> by (apply Z.eqb_neq; lia). reflexivity. }
  pose proof (handed_unique E filters filters' coll eq_refl eq_refl Hstrict) as Hh.
  unfold handed, allMatches in Hh.
  change (Issue.r_query (Issue.findRequest filters')) with (Issue.filterQuery filters').
  unfold Issue.find_.
  destruct (sortKey filters') as [field order]. cbn [fst snd] in Hh. rewrite Hh.
  assert (((Z.of_nat (S P) - 1) * L <? 0) = false) as -> by (apply Z.ltb_ge; nia).
  unfold Ok. rewrite Z.abs_eq by lia. do 2 f_equal. nia.
Qed.

(** X24: when no two matches tie under the sort and the engine serves
    every page, paging repeats and drops nothing: for a limit of at
    least 1, the pages 1 to [n] of [findWithFilters], one after the
    other, are the first [n * limit] of the sorted matches, and each
    page is the next [limit] of them. *)
Theorem pages_tile E filters coll L n :
  1 <= L ->
  (forall P, (1 <= P <= S n)%nat ->
     Issue.refuses E
       (Issue.findRequest
          (IssuesRoute.setPagination (Some (Z.of_nat P)) (Some L) filters)) = false) ->
  Sorted (strictlyOrdered filters) (sortedMatches E filters coll) ->
  flat_map (pageAt E filters coll L) (seq 1 n) =
    firstn (n * Z.to_nat L) (sortedMatches E filters coll) /\
  pageAt E filters coll L (S n) =
    firstn (Z.to_nat L) (skipn (n * Z.to_nat L) (sortedMatches E filters coll)).
Proof.
  intros HL Hserved Hstrict.
  split; [|apply pageAt_slice; [assumption | apply Hserved; lia | assumption]].
  assert (forall m, (m <= n)%nat ->
            flat_map (pageAt E filters coll L) (seq 1 m) =
            firstn (m * Z.to_nat L) (sortedMatches E filters coll)) as Hall.
  { induction m as [|m IH]; intros Hm; [reflexivity|].
    rewrite seq_S, flat_map_app, IH by lia. cbn [flat_map Nat.add]. rewrite app_nil_r.
    rewrite pageAt_slice; [|assumption | apply Hserved; lia | assumption].
    rewrite firstn_skipn_app. f_equal. lia. }
  now apply Hall.
Qed.

Lemma pages_tile_witness :
  flat_map (pageAt Sample.fickle
              (IssuesRoute.parseFilters Sample.parseFloat Sample.byId)
              Sample.tenIssues 3) (seq 1 4) =
    firstn (4 * Z.to_nat 3)
      (sortedMatches Sample.fickle
         (IssuesRoute.parseFilters Sample.parseFloat Sample.byId) Sample.tenIssues) /\
  pageAt Sample.fickle
    (IssuesRoute.parseFilters Sample.parseFloat Sample.byId) Sample.tenIssues 3 5 =
    firstn (Z.to_nat 3)
      (skipn (4 * Z.to_nat 3)
         (sortedMatches Sample.fickle
            (IssuesRoute.parseFilters Sample.parseFloat Sample.byId)
            Sample.tenIssues)).
Proof.
  assert (Sorted (strictlyOrdered (IssuesRoute.parseFilters Sample.parseFloat Sample.byId))
            (sortedMatches Sample.fickle
               (IssuesRoute.parseFilters Sample.parseFloat Sample.byId)
               Sample.tenIssues)) as Hstrict.
  { vm_compute. repeat (constructor; try reflexivity). }
  assert (1 <= 3) as HL by lia.
  exact (pages_tile Sample.fickle
           (IssuesRoute.parseFilters Sample.parseFloat Sample.byId)
           Sample.tenIssues 3 4 HL (fun P _ => eq_refl) Hstrict).
Defined.

(** With ties the pages need not tile: all ten issues were created at
    the same time, and an engine that hands them over in another order
    for the second page shows the first issue on both pages. *)
Lemma tied_pages_can_repeat :
  pageAt Sample.fickle (IssuesRoute.parseFilters Sample.parseFloat Sample.noParams)
    Sample.tenIssues 1 1 =
  pageAt Sample.fickle (IssuesRoute.parseFilters Sample.parseFloat Sample.noParams)
    Sample.tenIssues 1 2 /\
  List.length
    (pageAt Sample.fickle (IssuesRoute.parseFilters Sample.parseFloat Sample.noParams)
       Sample.tenIssues 1 1) = 1%nat.
Proof. split; vm_compute; reflexivity. Qed.

Lemma length_sortedMatches E filters coll :
  Z.of_nat (List.length (sortedMatches E filters coll)) =
  Issue.countDocuments E (Issue.filterQuery filters) coll.
Proof.
  destruct (sortedMatches_facts E filters coll) as [_ Hperm].
  unfold Issue.countDocuments. f_equal. now apply Permutation_length.
Qed.

Lemma length_handed E filters coll :
  Z.of_nat (List.length (handed E filters coll)) =
  Issue.countDocuments E (Issue.filterQuery filters) coll.
Proof.
  destruct (handed_facts E filters coll) as [_ Hperm].
  unfold Issue.countDocuments. f_equal. now apply Permutation_length.
Qed.

Lemma findRequest_parts filters :
  Issue.findRequest filters =
  Issue.mkRequest (Issue.filterQuery filters) (Some (sortKey filters))
    (Issue.r_paging (Issue.findRequest filters)).
Proof.
  unfold Issue.findRequest, sortKey. cbn [Issue.r_paging].
  destruct (Issue.given (Issue.f_sortBy filters)); reflexivity.
Qed.

(** X25: when the engine serves the request and there is no location
    filter, the metadata agree with the pages: totalItems is the number
    of matches, and the page returned is non-empty exactly when the
    current page is at most totalPages. *)
Theorem totals_without_location E pf q db p l :
  accepted E (IssuesRoute.validatePagination (IssuesRoute.parseFilters pf q)) = true ->
  Issue.f_location (IssuesRoute.parseFilters pf q) = None ->
  JS.parseInt (IssuesRoute.orElse (IssuesRoute.p_page q) "1") = Some p ->
  JS.parseInt (IssuesRoute.orElse (IssuesRoute.p_limit q) "10") = Some l ->
  exists found meta P T,
    data (IssuesRoute.GET E pf q db) = PageData found meta /\
    totalItems meta =
      Z.of_nat (List.length
                  (sortedMatches E (IssuesRoute.parseFilters pf q) (issues db))) /\
    currentPage meta = Some P /\ totalPages meta = Some T /\
    (found <> [] <-> P <= T) /\
    (hasNextPage meta = true <-> P < T).
Proof.
  intros Hserved Hloc Hp Hl. rewrite GET_outcome, Hserved.
  rewrite (countQuery_without_location pf q Hloc).
  rewrite <- length_handed.
  assert (List.length
            (sortedMatches E (IssuesRoute.parseFilters pf q) (issues db)) =
          List.length
            (handed E (IssuesRoute.validatePagination (IssuesRoute.parseFilters pf q))
               (issues db))) as ->.
  { apply Nat2Z.inj. now rewrite length_sortedMatches, length_handed. }
  set (all := handed E _ (issues db)).
  rewrite validatePagination_clamps.
  cbn [IssuesRoute.setPagination Issue.f_limit Issue.f_page].
  assert (Issue.f_page (IssuesRoute.parseFilters pf q) = Some p) as -> by exact Hp.
  assert (Issue.f_limit (IssuesRoute.parseFilters pf q) = Some l) as -> by exact Hl.
  cbn [clampPage clampLimit].
  set (L := if (1 <=? l) && (l <=? 50) then l else 10).
  assert (1 <= L <= 50) as HL.
  { unfold L. destruct (Z.leb_spec 1 l), (Z.leb_spec l 50); simpl; lia. }
  set (N := Z.of_nat (List.length all)).
  unfold JS.Math_ceil_div. assert ((L =? 0) = false) as -> by lia.
  eexists. eexists. exists (Z.max 1 p), (- (- N / L)).
  split; [reflexivity|]. cbn [totalItems currentPage totalPages hasNextPage].
  split; [reflexivity|]. split; [reflexivity|]. split; [reflexivity|].
  assert ((- (- N / L) - 1) * L < N <= - (- N / L) * L) as HT.
  { pose proof (Z.div_mod (- N) L) as H1. pose proof (Z.mod_pos_bound (- N) L) as H2.
    nia. }
  split.
  - set (skip := Z.to_nat ((Z.max 1 p - 1) * L)).
    assert (firstn (Z.to_nat L) (skipn skip all) <> [] <->
            (skip < List.length all)%nat) as Hne.
    { split.
      - intros Hn. destruct (Nat.lt_ge_cases skip (List.length all)) as [|Hge];
          [assumption|].
        rewrite skipn_all2 in Hn by assumption. rewrite firstn_nil in Hn. congruence.
      - intros Hlt Hnil. apply (f_equal (@List.length _)) in Hnil.
        rewrite length_firstn, length_skipn in Hnil. simpl in Hnil. lia. }
    rewrite Hne. unfold skip, N in *. split; intros H; nia.
  - unfold IssuesRoute.ltNaN. rewrite Z.ltb_lt. tauto.
Qed.

Lemma totals_without_location_witness :
  exists found meta P T,
    data (IssuesRoute.GET Sample.nothingNear Sample.parseFloat Sample.wildParams
            Sample.db1) = PageData found meta /\
    totalItems meta =
      Z.of_nat (List.length
                  (sortedMatches Sample.nothingNear
                     (IssuesRoute.parseFilters Sample.parseFloat Sample.wildParams)
                     (issues Sample.db1))) /\
    currentPage meta = Some P /\ totalPages meta = Some T /\
    (found <> [] <-> P <= T) /\
    (hasNextPage meta = true <-> P < T).
Proof.
  exact (totals_without_location Sample.nothingNear Sample.parseFloat Sample.wildParams
           Sample.db1 0 99 eq_refl eq_refl eq_refl eq_refl).
Defined.

(** X26: a page or a limit parameter that does not parse as a number
    turns paging off: when the engine serves the request, the route
    returns all matches at once, whatever the other of the two says. *)
Theorem unparsable_page_returns_everything E pf q db :
  accepted E (IssuesRoute.validatePagination (IssuesRoute.parseFilters pf q)) = true ->
  JS.parseInt (IssuesRoute.orElse (IssuesRoute.p_page q) "1") = None \/
  JS.parseInt (IssuesRoute.orElse (IssuesRoute.p_limit q) "10") = None ->
  exists meta,
    IssuesRoute.GET E pf q db =
      mkResponse 200 true "Issues retrieved successfully"
        (PageData (sortedMatches E (IssuesRoute.parseFilters pf q) (issues db)) meta) /\
    totalPages meta =
      match JS.parseInt (IssuesRoute.orElse (IssuesRoute.p_limit q) "10") with
      | Some l =>
          Some (- (- totalItems meta / (if (1 <=? l) && (l <=? 50) then l else 10)))
      | None => None
      end /\
    hasNextPage meta = false.
Proof.
  intros Hserved Hnan. rewrite GET_outcome, Hserved.
  assert (handed E (IssuesRoute.validatePagination (IssuesRoute.parseFilters pf q))
            (issues db) =
          sortedMatches E (IssuesRoute.parseFilters pf q) (issues db)) as ->.
  { unfold handed, sortedMatches.
    rewrite (findRequest_parts (IssuesRoute.validatePagination _)), paging_validated.
    change (Issue.f_page (IssuesRoute.parseFilters pf q))
      with (JS.parseInt (IssuesRoute.orElse (IssuesRoute.p_page q) "1")).
    change (Issue.f_limit (IssuesRoute.parseFilters pf q))
      with (JS.parseInt (IssuesRoute.orElse (IssuesRoute.p_limit q) "10")).
    destruct Hnan as [-> | ->]; cbn [clampPage clampLimit];
      [|destruct (clampPage _)]; reflexivity. }
  rewrite validatePagination_clamps.
  cbn [IssuesRoute.setPagination Issue.f_limit Issue.f_page].
  change (Issue.f_page (IssuesRoute.parseFilters pf q))
    with (JS.parseInt (IssuesRoute.orElse (IssuesRoute.p_page q) "1")) in *.
  change (Issue.f_limit (IssuesRoute.parseFilters pf q))
    with (JS.parseInt (IssuesRoute.orElse (IssuesRoute.p_limit q) "10")) in *.
  destruct (JS.parseInt (IssuesRoute.orElse (IssuesRoute.p_page q) "1")) as [p|];
    destruct (JS.parseInt (IssuesRoute.orElse (IssuesRoute.p_limit q) "10")) as [l|];
    try (destruct Hnan; discriminate); cbn [clampPage clampLimit];
    eexists; (split; [reflexivity|]);
    cbn [totalPages totalItems hasNextPage JS.Math_ceil_div IssuesRoute.ltNaN];
    (split; [|reflexivity]); try reflexivity.
  assert (((if (1 <=? l) && (l <=? 50) then l else 10) =? 0) = false) as ->; [|reflexivity].
  destruct (Z.leb_spec 1 l), (Z.leb_spec l 50); simpl; lia.
Qed.

Lemma unparsable_page_returns_everything_witness :
  exists meta,
    IssuesRoute.GET Sample.nothingNear Sample.parseFloat unparsablePage Sample.db2 =
      mkResponse 200 true "Issues retrieved successfully"
        (PageData (sortedMatches Sample.nothingNear
                     (IssuesRoute.parseFilters Sample.parseFloat unparsablePage)
                     (issues Sample.db2)) meta) /\
    totalPages meta =
      match JS.parseInt (IssuesRoute.orElse (IssuesRoute.p_limit unparsablePage) "10") with
      | Some l =>
          Some (- (- totalItems meta / (if (1 <=? l) && (l <=? 50) then l else 10)))
      | None => None
      end /\
    hasNextPage meta = false.
Proof.
  exact (unparsable_page_returns_everything Sample.nothingNear Sample.parseFloat
           unparsablePage Sample.db2 eq_refl (or_introl eq_refl)).
Defined.

(** Without an engine that serves the request there is no page: the
    route answers 500 whatever the query says, and a location that
    does not parse is refused by the sample engine as well. *)
Lemma unserved_list_is_500 :
  IssuesRoute.GET Sample.down Sample.parseFloat Sample.noParams Sample.db1 =
    failure 500 "Failed to retrieve issues" /\
  IssuesRoute.GET Sample.down Sample.parseFloat unparsablePage Sample.db1 =
    failure 500 "Failed to retrieve issues" /\
  IssuesRoute.GET Sample.nothingNear Sample.parseFloat Sample.badLocation Sample.db1 =
    failure 500 "Failed to retrieve issues".
Proof. repeat split; vm_compute; reflexivity. Qed.

(** ** The administrator statistics *)

Section Breakdown.

Context {K : Type} `{Key K}.

Lemma insertByCount_perm (g : K * Z) l :
  Permutation (AdminStatsRoute.insertByCount g l) (g :: l).
Proof.
  induction l as [|h l IH]; simpl; [reflexivity|].
  destruct (snd h <? snd g); [reflexivity|].
  rewrite IH. apply perm_swap.
Qed.

Lemma sortByCount_perm (l : list (K * Z)) :
  Permutation (AdminStatsRoute.sortByCount l) l.
Proof.
  unfold AdminStatsRoute.sortByCount. induction l as [|g l IH]; simpl; [reflexivity|].
  rewrite insertByCount_perm. now constructor.
Qed.

Lemma insertByCount_sorted g l :
  Sorted (fun a b : K * Z => snd b <= snd a) l ->
  Sorted (fun a b : K * Z => snd b <= snd a) (AdminStatsRoute.insertByCount g l).
Proof.
  induction 1 as [|h l Hl IH Hh]; simpl; [repeat constructor|].
  destruct (Z.ltb_spec (snd h) (snd g)).
  - constructor; [now constructor|]. constructor. lia.
  - constructor; [assumption|].
    destruct l as [|k l]; simpl; [now constructor|].
    destruct (snd k <? snd g); constructor; [assumption|]. now inversion Hh.
Qed.

Lemma sortByCount_sorted l :
  Sorted (fun a b : K * Z => snd b <= snd a) (AdminStatsRoute.sortByCount l).
Proof.
  unfold AdminStatsRoute.sortByCount. induction l as [|g l IH]; simpl; [constructor|].
  now apply insertByCount_sorted.
Qed.

Lemma sumCounts_perm (l l' : list (K * Z)) :
  Permutation l l' -> sumCounts l = sumCounts l'.
Proof.
  unfold sumCounts. induction 1; simpl; lia.
Qed.

Lemma countOf_In (k : K) c groups :
  NoDup (map fst groups) -> In (k, c) groups -> countOf k groups = c.
Proof.
  unfold countOf. induction groups as [|[k' c'] l IH]; simpl; intros Hnd Hin; [contradiction|].
  inversion Hnd as [|? ? Hk Hl]; subst.
  destruct Hin as [E|Hin].
  - injection E as -> ->. now destruct (same_spec k k).
  - destruct (same_spec k k') as [->|Hne]; [|now apply IH].
    exfalso. apply Hk. change k' with (fst (k', c)). now apply in_map.
Qed.

Lemma bump_positive (k : K) groups :
  Forall (fun g : K * Z => 1 <= snd g) groups ->
  Forall (fun g : K * Z => 1 <= snd g) (Issue.bump k groups).
Proof.
  induction 1 as [|[k' c] l Hc Hl IH]; simpl; [repeat constructor; simpl; lia|].
  simpl in Hc. destruct (same k k'); constructor; simpl; try assumption; lia.
Qed.

Lemma groupCount_positive (key : Issue.t -> K) coll :
  Forall (fun g : K * Z => 1 <= snd g) (Issue.groupCount key coll).
Proof.
  unfold Issue.groupCount.
  assert (forall acc, Forall (fun g : K * Z => 1 <= snd g) acc ->
            Forall (fun g : K * Z => 1 <= snd g)
              (fold_left (fun groups d => Issue.bump (key d) groups) coll acc)) as Hall.
  { induction coll as [|d l IH]; intros acc Hacc; simpl; [assumption|].
    apply IH. now apply bump_positive. }
  apply Hall. constructor.
Qed.

(** The groups of an aggregation by [key], sorted by count. *)
Lemma breakdown_facts (key : Issue.t -> K) coll :
  let groups := AdminStatsRoute.sortByCount (Issue.groupCount key coll) in
  Sorted (fun a b : K * Z => snd b <= snd a) groups /\
  NoDup (map fst groups) /\
  sumCounts groups = Z.of_nat (List.length coll) /\
  forall k c, In (k, c) groups -> c = countKey key k coll /\ 1 <= c.
Proof.
  intros groups.
  pose proof (sortByCount_perm (Issue.groupCount key coll)) as Hperm. fold groups in Hperm.
  destruct (groupCount_spec key coll []) as [Hnd [Hsum Hcount]].
  specialize (Hnd (NoDup_nil _)). fold (Issue.groupCount key coll) in Hnd, Hsum, Hcount.
  split; [apply sortByCount_sorted|]. split; [|split].
  - apply (Permutation_NoDup (l := map fst (Issue.groupCount key coll)));
      [|assumption].
    apply Permutation_map. now symmetry.
  - rewrite (sumCounts_perm _ _ Hperm), Hsum. unfold sumCounts. simpl. lia.
  - intros k c Hin. apply (Permutation_in _ Hperm) in Hin. split.
    + rewrite <- (countOf_In k c _ Hnd Hin), Hcount.
      unfold countOf. simpl. lia.
    + pose proof (groupCount_positive key coll) as Hpos.
      rewrite Forall_forall in Hpos. apply (Hpos _ Hin).
Qed.

End Breakdown.

(** X27: for an administrator the statistics are answered 200, and the
    two breakdowns are consistent with the total: the groups are in
    descending order of count, no key appears twice, every count is the
    number of issues with that key and is at least 1, and the counts
    add up to totalIssues; the admins are among the users and no more
    issues are recent than there are issues. *)
Theorem breakdowns_add_up token admin now monthStart db :
  requireAdmin token db = Ok admin ->
  exists stats,
    AdminStatsRoute.GET token now monthStart db =
      mkResponse 200 true "Admin statistics retrieved successfully" (StatsData stats) /\
    (Sorted (fun a b : string * Z => snd b <= snd a) (issuesByCategory stats) /\
     NoDup (map fst (issuesByCategory stats)) /\
     sumCounts (issuesByCategory stats) = Issue.totalIssues (issueStats stats) /\
     forall k c, In (k, c) (issuesByCategory stats) ->
                 c = countKey Issue.category k (issues db) /\ 1 <= c) /\
    (Sorted (fun a b : option string * Z => snd b <= snd a) (issuesByPriority stats) /\
     NoDup (map fst (issuesByPriority stats)) /\
     sumCounts (issuesByPriority stats) = Issue.totalIssues (issueStats stats) /\
     forall k c, In (k, c) (issuesByPriority stats) ->
                 c = countKey Issue.priority k (issues db) /\ 1 <= c) /\
    0 <= totalAdmins stats <= totalUsers stats /\
    0 <= newUsersThisMonth stats <= totalUsers stats /\
    0 <= recentIssues stats <= Issue.totalIssues (issueStats stats) /\
    0 <= recentVotes stats <= totalVotes stats.
Proof.
  intros Hadmin. unfold AdminStatsRoute.GET. rewrite Hadmin. unfold Ok.
  eexists. split; [reflexivity|].
  cbn [issuesByCategory issuesByPriority issueStats totalAdmins totalUsers
       newUsersThisMonth recentIssues recentVotes totalVotes].
  destruct (getDashboardStats_counts (issues db)) as [Ht _]. rewrite Ht.
  split; [apply breakdown_facts|]. split; [apply breakdown_facts|].
  split; [apply count_le_length|]. split; [apply count_le_length|].
  split; [apply count_le_length|].
  assert (Vote.totalVotes (Vote.getVotingStats None (ledger db)) =
          Z.of_nat (List.length (ledger db))) as ->.
  { unfold Vote.getVotingStats. destruct (ledger db); reflexivity. }
  apply count_le_length.
Qed.

Lemma breakdowns_add_up_witness :
  exists stats,
    AdminStatsRoute.GET (Some 2%N) 5000 0 Sample.db3 =
      mkResponse 200 true "Admin statistics retrieved successfully" (StatsData stats) /\
    (Sorted (fun a b : string * Z => snd b <= snd a) (issuesByCategory stats) /\
     NoDup (map fst (issuesByCategory stats)) /\
     sumCounts (issuesByCategory stats) = Issue.totalIssues (issueStats stats) /\
     forall k c, In (k, c) (issuesByCategory stats) ->
                 c = countKey Issue.category k (issues Sample.db3) /\ 1 <= c) /\
    (Sorted (fun a b : option string * Z => snd b <= snd a) (issuesByPriority stats) /\
     NoDup (map fst (issuesByPriority stats)) /\
     sumCounts (issuesByPriority stats) = Issue.totalIssues (issueStats stats) /\
     forall k c, In (k, c) (issuesByPriority stats) ->
                 c = countKey Issue.priority k (issues Sample.db3) /\ 1 <= c) /\
    0 <= totalAdmins stats <= totalUsers stats /\
    0 <= newUsersThisMonth stats <= totalUsers stats /\
    0 <= recentIssues stats <= Issue.totalIssues (issueStats stats) /\
    0 <= recentVotes stats <= totalVotes stats.
Proof.
  assert (requireAdmin (Some 2%N) Sample.db3 = Ok Sample.rootAuth) as Hadmin
    by (vm_compute; reflexivity).
  exact (breakdowns_add_up (Some 2%N) Sample.rootAuth 5000 0 Sample.db3 Hadmin).
Defined.

(** X28: the statistics are for verified administrators only: the
    route answers 200 exactly when the token belongs to a stored,
    verified user whose role is admin, and 401 otherwise. *)
Theorem statistics_are_for_admins token now monthStart db :
  let r := AdminStatsRoute.GET token now monthStart db in
  (httpStatus r = 200 <->
   exists id user, token = Some id /\ findUser id db = Some user /\
                   User.isVerified user = true /\ User.role user = "admin") /\
  (httpStatus r <> 200 -> httpStatus r = 401 /\ data r = NoData).
Proof.
  cbn zeta. unfold AdminStatsRoute.GET, requireAdmin, requireAuth, getCurrentUser.
  destruct token as [id|]; unravel.
  2:{ cbn. split; [split; [discriminate | intros (i & u & H & _); discriminate]|].
      intros _. split; reflexivity. }
  destruct (findUser id db) as [user|] eqn:Huser.
  2:{ cbn. split; [split; [discriminate | intros (i & u & [= <-] & H & _); congruence]|].
      intros _. split; reflexivity. }
  destruct (User.isVerified user) eqn:Hver; unravel.
  2:{ cbn. split; [split; [discriminate|] | intros _; split; reflexivity].
      intros (i & u & [= <-] & H & Hv & _). congruence. }
  cbn [auth_role].
  destruct (String.eqb_spec (User.role user) "admin") as [Hrole|Hrole].
  - cbn. split; [|intros H; now contradiction H].
    split; [|reflexivity]. intros _. exists id, user. tauto.
  - cbn. split; [split; [discriminate|] | intros _; split; reflexivity].
    intros (i & u & [= <-] & H & _ & Hr). congruence.
Qed.

(** ** A new issue *)

Lemma newIssue_origin user title description category priority address images
    lng lat newId now doc errs :
  IssuesRoute.newIssue user title description category priority address images
    lng lat newId now = Ok (doc, errs) ->
  Issue.reportedBy doc = auth_id user /\ Issue.createdAt doc = now /\
  Issue.updatedAt doc = now /\ Issue.coordinates doc = [lng; lat] /\
  Issue.assignedTo doc = None /\ Issue.comments doc = [].
Proof.
  unfold IssuesRoute.newIssue.
  destruct (IssueRoute.callTrim title); unravel; [discriminate|].
  destruct (IssueRoute.callTrim description); unravel; [discriminate|].
  destruct (IssueRoute.callTrim address); unravel; [discriminate|].
  intros [= <- _]. repeat split.
Qed.

Lemma preSave_origin m now d :
  let d' := Issue.preSave m now d in
  Issue.reportedBy d' = Issue.reportedBy d /\ Issue.createdAt d' = Issue.createdAt d /\
  Issue.updatedAt d' = Issue.updatedAt d /\ Issue.assignedTo d' = Issue.assignedTo d /\
  Issue.comments d' = Issue.comments d /\ Issue.coordinates d' = Issue.coordinates d.
Proof.
  cbn zeta. unfold Issue.preSave. destruct m; [|repeat split].
  destruct (_ && _); [repeat split|]. destruct (negb _); repeat split.
Qed.

(** A creation that is answered 201, with what it stored. *)
Lemma POST_issue_created token body newId now db :
  (httpStatus (fst (IssuesRoute.POST token body newId now db)) <> 201 /\
   snd (IssuesRoute.POST token body newId now db) = db) \/
  exists user saved lng lat,
    requireAuth token db = Ok user /\
    IssuesRoute.POST token body newId now db =
      (mkResponse 201 true "Issue created successfully" (IssueData saved),
       setIssues (issues db ++ [saved]) db) /\
    Issue._id saved = newId /\ Issue.votes saved = 0 /\ Issue.votedBy saved = [] /\
    Issue.status saved = "pending" /\ Issue.resolvedAt saved = None /\
    Issue.reportedBy saved = auth_id user /\ Issue.createdAt saved = now /\
    Issue.updatedAt saved = now /\ Issue.assignedTo saved = None /\
    Issue.comments saved = [] /\ Issue.coordinates saved = [lng; lat] /\
    body <> None /\
    forall b, body = Some b ->
      JS.prop (JS.prop b "location") "coordinates" = JS.Arr [JS.Num lng; JS.Num lat].
Proof.
  unfold IssuesRoute.POST.
  destruct (requireAuth token db) as [e|user]; unravel.
  { left. destruct e; cbn; split; (discriminate || reflexivity). }
  destruct body as [body|]; unravel; [|left; cbn; split; (discriminate || reflexivity)].
  destruct (JS.destructurable body); unravel;
    [|left; cbn; split; (discriminate || reflexivity)].
  destruct (negb _ || negb _ || negb _ || negb _ || negb _);
    [left; cbn; split; (discriminate || reflexivity)|].
  destruct (JS.prop (JS.prop body "location") "coordinates") as [| | | | |l|] eqn:Hloc;
    try (left; cbn; split; (discriminate || reflexivity)).
  destruct l as [|[| | |lng| | |] [|[| | |lat| | |] [|]]];
    try (left; cbn; split; (discriminate || reflexivity)).
  destruct (_ || _ || _ || _); [left; cbn; split; (discriminate || reflexivity)|].
  destruct (IssuesRoute.newIssue _ _ _ _ _ _ _ _ _ _ _) as [e|[doc errs]] eqn:Hnew;
    unravel.
  { left. destruct e; cbn; split; (discriminate || reflexivity). }
  destruct (IssuesRoute.saveNew errs now doc) as [e|saved] eqn:Hsave; unravel.
  { left. destruct e; cbn; split; (discriminate || reflexivity). }
  right. exists user, saved, lng, lat.
  split; [reflexivity|]. split; [reflexivity|].
  pose proof (newIssue_fields _ _ _ _ _ _ _ _ _ _ _ _ _ Hnew) as Hf.
  pose proof (newIssue_origin _ _ _ _ _ _ _ _ _ _ _ _ _ Hnew)
    as (Hr & Hc & Hu & Hco & Ha & Hcm).
  destruct (saveNew_fields errs now doc saved newId Hsave Hf) as (S1 & S2 & S3 & S4 & S5).
  assert (saved = Issue.preSave true now doc) as Hsaved.
  { unfold IssuesRoute.saveNew in Hsave.
    destruct (errs ++ _); [|discriminate]. now injection Hsave as <-. }
  destruct (preSave_origin true now doc) as (P1 & P2 & P3 & P4 & P5 & P6).
  rewrite <- Hsaved in *.
  repeat split; try congruence.
Qed.

Lemma findById_snoc_fresh newId coll saved :
  ~ In newId (map Issue._id coll) -> Issue._id saved = newId ->
  Issue.findById newId (coll ++ [saved]) = Some saved /\
  forall j, j <> newId -> Issue.findById j (coll ++ [saved]) = Issue.findById j coll.
Proof.
  intros Hfresh Hid. unfold Issue.findById. split.
  - induction coll as [|x l IH]; simpl in *.
    + rewrite Hid, N.eqb_refl. reflexivity.
    + destruct (N.eqb_spec (Issue._id x) newId) as [E|E]; [tauto|]. apply IH. tauto.
  - intros j Hj. clear Hfresh. induction coll as [|x l IH]; simpl.
    + rewrite Hid. apply not_eq_sym in Hj. apply N.eqb_neq in Hj. now rewrite Hj.
    + destruct (N.eqb (Issue._id x) j); [reflexivity | assumption].
Qed.

(** X29: an issue that was created with a fresh id is found under that
    id by the single-issue route, exactly as the creation answered it:
    reported by the caller, pending, unassigned, without votes and
    comments, created at the time of the request at the coordinates of
    the payload; nobody has voted for it; every other issue is served
    as before. *)
Theorem created_issue_is_found token body newId now db :
  fresh newId db ->
  httpStatus (fst (IssuesRoute.POST token body newId now db)) = 201 ->
  let db' := snd (IssuesRoute.POST token body newId now db) in
  exists user saved,
    requireAuth token db = Ok user /\
    data (fst (IssuesRoute.POST token body newId now db)) = IssueData saved /\
    IssueRoute.GET (Some newId) db' =
      mkResponse 200 true "Issue retrieved successfully" (IssueData saved) /\
    (forall j, j <> newId -> IssueRoute.GET (Some j) db' = IssueRoute.GET (Some j) db) /\
    (forall t u, requireAuth t db = Ok u ->
       VoteRoute.GET t (Some newId) db' =
         mkResponse 200 true "Vote status retrieved successfully"
           (VoteStatus newId false 0)) /\
    Issue._id saved = newId /\ Issue.reportedBy saved = auth_id user /\
    Issue.status saved = "pending" /\ Issue.assignedTo saved = None /\
    Issue.votes saved = 0 /\ Issue.votedBy saved = [] /\ Issue.comments saved = [] /\
    Issue.createdAt saved = now /\ Issue.resolvedAt saved = None /\
    Issue.coordinatesValidator (Issue.coordinates saved) = true.
Proof.
  intros [Hfresh Hledger] Hcode. cbn zeta.
  destruct (POST_issue_created token body newId now db) as [[Hno _]|Hyes];
    [contradiction|].
  destruct Hyes as (user & saved & lng & lat & Hauth & Hpost & Hid & Hv & Hb & Hs & Hr &
                    Hrep & Hc & Hu & Ha & Hcm & Hco & _).
  assert (wellFormed saved) as Hwf.
  { destruct (POST_issue_outcome token body newId now db) as [E|(doc & errs & sv & Hsv & E)].
    - rewrite Hpost in E. cbn [snd] in E.
      apply (f_equal (fun d => List.length (issues d))) in E.
      cbn [issues setIssues] in E. rewrite length_app in E. simpl in E. lia.
    - rewrite Hpost in E. cbn [snd] in E.
      apply (f_equal issues) in E. cbn [issues setIssues] in E.
      apply app_inv_head in E. injection E as ->.
      now apply (saveNew_wellFormed errs now doc). }
  rewrite Hpost. cbn [fst snd data].
  destruct (findById_snoc_fresh newId (issues db) saved Hfresh Hid) as [Hnew Hold].
  exists user, saved. split; [assumption|]. split; [reflexivity|].
  split; [|split; [|split]].
  - unfold IssueRoute.GET. cbn [issues setIssues]. now rewrite Hnew.
  - intros j Hj. unfold IssueRoute.GET. cbn [issues setIssues]. now rewrite Hold.
  - intros t u Ht. unfold VoteRoute.GET.
    rewrite (requireAuth_users t db) by reflexivity. rewrite Ht. unfold Ok.
    cbn [issues ledger setIssues]. rewrite Hnew, Hv.
    assert (Vote.hasUserVoted (auth_id u) newId (ledger db) = false) as ->; [|reflexivity].
    destruct (Vote.hasUserVoted (auth_id u) newId (ledger db)) eqn:E; [|reflexivity].
    exfalso. apply Hledger. apply hasUserVoted_In in E.
    apply in_map_iff in E. destruct E as (v & Hp & Hin). injection Hp as _ Hi.
    apply in_map_iff. now exists v.
  - repeat split; try assumption.
    unfold wellFormed in Hwf. rewrite validate_nil in Hwf.
    specialize (Hwf "location.coordinates" ltac:(cbn; tauto)).
    change (Issue.pathErrors "location.coordinates" saved)
      with (if Issue.coordinatesValidator (Issue.coordinates saved) then []
            else ["Invalid coordinates. Longitude must be between -180 and 180, latitude between -90 and 90"])
      in Hwf.
    destruct (Issue.coordinatesValidator _); [reflexivity | discriminate].
Qed.

Lemma created_issue_is_found_witness :
  let posted :=
    IssuesRoute.POST (Some 1%N) (Some (Sample.report 10 45)) 100%N 1000 Sample.db0 in
  exists user saved,
    requireAuth (Some 1%N) Sample.db0 = Ok user /\
    data (fst posted) = IssueData saved /\
    IssueRoute.GET (Some 100%N) (snd posted) =
      mkResponse 200 true "Issue retrieved successfully" (IssueData saved) /\
    (forall j, j <> 100%N ->
       IssueRoute.GET (Some j) (snd posted) = IssueRoute.GET (Some j) Sample.db0) /\
    (forall t u, requireAuth t Sample.db0 = Ok u ->
       VoteRoute.GET t (Some 100%N) (snd posted) =
         mkResponse 200 true "Vote status retrieved successfully"
           (VoteStatus 100%N false 0)) /\
    Issue._id saved = 100%N /\ Issue.reportedBy saved = auth_id user /\
    Issue.status saved = "pending" /\ Issue.assignedTo saved = None /\
    Issue.votes saved = 0 /\ Issue.votedBy saved = [] /\ Issue.comments saved = [] /\
    Issue.createdAt saved = 1000 /\ Issue.resolvedAt saved = None /\
    Issue.coordinatesValidator (Issue.coordinates saved) = true.
Proof.
  assert (httpStatus (fst (IssuesRoute.POST (Some 1%N) (Some (Sample.report 10 45))
                             100%N 1000 Sample.db0)) = 201) as Hcode
    by (vm_compute; reflexivity).
  exact (created_issue_is_found (Some 1%N) (Some (Sample.report 10 45)) 100%N 1000
           Sample.db0 ltac:(split; simpl; tauto) Hcode).
Defined.
